(** * The command-line option interpreter of pkg/cli/cli_impl.go

    A shallow embedding of [parseOptionsImpl], [parseTargets],
    [parseOptionsForRun], [splitWithEmptyCheck] and [parseServeOptionsImpl],
    together with the part of Go's standard library they call, and the
    properties of the option grammar proved about them. *)

From Stdlib Require Import String Ascii List ZArith Bool Lia.
From stdpp Require Import gmap strings list sorting.

Import ListNotations.
Local Open Scope string_scope.
Local Open Scope list_scope.

(** ** Go strings

    A Go string is a sequence of bytes; [string] is a sequence of [ascii]
    (8-bit) characters, so the two agree byte for byte. *)

Module strings.

(** [len(s)] *)
Definition len (s : string) : nat := String.length s.

(** [strings.HasPrefix(s, prefix)] *)
Fixpoint HasPrefix (s prefix : string) {struct prefix} : bool :=
  match prefix, s with
  | EmptyString, _ => true
  | String c p, String d r => Ascii.eqb c d && HasPrefix r p
  | String _ _, EmptyString => false
  end.

(** [s[n:]]; the callers only slice inside the string *)
Fixpoint sliceFrom (n : nat) (s : string) : string :=
  match n, s with
  | O, _ => s
  | S m, String _ r => sliceFrom m r
  | S _, EmptyString => EmptyString
  end.

(** [s[:n]] *)
Fixpoint sliceTo (n : nat) (s : string) : string :=
  match n, s with
  | O, _ => EmptyString
  | S m, String c r => String c (sliceTo m r)
  | S _, EmptyString => EmptyString
  end.

(** [strings.IndexByte(s, c)]: the index of the first [c], [None] for -1 *)
Fixpoint IndexByte (s : string) (c : ascii) : option nat :=
  match s with
  | EmptyString => None
  | String d r =>
      if Ascii.eqb d c then Some O
      else match IndexByte r c with
           | Some i => Some (S i)
           | None => None
           end
  end.

(** the index of the last [c] (package net's [last]) *)
Fixpoint LastIndexByte (s : string) (c : ascii) : option nat :=
  match s with
  | EmptyString => None
  | String d r =>
      match LastIndexByte r c with
      | Some i => Some (S i)
      | None => if Ascii.eqb d c then Some O else None
      end
  end.

(** [strings.ContainsRune(s, r)] for a rune below 0x80 *)
Definition ContainsRune (s : string) (c : ascii) : bool :=
  match IndexByte s c with Some _ => true | None => false end.

(** [s[i]], with 0 past the end (the callers index inside the string) *)
Definition byteAt (s : string) (i : nat) : ascii :=
  match String.get i s with Some c => c | None => zero end.

(** [strings.Split(s, sep)] for a one-byte separator: the pieces between
    the separators, [n+1] pieces for [n] separators. *)
Fixpoint Split (s : string) (sep : ascii) : list string :=
  match s with
  | EmptyString => [EmptyString]
  | String c r =>
      if Ascii.eqb c sep then EmptyString :: Split r sep
      else match Split r sep with
           | p :: ps => String c p :: ps
           | [] => [String c EmptyString]
           end
  end.

(** [strings.Join(elems, sep)] *)
Fixpoint Join (elems : list string) (sep : string) : string :=
  match elems with
  | [] => EmptyString
  | [x] => x
  | x :: rest => x +:+ sep +:+ Join rest sep
  end.

(** One byte of [strings.ToLower]: the letters A-Z are mapped to a-z. *)
Definition lowerByte (c : ascii) : ascii :=
  let n := nat_of_ascii c in
  if (65 <=? n)%nat && (n <=? 90)%nat then ascii_of_nat (n + 32) else c.

(** [strings.ToLower(s)] on the bytes below 0x80. Go also maps letters
    outside ASCII; no rune outside ASCII has a lower case inside ASCII
    among the letters and digits of the target names below, so the table
    lookup that uses this function is decided by the ASCII part alone. *)
Fixpoint ToLower (s : string) : string :=
  match s with
  | EmptyString => EmptyString
  | String c r => String (lowerByte c) (ToLower r)
  end.

End strings.

(** ** Package strconv *)

Module strconv.

Definition dquote : ascii := ascii_of_nat 34.
Definition backslash : ascii := ascii_of_nat 92.

Definition hexdigit (n : nat) : ascii :=
  match String.get n "0123456789abcdef" with Some c => c | None => "0"%char end.

(** One byte of [strconv.Quote]: the double quote and the backslash are
    escaped, the control characters have their letter escape or [\xNN],
    a printable ASCII byte stands for itself. Bytes from 0x80 up are kept
    as they are, which is what Go does for the bytes of a printable rune;
    it escapes the others. *)
Definition quoteByte (c : ascii) : string :=
  let n := nat_of_ascii c in
  let esc (e : string) := String backslash e in
  if Ascii.eqb c dquote then esc (String dquote EmptyString)
  else if Ascii.eqb c backslash then esc (String backslash EmptyString)
  else if (n =? 7)%nat then esc "a"
  else if (n =? 8)%nat then esc "b"
  else if (n =? 12)%nat then esc "f"
  else if (n =? 10)%nat then esc "n"
  else if (n =? 13)%nat then esc "r"
  else if (n =? 9)%nat then esc "t"
  else if (n =? 11)%nat then esc "v"
  else if (n <? 32)%nat || (n =? 127)%nat then
    esc (String "x" (String (hexdigit (n / 16)) (String (hexdigit (n mod 16)) EmptyString)))
  else String c EmptyString.

Fixpoint quoteBody (s : string) : string :=
  match s with
  | EmptyString => EmptyString
  | String c r => quoteByte c +:+ quoteBody r
  end.

(** [strconv.Quote(s)], the [%q] verb of package fmt *)
Definition Quote (s : string) : string :=
  String dquote (quoteBody s +:+ String dquote EmptyString).

Inductive NumErrorKind := ErrSyntax | ErrRange.

Definition digitValue (c : ascii) : option Z :=
  let n := nat_of_ascii c in
  if (48 <=? n)%nat && (n <=? 57)%nat then Some (Z.of_nat (n - 48)) else None.

(** The digit loop of [ParseUint(s, 10, bitSize)]: [acc] is the value of
    the digits read so far; a byte that is no digit is a syntax error and
    a value above [maxVal] a range error, whichever comes first. *)
Fixpoint parseDigits (maxVal acc : Z) (s : string) : Z + NumErrorKind :=
  match s with
  | EmptyString => inl acc
  | String c r =>
      match digitValue c with
      | None => inr ErrSyntax
      | Some d =>
          let n1 := (acc * 10 + d)%Z in
          if (maxVal <? n1)%Z then inr ErrRange else parseDigits maxVal n1 r
      end
  end.

Definition ParseUint (s : string) (bitSize : Z) : Z + NumErrorKind :=
  match s with
  | EmptyString => inr ErrSyntax
  | _ => parseDigits (2 ^ bitSize - 1) 0 s
  end.

(** [strconv.ParseInt(s, 10, bitSize)] for [bitSize > 0]: an optional sign,
    then [ParseUint]; the magnitude is then checked against the signed
    range. *)
Definition ParseInt (s : string) (bitSize : Z) : Z + NumErrorKind :=
  match s with
  | EmptyString => inr ErrSyntax
  | String c r =>
      let plus := Ascii.eqb c "+"%char in
      let neg := Ascii.eqb c "-"%char in
      let digits := if plus || neg then r else s in
      match ParseUint digits bitSize with
      | inr ErrSyntax => inr ErrSyntax
      | inr ErrRange => inr ErrRange
      | inl un =>
          let cutoff := (2 ^ (bitSize - 1))%Z in
          if negb neg && (cutoff <=? un)%Z then inr ErrRange
          else if neg && (cutoff <? un)%Z then inr ErrRange
          else inl (if neg then (- un)%Z else un)
      end
  end.

(** [strconv.Atoi(s)]: [ParseInt(s, 10, 0)] on a 64-bit [int] *)
Definition Atoi (s : string) : Z + NumErrorKind := ParseInt s 64.

End strconv.

(** ** Package api: the option types

    pkg/api declares the enumerations and the option structs; the binder
    only names their constants and fields. An enumeration is an inductive
    type whose first constructor is the zero value of the Go type, a map
    field a [gmap], a slice field a [list], a pointer field an [option]. *)

Module api.

Inductive Target :=
| DefaultTarget | ESNext | ES5 | ES2015 | ES2016 | ES2017 | ES2018
| ES2019 | ES2020 | ES2021.

Inductive EngineName :=
| EngineChrome | EngineEdge | EngineFirefox | EngineIOS | EngineNode
| EngineSafari.

Record Engine := { Name : EngineName; Version : string }.

Inductive SourceMap :=
| SourceMapNone | SourceMapInline | SourceMapLinked | SourceMapExternal
| SourceMapInlineAndExternal.

Inductive SourcesContent := SourcesContentInclude | SourcesContentExclude.

Inductive LegalComments :=
| LegalCommentsDefault | LegalCommentsNone | LegalCommentsInline
| LegalCommentsEndOfFile | LegalCommentsLinked | LegalCommentsExternal.

Inductive Charset := CharsetDefault | CharsetASCII | CharsetUTF8.

Inductive TreeShaking := TreeShakingDefault | TreeShakingFalse | TreeShakingTrue.

Inductive Platform := PlatformBrowser | PlatformNode | PlatformNeutral.

Inductive Format := FormatDefault | FormatIIFE | FormatCommonJS | FormatESModule.

Inductive JSXMode := JSXModeTransform | JSXModePreserve.

Inductive StderrColor := ColorIfTerminal | ColorNever | ColorAlways.

Inductive LogLevel :=
| LogLevelSilent | LogLevelVerbose | LogLevelDebug | LogLevelInfo
| LogLevelWarning | LogLevelError.

Inductive Loader :=
| LoaderNone | LoaderJS | LoaderJSX | LoaderTS | LoaderTSX | LoaderJSON
| LoaderText | LoaderBase64 | LoaderDataURL | LoaderFile | LoaderBinary
| LoaderCSS | LoaderDefault.

Record EntryPoint := { InputPath : string; OutputPath : string }.

(** [WatchMode] holds the rebuild callback, which the binder leaves unset. *)
Inductive WatchMode := mkWatchMode.

#[global] Instance Target_eq_dec : EqDecision Target.
Proof. solve_decision. Defined.
#[global] Instance EngineName_eq_dec : EqDecision EngineName.
Proof. solve_decision. Defined.
#[global] Instance Engine_eq_dec : EqDecision Engine.
Proof. solve_decision. Defined.
#[global] Instance SourceMap_eq_dec : EqDecision SourceMap.
Proof. solve_decision. Defined.
#[global] Instance Loader_eq_dec : EqDecision Loader.
Proof. solve_decision. Defined.

End api.

Module StdinOptions.
Record t := mk {
  Contents : string;
  ResolveDir : string;
  Sourcefile : string;
  Loader : api.Loader
}.
(** [api.StdinOptions{}] *)
Definition zero : t := mk EmptyString EmptyString EmptyString api.LoaderNone.
Definition set_Sourcefile (v : string) (o : t) : t :=
  mk (Contents o) (ResolveDir o) v (Loader o).
Definition set_Loader (v : api.Loader) (o : t) : t :=
  mk (Contents o) (ResolveDir o) (Sourcefile o) v.
End StdinOptions.

(** A field setter [fun v r => mk (f1 r) .. v .. (fn r)] is read off the
    eta-expansion of the record: the projection is abstracted from it and
    replaced by the constant function. *)
Ltac field_setter eta proj :=
  let e := eval cbv delta [eta] in eta in
  match eval pattern proj in e with
  | ?F _ => let s := eval cbv beta in (fun v => F (fun _ => v)) in exact s
  end.

Module BuildOptions.
Record t := mk {
  Color : api.StderrColor;
  LogLimit : Z;
  LogLevel : api.LogLevel;
  Sourcemap : api.SourceMap;
  SourceRoot : string;
  SourcesContent : api.SourcesContent;
  Target : api.Target;
  Engines : list api.Engine;
  MinifyWhitespace : bool;
  MinifyIdentifiers : bool;
  MinifySyntax : bool;
  Charset : api.Charset;
  TreeShaking : api.TreeShaking;
  IgnoreAnnotations : bool;
  LegalComments : api.LegalComments;
  JSXMode : api.JSXMode;
  JSXFactory : string;
  JSXFragment : string;
  Define : gmap string string;
  Pure : list string;
  KeepNames : bool;
  GlobalName : string;
  Bundle : bool;
  PreserveSymlinks : bool;
  Splitting : bool;
  Outfile : string;
  Metafile : bool;
  Outdir : string;
  Outbase : string;
  Platform : api.Platform;
  Format : api.Format;
  External : list string;
  MainFields : list string;
  Conditions : list string;
  Loader : gmap string api.Loader;
  ResolveExtensions : list string;
  Tsconfig : string;
  OutExtensions : option (gmap string string);
  PublicPath : string;
  Inject : list string;
  Banner : gmap string string;
  Footer : gmap string string;
  NodePaths : list string;
  EntryNames : string;
  ChunkNames : string;
  AssetNames : string;
  EntryPoints : list string;
  EntryPointsAdvanced : list api.EntryPoint;
  Stdin : option StdinOptions.t;
  Write : bool;
  AllowOverwrite : bool;
  Watch : option api.WatchMode
}.

Definition eta (r : t) : t :=
  mk (Color r) (LogLimit r) (LogLevel r) (Sourcemap r) (SourceRoot r)
     (SourcesContent r) (Target r) (Engines r) (MinifyWhitespace r)
     (MinifyIdentifiers r) (MinifySyntax r) (Charset r) (TreeShaking r)
     (IgnoreAnnotations r) (LegalComments r) (JSXMode r) (JSXFactory r)
     (JSXFragment r) (Define r) (Pure r) (KeepNames r) (GlobalName r)
     (Bundle r) (PreserveSymlinks r) (Splitting r) (Outfile r) (Metafile r)
     (Outdir r) (Outbase r) (Platform r) (Format r) (External r)
     (MainFields r) (Conditions r) (Loader r) (ResolveExtensions r)
     (Tsconfig r) (OutExtensions r) (PublicPath r) (Inject r) (Banner r)
     (Footer r) (NodePaths r) (EntryNames r) (ChunkNames r) (AssetNames r)
     (EntryPoints r) (EntryPointsAdvanced r) (Stdin r) (Write r)
     (AllowOverwrite r) (Watch r).

Definition set_Color : api.StderrColor -> t -> t := ltac:(field_setter eta Color).
Definition set_LogLimit : Z -> t -> t := ltac:(field_setter eta LogLimit).
Definition set_LogLevel : api.LogLevel -> t -> t := ltac:(field_setter eta LogLevel).
Definition set_Sourcemap : api.SourceMap -> t -> t := ltac:(field_setter eta Sourcemap).
Definition set_SourceRoot : string -> t -> t := ltac:(field_setter eta SourceRoot).
Definition set_SourcesContent : api.SourcesContent -> t -> t := ltac:(field_setter eta SourcesContent).
Definition set_Target : api.Target -> t -> t := ltac:(field_setter eta Target).
Definition set_Engines : list api.Engine -> t -> t := ltac:(field_setter eta Engines).
Definition set_MinifyWhitespace : bool -> t -> t := ltac:(field_setter eta MinifyWhitespace).
Definition set_MinifyIdentifiers : bool -> t -> t := ltac:(field_setter eta MinifyIdentifiers).
Definition set_MinifySyntax : bool -> t -> t := ltac:(field_setter eta MinifySyntax).
Definition set_Charset : api.Charset -> t -> t := ltac:(field_setter eta Charset).
Definition set_TreeShaking : api.TreeShaking -> t -> t := ltac:(field_setter eta TreeShaking).
Definition set_IgnoreAnnotations : bool -> t -> t := ltac:(field_setter eta IgnoreAnnotations).
Definition set_LegalComments : api.LegalComments -> t -> t := ltac:(field_setter eta LegalComments).
Definition set_JSXMode : api.JSXMode -> t -> t := ltac:(field_setter eta JSXMode).
Definition set_JSXFactory : string -> t -> t := ltac:(field_setter eta JSXFactory).
Definition set_JSXFragment : string -> t -> t := ltac:(field_setter eta JSXFragment).
Definition set_Define : gmap string string -> t -> t := ltac:(field_setter eta Define).
Definition set_Pure : list string -> t -> t := ltac:(field_setter eta Pure).
Definition set_KeepNames : bool -> t -> t := ltac:(field_setter eta KeepNames).
Definition set_GlobalName : string -> t -> t := ltac:(field_setter eta GlobalName).
Definition set_Bundle : bool -> t -> t := ltac:(field_setter eta Bundle).
Definition set_PreserveSymlinks : bool -> t -> t := ltac:(field_setter eta PreserveSymlinks).
Definition set_Splitting : bool -> t -> t := ltac:(field_setter eta Splitting).
Definition set_Outfile : string -> t -> t := ltac:(field_setter eta Outfile).
Definition set_Metafile : bool -> t -> t := ltac:(field_setter eta Metafile).
Definition set_Outdir : string -> t -> t := ltac:(field_setter eta Outdir).
Definition set_Outbase : string -> t -> t := ltac:(field_setter eta Outbase).
Definition set_Platform : api.Platform -> t -> t := ltac:(field_setter eta Platform).
Definition set_Format : api.Format -> t -> t := ltac:(field_setter eta Format).
Definition set_External : list string -> t -> t := ltac:(field_setter eta External).
Definition set_MainFields : list string -> t -> t := ltac:(field_setter eta MainFields).
Definition set_Conditions : list string -> t -> t := ltac:(field_setter eta Conditions).
Definition set_Loader : gmap string api.Loader -> t -> t := ltac:(field_setter eta Loader).
Definition set_ResolveExtensions : list string -> t -> t := ltac:(field_setter eta ResolveExtensions).
Definition set_Tsconfig : string -> t -> t := ltac:(field_setter eta Tsconfig).
Definition set_OutExtensions : option (gmap string string) -> t -> t := ltac:(field_setter eta OutExtensions).
Definition set_PublicPath : string -> t -> t := ltac:(field_setter eta PublicPath).
Definition set_Inject : list string -> t -> t := ltac:(field_setter eta Inject).
Definition set_Banner : gmap string string -> t -> t := ltac:(field_setter eta Banner).
Definition set_Footer : gmap string string -> t -> t := ltac:(field_setter eta Footer).
Definition set_NodePaths : list string -> t -> t := ltac:(field_setter eta NodePaths).
Definition set_EntryNames : string -> t -> t := ltac:(field_setter eta EntryNames).
Definition set_ChunkNames : string -> t -> t := ltac:(field_setter eta ChunkNames).
Definition set_AssetNames : string -> t -> t := ltac:(field_setter eta AssetNames).
Definition set_EntryPoints : list string -> t -> t := ltac:(field_setter eta EntryPoints).
Definition set_EntryPointsAdvanced : list api.EntryPoint -> t -> t := ltac:(field_setter eta EntryPointsAdvanced).
Definition set_Stdin : option StdinOptions.t -> t -> t := ltac:(field_setter eta Stdin).
Definition set_Write : bool -> t -> t := ltac:(field_setter eta Write).
Definition set_AllowOverwrite : bool -> t -> t := ltac:(field_setter eta AllowOverwrite).
Definition set_Watch : option api.WatchMode -> t -> t := ltac:(field_setter eta Watch).

(** [api.BuildOptions{}]: every field at the zero value of its type *)
Definition zero : t :=
  mk api.ColorIfTerminal 0 api.LogLevelSilent api.SourceMapNone EmptyString
     api.SourcesContentInclude api.DefaultTarget [] false false false
     api.CharsetDefault api.TreeShakingDefault false api.LegalCommentsDefault
     api.JSXModeTransform EmptyString EmptyString ∅ [] false EmptyString
     false false false EmptyString false EmptyString EmptyString
     api.PlatformBrowser api.FormatDefault [] [] [] ∅ [] EmptyString None
     EmptyString [] ∅ ∅ [] EmptyString EmptyString EmptyString [] [] None
     false false None.
End BuildOptions.

Module TransformOptions.
Record t := mk {
  Color : api.StderrColor;
  LogLimit : Z;
  LogLevel : api.LogLevel;
  Sourcemap : api.SourceMap;
  SourceRoot : string;
  SourcesContent : api.SourcesContent;
  Target : api.Target;
  Engines : list api.Engine;
  Format : api.Format;
  GlobalName : string;
  MinifyWhitespace : bool;
  MinifyIdentifiers : bool;
  MinifySyntax : bool;
  Charset : api.Charset;
  TreeShaking : api.TreeShaking;
  IgnoreAnnotations : bool;
  LegalComments : api.LegalComments;
  JSXMode : api.JSXMode;
  JSXFactory : string;
  JSXFragment : string;
  TsconfigRaw : string;
  Footer : string;
  Banner : string;
  Define : gmap string string;
  Pure : list string;
  KeepNames : bool;
  Sourcefile : string;
  Loader : api.Loader
}.

Definition eta (r : t) : t :=
  mk (Color r) (LogLimit r) (LogLevel r) (Sourcemap r) (SourceRoot r)
     (SourcesContent r) (Target r) (Engines r) (Format r) (GlobalName r)
     (MinifyWhitespace r) (MinifyIdentifiers r) (MinifySyntax r) (Charset r)
     (TreeShaking r) (IgnoreAnnotations r) (LegalComments r) (JSXMode r)
     (JSXFactory r) (JSXFragment r) (TsconfigRaw r) (Footer r) (Banner r)
     (Define r) (Pure r) (KeepNames r) (Sourcefile r) (Loader r).

Definition set_Color : api.StderrColor -> t -> t := ltac:(field_setter eta Color).
Definition set_LogLimit : Z -> t -> t := ltac:(field_setter eta LogLimit).
Definition set_LogLevel : api.LogLevel -> t -> t := ltac:(field_setter eta LogLevel).
Definition set_Sourcemap : api.SourceMap -> t -> t := ltac:(field_setter eta Sourcemap).
Definition set_SourceRoot : string -> t -> t := ltac:(field_setter eta SourceRoot).
Definition set_SourcesContent : api.SourcesContent -> t -> t := ltac:(field_setter eta SourcesContent).
Definition set_Target : api.Target -> t -> t := ltac:(field_setter eta Target).
Definition set_Engines : list api.Engine -> t -> t := ltac:(field_setter eta Engines).
Definition set_Format : api.Format -> t -> t := ltac:(field_setter eta Format).
Definition set_GlobalName : string -> t -> t := ltac:(field_setter eta GlobalName).
Definition set_MinifyWhitespace : bool -> t -> t := ltac:(field_setter eta MinifyWhitespace).
Definition set_MinifyIdentifiers : bool -> t -> t := ltac:(field_setter eta MinifyIdentifiers).
Definition set_MinifySyntax : bool -> t -> t := ltac:(field_setter eta MinifySyntax).
Definition set_Charset : api.Charset -> t -> t := ltac:(field_setter eta Charset).
Definition set_TreeShaking : api.TreeShaking -> t -> t := ltac:(field_setter eta TreeShaking).
Definition set_IgnoreAnnotations : bool -> t -> t := ltac:(field_setter eta IgnoreAnnotations).
Definition set_LegalComments : api.LegalComments -> t -> t := ltac:(field_setter eta LegalComments).
Definition set_JSXMode : api.JSXMode -> t -> t := ltac:(field_setter eta JSXMode).
Definition set_JSXFactory : string -> t -> t := ltac:(field_setter eta JSXFactory).
Definition set_JSXFragment : string -> t -> t := ltac:(field_setter eta JSXFragment).
Definition set_TsconfigRaw : string -> t -> t := ltac:(field_setter eta TsconfigRaw).
Definition set_Footer : string -> t -> t := ltac:(field_setter eta Footer).
Definition set_Banner : string -> t -> t := ltac:(field_setter eta Banner).
Definition set_Define : gmap string string -> t -> t := ltac:(field_setter eta Define).
Definition set_Pure : list string -> t -> t := ltac:(field_setter eta Pure).
Definition set_KeepNames : bool -> t -> t := ltac:(field_setter eta KeepNames).
Definition set_Sourcefile : string -> t -> t := ltac:(field_setter eta Sourcefile).
Definition set_Loader : api.Loader -> t -> t := ltac:(field_setter eta Loader).

(** [api.TransformOptions{}] *)
Definition zero : t :=
  mk api.ColorIfTerminal 0 api.LogLevelSilent api.SourceMapNone EmptyString
     api.SourcesContentInclude api.DefaultTarget [] api.FormatDefault
     EmptyString false false false api.CharsetDefault api.TreeShakingDefault
     false api.LegalCommentsDefault api.JSXModeTransform EmptyString
     EmptyString EmptyString EmptyString EmptyString ∅ [] false EmptyString
     api.LoaderNone.
End TransformOptions.

Module ServeOptions.
(** The request callback [OnRequest] is set by [serveImpl] after the
    options are parsed and is no part of what the parser returns. *)
Record t := mk {
  Port : Z;
  Host : string;
  Servedir : string
}.
End ServeOptions.

(** A Go string literal, written with a backquote where the source has an
    escaped double quote; no message of the source holds a backquote. *)
Fixpoint lit (s : string) : string :=
  match s with
  | EmptyString => EmptyString
  | String c r =>
      String (if Ascii.eqb c (ascii_of_nat 96) then strconv.dquote else c) (lit r)
  end.

(** [%q] *)
Definition q (s : string) : string := strconv.Quote s.

(** ** Package cli_helpers *)

Module cli_helpers.
Record ErrorWithNote := MakeErrorWithNote { Text : string; Note : string }.

#[global] Instance ErrorWithNote_eq_dec : EqDecision ErrorWithNote.
Proof. solve_decision. Defined.

(** Modelled from the spec: [cli_helpers.ParseLoader] is declared in
    internal/cli_helpers, and the specification names the loader kinds of
    [--loader:.ext=kind] only through its examples. This table has the
    kinds esbuild documents. The binder below is embedded over an
    arbitrary [ParseLoader]; the table stands in for it where a theorem
    is run on concrete arguments. *)
Definition ParseLoader (text : string) : api.Loader + ErrorWithNote :=
  if String.eqb text "js" then inl api.LoaderJS
  else if String.eqb text "jsx" then inl api.LoaderJSX
  else if String.eqb text "ts" then inl api.LoaderTS
  else if String.eqb text "tsx" then inl api.LoaderTSX
  else if String.eqb text "css" then inl api.LoaderCSS
  else if String.eqb text "json" then inl api.LoaderJSON
  else if String.eqb text "text" then inl api.LoaderText
  else if String.eqb text "base64" then inl api.LoaderBase64
  else if String.eqb text "dataurl" then inl api.LoaderDataURL
  else if String.eqb text "file" then inl api.LoaderFile
  else if String.eqb text "binary" then inl api.LoaderBinary
  else if String.eqb text "default" then inl api.LoaderDefault
  else inr (MakeErrorWithNote
         ("Invalid loader value: " +:+ q text)
         (lit "Valid values are `js`, `jsx`, `ts`, `tsx`, `css`, `json`, `text`, `base64`, `dataurl`, `file`, or `binary`.")).
End cli_helpers.

Import cli_helpers.

(** ** Package net *)

Module net.

Record AddrError := mkAddrError { Err : string; Addr : string }.

Definition missingPort : string := "missing port in address".
Definition tooManyColons : string := "too many colons in address".

Definition addrErr (addr why : string) : (string * string) + AddrError :=
  inr (mkAddrError why addr).

Definition hasByte (s : string) (c : ascii) : bool :=
  match strings.IndexByte s c with Some _ => true | None => false end.

(** [net.SplitHostPort(hostport)]: the port starts after the last colon;
    a host in square brackets may hold colons. *)
Definition SplitHostPort (hostport : string) : (string * string) + AddrError :=
  match strings.LastIndexByte hostport ":" with
  | None => addrErr hostport missingPort
  | Some i =>
      let finish (host : string) (j k : nat) :=
        if hasByte (strings.sliceFrom j hostport) "[" then
          addrErr hostport "unexpected '[' in address"
        else if hasByte (strings.sliceFrom k hostport) "]" then
          addrErr hostport "unexpected ']' in address"
        else inl (host, strings.sliceFrom (i + 1) hostport) in
      if Ascii.eqb (strings.byteAt hostport 0) "[" then
        match strings.IndexByte hostport "]" with
        | None => addrErr hostport "missing ']' in address"
        | Some e =>
            if (e + 1 =? strings.len hostport)%nat then addrErr hostport missingPort
            else if (e + 1 =? i)%nat then
              finish (strings.sliceTo (e - 1) (strings.sliceFrom 1 hostport)) 1%nat (e + 1)%nat
            else if Ascii.eqb (strings.byteAt hostport (e + 1)) ":" then
              addrErr hostport tooManyColons
            else addrErr hostport missingPort
        end
      else
        let host := strings.sliceTo i hostport in
        if hasByte host ":" then addrErr hostport tooManyColons
        else finish host 0%nat 0%nat
  end.

End net.

(** ** pkg/cli/cli_impl.go *)

(** [map[string]bool] tables hold [true] for each listed key; a lookup of a
    missing key yields [false]. *)
Definition lookupBool (table : list string) (key : string) : bool :=
  existsb (String.eqb key) table.

(** [s[i:j]] *)
Definition slice (i j : nat) (s : string) : string :=
  strings.sliceTo (j - i) (strings.sliceFrom i s).

Definition newBuildOptions : BuildOptions.t :=
  BuildOptions.set_Loader ∅
    (BuildOptions.set_Define ∅
      (BuildOptions.set_Banner ∅
        (BuildOptions.set_Footer ∅ BuildOptions.zero))).

Definition newTransformOptions : TransformOptions.t :=
  TransformOptions.set_Define ∅ TransformOptions.zero.

Inductive parseOptionsKind := kindInternal | kindExternal.

Definition isInternal (k : parseOptionsKind) : bool :=
  match k with kindInternal => true | kindExternal => false end.

Definition isExternal (k : parseOptionsKind) : bool :=
  match k with kindInternal => false | kindExternal => true end.

Definition splitWithEmptyCheck (s : string) (sep : ascii) : list string :=
  match s with
  | EmptyString => []
  | _ => strings.Split s sep
  end.

(** *** parseTargets *)

Definition validTargets : list (string * api.Target) :=
  [ ("esnext", api.ESNext);
    ("es5", api.ES5);
    ("es6", api.ES2015);
    ("es2015", api.ES2015);
    ("es2016", api.ES2016);
    ("es2017", api.ES2017);
    ("es2018", api.ES2018);
    ("es2019", api.ES2019);
    ("es2020", api.ES2020);
    ("es2021", api.ES2021) ].

Definition validEngines : list (string * api.EngineName) :=
  [ ("chrome", api.EngineChrome);
    ("firefox", api.EngineFirefox);
    ("safari", api.EngineSafari);
    ("edge", api.EngineEdge);
    ("node", api.EngineNode);
    ("ios", api.EngineIOS) ].

(** [m[key]] with its [ok] flag, for a table written as a list of distinct
    keys *)
Fixpoint mapLookup {A : Type} (m : list (string * A)) (key : string) : option A :=
  match m with
  | [] => None
  | (k, v) :: rest => if String.eqb key k then Some v else mapLookup rest key
  end.

(** What one round of the loop over the target tokens does *)
Inductive EngineMatch :=
| NoEngine
| MissingVersion
| FoundEngine (e : api.Engine).

(** The inner loop [for engine, name := range validEngines]. Go visits the
    entries of a map in an order of its own choosing: [order] is the order
    of this visit. The first entry whose key is a prefix of [value] ends the
    loop. *)
Fixpoint engineLoop (order : list (string * api.EngineName)) (value : string) : EngineMatch :=
  match order with
  | [] => NoEngine
  | (engine, name) :: rest =>
      if strings.HasPrefix value engine then
        let version := strings.sliceFrom (strings.len engine) value in
        if String.eqb version EmptyString then MissingVersion
        else FoundEngine {| api.Name := name; api.Version := version |}
      else engineLoop rest value
  end.

(** The note of an invalid target: the quoted forms are collected in the
    order of a visit of [validEngines] behind [esN], and then sorted by
    [sort.Strings], which orders strings byte by byte. *)
Definition validForms (order : list (string * api.EngineName)) : list string :=
  merge_sort String.le (q "esN" :: map (fun kv => q (fst kv +:+ "N")) order).

Definition invalidTargetNote (order : list (string * api.EngineName)) : string :=
  let engines := validForms order in
  "Valid values are " +:+ strings.Join (removelast engines) ", " +:+ ", or "
    +:+ List.last engines EmptyString +:+ " where N is a version number.".

(** The loop over the tokens, with the named results [target] and [engines]
    as accumulators; an error returns the zero target and a nil slice. *)
Fixpoint parseTargetsLoop (targets : list string) (arg : string)
    (target : api.Target) (engines : list api.Engine)
    : api.Target * list api.Engine * option ErrorWithNote :=
  match targets with
  | [] => (target, engines, None)
  | value :: rest =>
      match mapLookup validTargets (strings.ToLower value) with
      | Some valid => parseTargetsLoop rest arg valid engines
      | None =>
          match engineLoop validEngines value with
          | MissingVersion =>
              (api.DefaultTarget, [],
               Some (MakeErrorWithNote
                 ("Target " +:+ q value +:+ " is missing a version number in " +:+ q arg)
                 EmptyString))
          | FoundEngine e => parseTargetsLoop rest arg target (engines ++ [e])
          | NoEngine =>
              (api.DefaultTarget, [],
               Some (MakeErrorWithNote
                 ("Invalid target " +:+ q value +:+ " in " +:+ q arg)
                 (invalidTargetNote validEngines)))
          end
      end
  end.

Definition parseTargets (targets : list string) (arg : string)
    : api.Target * list api.Engine * option ErrorWithNote :=
  parseTargetsLoop targets arg api.DefaultTarget [].

(** *** parseOptionsImpl *)

(** The variables of [parseOptionsImpl] that live across the loop: the two
    option structs behind the pointers [buildOpts] and [transformOpts]
    ([None] for a nil pointer), the flag [hasBareSourceMapFlag] and the
    named result [metafile]. *)
Record State := mkState {
  buildOpts : option BuildOptions.t;
  transformOpts : option TransformOptions.t;
  hasBareSourceMapFlag : bool;
  metafile : option string
}.

Definition set_buildOpts (v : option BuildOptions.t) (st : State) : State :=
  mkState v (transformOpts st) (hasBareSourceMapFlag st) (metafile st).
Definition set_transformOpts (v : option TransformOptions.t) (st : State) : State :=
  mkState (buildOpts st) v (hasBareSourceMapFlag st) (metafile st).
Definition set_hasBareSourceMapFlag (v : bool) (st : State) : State :=
  mkState (buildOpts st) (transformOpts st) v (metafile st).
Definition set_metafile (v : option string) (st : State) : State :=
  mkState (buildOpts st) (transformOpts st) (hasBareSourceMapFlag st) v.

(** What one round of the loop over the arguments does: go on with the next
    argument, return an error, or stop the program by dereferencing a nil
    pointer. *)
Inductive Outcome :=
| Continue (st : State)
| Return (err : ErrorWithNote)
| Panic.

(** [buildOpts != nil] and [transformOpts != nil] *)
Definition hasBuild (st : State) : bool :=
  match buildOpts st with Some _ => true | None => false end.
Definition hasTransform (st : State) : bool :=
  match transformOpts st with Some _ => true | None => false end.

(** A write through [buildOpts] *)
Definition onBuild (f : BuildOptions.t -> BuildOptions.t) (st : State) : Outcome :=
  match buildOpts st with
  | Some b => Continue (set_buildOpts (Some (f b)) st)
  | None => Panic
  end.

(** A write through [transformOpts] *)
Definition onTransform (g : TransformOptions.t -> TransformOptions.t) (st : State) : Outcome :=
  match transformOpts st with
  | Some t => Continue (set_transformOpts (Some (g t)) st)
  | None => Panic
  end.

(** [if buildOpts != nil { f } else { g }] *)
Definition onEither (f : BuildOptions.t -> BuildOptions.t)
    (g : TransformOptions.t -> TransformOptions.t) (st : State) : Outcome :=
  if hasBuild st then onBuild f st else onTransform g st.

Definition andThen (o : Outcome) (k : State -> State) : Outcome :=
  match o with
  | Continue st => Continue (k st)
  | Return e => Return e
  | Panic => Panic
  end.

(** [if buildOpts.Stdin == nil { buildOpts.Stdin = &api.StdinOptions{} }]
    followed by a write to a field of [buildOpts.Stdin] *)
Definition onStdin (f : StdinOptions.t -> StdinOptions.t) (b : BuildOptions.t) : BuildOptions.t :=
  BuildOptions.set_Stdin
    (Some (f (match BuildOptions.Stdin b with
              | Some s => s
              | None => StdinOptions.zero
              end))) b.

(** [m[key] = value] on a map that is made on its first use *)
Definition insertMade (key value : string) (m : option (gmap string string))
    : option (gmap string string) :=
  Some (<[key := value]> (match m with Some m' => m' | None => ∅ end)).

Definition invalidValue (value arg note : string) : Outcome :=
  Return (MakeErrorWithNote ("Invalid value " +:+ q value +:+ " in " +:+ q arg) note).

Definition missingEquals (arg note : string) : Outcome :=
  Return (MakeErrorWithNote ("Missing " +:+ lit "`=`" +:+ " in " +:+ q arg) note).

(** The three tables of the default case *)
Definition bare : list string :=
  [ "allow-overwrite"; "bundle"; "ignore-annotations"; "keep-names";
    "metafile"; "minify-identifiers"; "minify-syntax"; "minify-whitespace";
    "minify"; "preserve-symlinks"; "sourcemap"; "splitting"; "watch" ].

Definition equals : list string :=
  [ "legal-comments"; "charset"; "tree-shaking"; "sourcemap"; "source-root";
    "sources-content"; "sourcefile"; "resolve-extensions"; "main-fields";
    "conditions"; "public-path"; "global-name"; "outfile"; "outdir";
    "outbase"; "tsconfig"; "tsconfig-raw"; "entry-names"; "chunk-names";
    "asset-names"; "loader"; "target"; "platform"; "format"; "jsx";
    "jsx-factory"; "jsx-fragment"; "banner"; "footer"; "log-limit"; "color";
    "log-level" ].

Definition colon : list string :=
  [ "define"; "pure"; "loader"; "out-extension"; "external"; "inject";
    "banner"; "footer" ].

(** The note of the default case for an argument that starts with two
    dashes: the second test overwrites the note of the first. *)
Definition twoDashNote (arg : string) : string :=
  let note :=
    match strings.IndexByte arg "=" with
    | Some i =>
        if lookupBool colon (slice 2 i arg) then
          "Use " +:+ q (strings.sliceTo i arg +:+ ":" +:+ strings.sliceFrom (i + 1) arg)
            +:+ " instead of " +:+ q arg
            +:+ lit ". Flags that can be re-specified multiple times use `:` instead of `=`."
        else EmptyString
    | None => EmptyString
    end in
  match strings.IndexByte arg ":" with
  | Some i =>
      if lookupBool equals (slice 2 i arg) then
        "Use " +:+ q (strings.sliceTo i arg +:+ "=" +:+ strings.sliceFrom (i + 1) arg)
          +:+ " instead of " +:+ q arg
          +:+ lit ". Flags that can only be specified once use `=` instead of `:`."
      else note
  | None => note
  end.

(** The pair [(isValid, fix)] of the default case for an argument that
    starts with one dash *)
Definition oneDashFix (arg : string) : bool * string :=
  let isValid := lookupBool bare (strings.sliceFrom 1 arg) in
  let fix_ := "-" +:+ arg in
  let byColon :=
    match strings.IndexByte arg ":" with
    | Some i =>
        if lookupBool colon (slice 1 i arg) then (true, fix_)
        else if lookupBool equals (slice 1 i arg) then
          (true, "-" +:+ strings.sliceTo i arg +:+ "=" +:+ strings.sliceFrom (i + 1) arg)
        else (isValid, fix_)
    | None => (isValid, fix_)
    end in
  match strings.IndexByte arg "=" with
  | Some i =>
      if lookupBool equals (slice 1 i arg) then (true, fix_)
      else if lookupBool colon (slice 1 i arg) then
        (true, "-" +:+ strings.sliceTo i arg +:+ ":" +:+ strings.sliceFrom (i + 1) arg)
      else byColon
  | None => byColon
  end.

Definition oneDashNote (arg : string) : string :=
  let '(isValid, fix_) := oneDashFix arg in
  if isValid then
    "Use " +:+ q fix_ +:+ " instead of " +:+ q arg
      +:+ ". Flags are always specified with two dashes instead of one dash."
  else EmptyString.

(** The note of the default case *)
Definition defaultNote (arg : string) : string :=
  if String.eqb arg "-o" then
    lit "Use `--outfile=` to configure the output file instead of `-o`."
  else if String.eqb arg "-v" then
    lit "Use `--log-level=verbose` to generate verbose logs instead of `-v`."
  else if strings.HasPrefix arg "--" then twoDashNote arg
  else if strings.HasPrefix arg "-" then oneDashNote arg
  else EmptyString.

(** The default case *)
Definition invalidFlag (st : State) (arg : string) : Outcome :=
  if hasBuild st then
    Return (MakeErrorWithNote ("Invalid build flag: " +:+ q arg) (defaultNote arg))
  else
    Return (MakeErrorWithNote ("Invalid transform flag: " +:+ q arg) (defaultNote arg)).

(** [arg[len(prefix):]] *)
Definition after (prefix arg : string) : string :=
  strings.sliceFrom (strings.len prefix) arg.

Section Binder.

(** [cli_helpers.ParseLoader] is declared in internal/cli_helpers; the
    binder is embedded over whatever that function computes. *)
Variable ParseLoader : string -> api.Loader + ErrorWithNote.

(** A [--name:key=value] flag: the value is split at its first [=]. *)
Definition keyValue (prefix arg note : string)
    (store : string -> string -> State -> Outcome) (st : State) : Outcome :=
  let value := after prefix arg in
  match strings.IndexByte value "=" with
  | None => missingEquals arg note
  | Some equals => store (strings.sliceTo equals value) (strings.sliceFrom (equals + 1) value) st
  end.

(** The body of the loop of [parseOptionsImpl]: the [switch] on [arg],
    case by case in the order of the source. *)
Definition step (kind : parseOptionsKind) (st : State) (arg : string) : Outcome :=
  if String.eqb arg "--bundle" && hasBuild st then
    onBuild (BuildOptions.set_Bundle true) st
  else if String.eqb arg "--preserve-symlinks" && hasBuild st then
    onBuild (BuildOptions.set_PreserveSymlinks true) st
  else if String.eqb arg "--splitting" && hasBuild st then
    onBuild (BuildOptions.set_Splitting true) st
  else if String.eqb arg "--allow-overwrite" && hasBuild st then
    onBuild (BuildOptions.set_AllowOverwrite true) st
  else if String.eqb arg "--watch" && hasBuild st then
    onBuild (BuildOptions.set_Watch (Some api.mkWatchMode)) st
  else if String.eqb arg "--minify" then
    onEither
      (fun b => BuildOptions.set_MinifyIdentifiers true
                  (BuildOptions.set_MinifyWhitespace true
                    (BuildOptions.set_MinifySyntax true b)))
      (fun t => TransformOptions.set_MinifyIdentifiers true
                  (TransformOptions.set_MinifyWhitespace true
                    (TransformOptions.set_MinifySyntax true t))) st
  else if String.eqb arg "--minify-syntax" then
    onEither (BuildOptions.set_MinifySyntax true) (TransformOptions.set_MinifySyntax true) st
  else if String.eqb arg "--minify-whitespace" then
    onEither (BuildOptions.set_MinifyWhitespace true) (TransformOptions.set_MinifyWhitespace true) st
  else if String.eqb arg "--minify-identifiers" then
    onEither (BuildOptions.set_MinifyIdentifiers true) (TransformOptions.set_MinifyIdentifiers true) st
  else if strings.HasPrefix arg "--legal-comments=" then
    let value := after "--legal-comments=" arg in
    let assign legalComments :=
      onEither (BuildOptions.set_LegalComments legalComments)
               (TransformOptions.set_LegalComments legalComments) st in
    if String.eqb value "none" then assign api.LegalCommentsNone
    else if String.eqb value "inline" then assign api.LegalCommentsInline
    else if String.eqb value "eof" then assign api.LegalCommentsEndOfFile
    else if String.eqb value "linked" then assign api.LegalCommentsLinked
    else if String.eqb value "external" then assign api.LegalCommentsExternal
    else invalidValue value arg
           (lit "Valid values are `none`, `inline`, `eof`, `linked`, or `external`.")
  else if strings.HasPrefix arg "--charset=" then
    (* the address of the field is taken before the value is looked at *)
    if negb (hasBuild st) && negb (hasTransform st) then Panic
    else
      let name := after "--charset=" arg in
      let assign charset :=
        onEither (BuildOptions.set_Charset charset) (TransformOptions.set_Charset charset) st in
      if String.eqb name "ascii" then assign api.CharsetASCII
      else if String.eqb name "utf8" then assign api.CharsetUTF8
      else invalidValue name arg (lit "Valid values are `ascii` or `utf8`.")
  else if strings.HasPrefix arg "--tree-shaking=" then
    if negb (hasBuild st) && negb (hasTransform st) then Panic
    else
      let name := after "--tree-shaking=" arg in
      let assign treeShaking :=
        onEither (BuildOptions.set_TreeShaking treeShaking)
                 (TransformOptions.set_TreeShaking treeShaking) st in
      if String.eqb name "false" then assign api.TreeShakingFalse
      else if String.eqb name "true" then assign api.TreeShakingTrue
      else invalidValue name arg (lit "Valid values are `true` or `false`.")
  else if String.eqb arg "--ignore-annotations" then
    onEither (BuildOptions.set_IgnoreAnnotations true) (TransformOptions.set_IgnoreAnnotations true) st
  else if String.eqb arg "--keep-names" then
    onEither (BuildOptions.set_KeepNames true) (TransformOptions.set_KeepNames true) st
  else if String.eqb arg "--sourcemap" then
    andThen
      (onEither (BuildOptions.set_Sourcemap api.SourceMapLinked)
                (TransformOptions.set_Sourcemap api.SourceMapInline) st)
      (set_hasBareSourceMapFlag true)
  else if strings.HasPrefix arg "--sourcemap=" then
    let value := after "--sourcemap=" arg in
    let assign sourcemap :=
      andThen
        (onEither (BuildOptions.set_Sourcemap sourcemap)
                  (TransformOptions.set_Sourcemap sourcemap) st)
        (set_hasBareSourceMapFlag false) in
    if String.eqb value "inline" then assign api.SourceMapInline
    else if String.eqb value "external" then assign api.SourceMapExternal
    else if String.eqb value "both" then assign api.SourceMapInlineAndExternal
    else invalidValue value arg (lit "Valid values are `inline`, `external`, or `both`.")
  else if strings.HasPrefix arg "--source-root=" then
    let sourceRoot := after "--source-root=" arg in
    onEither (BuildOptions.set_SourceRoot sourceRoot) (TransformOptions.set_SourceRoot sourceRoot) st
  else if strings.HasPrefix arg "--sources-content=" then
    let value := after "--sources-content=" arg in
    let assign sourcesContent :=
      onEither (BuildOptions.set_SourcesContent sourcesContent)
               (TransformOptions.set_SourcesContent sourcesContent) st in
    if String.eqb value "false" then assign api.SourcesContentExclude
    else if String.eqb value "true" then assign api.SourcesContentInclude
    else invalidValue value arg (lit "Valid values are `true` or `false`.")
  else if strings.HasPrefix arg "--sourcefile=" then
    onEither (onStdin (StdinOptions.set_Sourcefile (after "--sourcefile=" arg)))
             (TransformOptions.set_Sourcefile (after "--sourcefile=" arg)) st
  else if strings.HasPrefix arg "--resolve-extensions=" && hasBuild st then
    onBuild (BuildOptions.set_ResolveExtensions
               (splitWithEmptyCheck (after "--resolve-extensions=" arg) ",")) st
  else if strings.HasPrefix arg "--main-fields=" && hasBuild st then
    onBuild (BuildOptions.set_MainFields
               (splitWithEmptyCheck (after "--main-fields=" arg) ",")) st
  else if strings.HasPrefix arg "--conditions=" && hasBuild st then
    onBuild (BuildOptions.set_Conditions
               (splitWithEmptyCheck (after "--conditions=" arg) ",")) st
  else if strings.HasPrefix arg "--public-path=" && hasBuild st then
    onBuild (BuildOptions.set_PublicPath (after "--public-path=" arg)) st
  else if strings.HasPrefix arg "--global-name=" then
    onEither (BuildOptions.set_GlobalName (after "--global-name=" arg))
             (TransformOptions.set_GlobalName (after "--global-name=" arg)) st
  else if String.eqb arg "--metafile" && hasBuild st && isExternal kind then
    onBuild (BuildOptions.set_Metafile true) st
  else if strings.HasPrefix arg "--metafile=" && hasBuild st && isInternal kind then
    let metafilePath := after "--metafile=" arg in
    andThen (onBuild (BuildOptions.set_Metafile true) st)
            (set_metafile (Some metafilePath))
  else if strings.HasPrefix arg "--outfile=" && hasBuild st then
    onBuild (BuildOptions.set_Outfile (after "--outfile=" arg)) st
  else if strings.HasPrefix arg "--outdir=" && hasBuild st then
    onBuild (BuildOptions.set_Outdir (after "--outdir=" arg)) st
  else if strings.HasPrefix arg "--outbase=" && hasBuild st then
    onBuild (BuildOptions.set_Outbase (after "--outbase=" arg)) st
  else if strings.HasPrefix arg "--tsconfig=" && hasBuild st then
    onBuild (BuildOptions.set_Tsconfig (after "--tsconfig=" arg)) st
  else if strings.HasPrefix arg "--tsconfig-raw=" && hasTransform st then
    onTransform (TransformOptions.set_TsconfigRaw (after "--tsconfig-raw=" arg)) st
  else if strings.HasPrefix arg "--entry-names=" && hasBuild st then
    onBuild (BuildOptions.set_EntryNames (after "--entry-names=" arg)) st
  else if strings.HasPrefix arg "--chunk-names=" && hasBuild st then
    onBuild (BuildOptions.set_ChunkNames (after "--chunk-names=" arg)) st
  else if strings.HasPrefix arg "--asset-names=" && hasBuild st then
    onBuild (BuildOptions.set_AssetNames (after "--asset-names=" arg)) st
  else if strings.HasPrefix arg "--define:" then
    keyValue "--define:" arg
      (lit ("You need to use `=` to specify both the original value and the replacement value. "
            +:+ "For example, `--define:DEBUG=true` replaces `DEBUG` with `true`."))
      (fun key value =>
         onEither (fun b => BuildOptions.set_Define (<[key := value]> (BuildOptions.Define b)) b)
                  (fun t => TransformOptions.set_Define (<[key := value]> (TransformOptions.Define t)) t))
      st
  else if strings.HasPrefix arg "--pure:" then
    let value := after "--pure:" arg in
    onEither (fun b => BuildOptions.set_Pure (BuildOptions.Pure b ++ [value]) b)
             (fun t => TransformOptions.set_Pure (TransformOptions.Pure t ++ [value]) t) st
  else if strings.HasPrefix arg "--loader:" && hasBuild st then
    keyValue "--loader:" arg
      (lit ("You need to specify the file extension that the loader applies to. "
            +:+ "For example, `--loader:.js=jsx` applies the `jsx` loader to files with the `.js` extension."))
      (fun ext text st' =>
         match ParseLoader text with
         | inr err => Return err
         | inl loader =>
             onBuild (fun b => BuildOptions.set_Loader (<[ext := loader]> (BuildOptions.Loader b)) b) st'
         end)
      st
  else if strings.HasPrefix arg "--loader=" then
    let value := after "--loader=" arg in
    match ParseLoader value with
    | inr err => Return err
    | inl loader =>
        if bool_decide (loader = api.LoaderFile) then
          Return (MakeErrorWithNote
            (q arg +:+ " is not supported when transforming stdin")
            (lit ("Using esbuild to transform stdin only generates one output file, so you cannot use the `file` loader "
                  +:+ "since that needs to generate two output files.")))
        else
          onEither (onStdin (StdinOptions.set_Loader loader))
                   (TransformOptions.set_Loader loader) st
    end
  else if strings.HasPrefix arg "--target=" then
    match parseTargets (splitWithEmptyCheck (after "--target=" arg) ",") arg with
    | (_, _, Some err) => Return err
    | (target, engines, None) =>
        onEither (fun b => BuildOptions.set_Engines engines (BuildOptions.set_Target target b))
                 (fun t => TransformOptions.set_Engines engines (TransformOptions.set_Target target t)) st
    end
  else if strings.HasPrefix arg "--out-extension:" && hasBuild st then
    keyValue "--out-extension:" arg
      (lit ("You need to use either `--out-extension:.js=...` or `--out-extension:.css=...` "
            +:+ "to specify the file type that the output extension applies to ."))
      (fun key value =>
         onBuild (fun b => BuildOptions.set_OutExtensions
                             (insertMade key value (BuildOptions.OutExtensions b)) b))
      st
  else if strings.HasPrefix arg "--platform=" && hasBuild st then
    let value := after "--platform=" arg in
    if String.eqb value "browser" then onBuild (BuildOptions.set_Platform api.PlatformBrowser) st
    else if String.eqb value "node" then onBuild (BuildOptions.set_Platform api.PlatformNode) st
    else if String.eqb value "neutral" then onBuild (BuildOptions.set_Platform api.PlatformNeutral) st
    else invalidValue value arg (lit "Valid values are `browser`, `node`, or `neutral`.")
  else if strings.HasPrefix arg "--format=" then
    let value := after "--format=" arg in
    let assign format :=
      onEither (BuildOptions.set_Format format) (TransformOptions.set_Format format) st in
    if String.eqb value "iife" then assign api.FormatIIFE
    else if String.eqb value "cjs" then assign api.FormatCommonJS
    else if String.eqb value "esm" then assign api.FormatESModule
    else invalidValue value arg (lit "Valid values are `iife`, `cjs`, or `esm`.")
  else if strings.HasPrefix arg "--external:" && hasBuild st then
    onBuild (fun b => BuildOptions.set_External
                        (BuildOptions.External b ++ [after "--external:" arg]) b) st
  else if strings.HasPrefix arg "--inject:" && hasBuild st then
    onBuild (fun b => BuildOptions.set_Inject
                        (BuildOptions.Inject b ++ [after "--inject:" arg]) b) st
  else if strings.HasPrefix arg "--jsx=" then
    let value := after "--jsx=" arg in
    let assign mode :=
      onEither (BuildOptions.set_JSXMode mode) (TransformOptions.set_JSXMode mode) st in
    if String.eqb value "transform" then assign api.JSXModeTransform
    else if String.eqb value "preserve" then assign api.JSXModePreserve
    else invalidValue value arg (lit "Valid values are `transform` or `preserve`.")
  else if strings.HasPrefix arg "--jsx-factory=" then
    let value := after "--jsx-factory=" arg in
    onEither (BuildOptions.set_JSXFactory value) (TransformOptions.set_JSXFactory value) st
  else if strings.HasPrefix arg "--jsx-fragment=" then
    let value := after "--jsx-fragment=" arg in
    onEither (BuildOptions.set_JSXFragment value) (TransformOptions.set_JSXFragment value) st
  else if strings.HasPrefix arg "--banner=" && hasTransform st then
    onTransform (TransformOptions.set_Banner (after "--banner=" arg)) st
  else if strings.HasPrefix arg "--footer=" && hasTransform st then
    onTransform (TransformOptions.set_Footer (after "--footer=" arg)) st
  else if strings.HasPrefix arg "--banner:" && hasBuild st then
    keyValue "--banner:" arg
      (lit "You need to use either `--banner:js=...` or `--banner:css=...` to specify the language that the banner applies to.")
      (fun key value =>
         onBuild (fun b => BuildOptions.set_Banner (<[key := value]> (BuildOptions.Banner b)) b))
      st
  else if strings.HasPrefix arg "--footer:" && hasBuild st then
    keyValue "--footer:" arg
      (lit "You need to use either `--footer:js=...` or `--footer:css=...` to specify the language that the footer applies to.")
      (fun key value =>
         onBuild (fun b => BuildOptions.set_Footer (<[key := value]> (BuildOptions.Footer b)) b))
      st
  else if strings.HasPrefix arg "--log-limit=" then
    let value := after "--log-limit=" arg in
    match strconv.Atoi value with
    | inr _ => invalidValue value arg "The log limit must be a non-negative integer."
    | inl limit =>
        if (limit <? 0)%Z then
          invalidValue value arg "The log limit must be a non-negative integer."
        else onEither (BuildOptions.set_LogLimit limit) (TransformOptions.set_LogLimit limit) st
    end
  else if strings.HasPrefix arg "--color=" then
    let value := after "--color=" arg in
    let assign color :=
      onEither (BuildOptions.set_Color color) (TransformOptions.set_Color color) st in
    if String.eqb value "false" then assign api.ColorNever
    else if String.eqb value "true" then assign api.ColorAlways
    else invalidValue value arg (lit "Valid values are `true` or `false`.")
  else if strings.HasPrefix arg "--log-level=" then
    let value := after "--log-level=" arg in
    let assign logLevel :=
      onEither (BuildOptions.set_LogLevel logLevel) (TransformOptions.set_LogLevel logLevel) st in
    if String.eqb value "verbose" then assign api.LogLevelVerbose
    else if String.eqb value "debug" then assign api.LogLevelDebug
    else if String.eqb value "info" then assign api.LogLevelInfo
    else if String.eqb value "warning" then assign api.LogLevelWarning
    else if String.eqb value "error" then assign api.LogLevelError
    else if String.eqb value "silent" then assign api.LogLevelSilent
    else invalidValue value arg
           (lit "Valid values are `verbose`, `debug`, `info`, `warning`, `error`, or `silent`.")
  else if strings.HasPrefix arg "'--" then
    Return (MakeErrorWithNote
      ("Unexpected single quote character before flag: " +:+ arg)
      ("This typically happens when attempting to use single quotes to quote arguments with a shell that doesn't recognize single quotes. "
       +:+ "Try using double quote characters to quote arguments instead."))
  else if negb (strings.HasPrefix arg "-") && hasBuild st then
    match strings.IndexByte arg "=" with
    | Some equals =>
        onBuild (fun b => BuildOptions.set_EntryPointsAdvanced
                            (BuildOptions.EntryPointsAdvanced b ++
                               [{| api.OutputPath := strings.sliceTo equals arg;
                                   api.InputPath := strings.sliceFrom (equals + 1) arg |}]) b) st
    | None =>
        onBuild (fun b => BuildOptions.set_EntryPoints (BuildOptions.EntryPoints b ++ [arg]) b) st
    end
  else invalidFlag st arg.

(** How a call of [parseOptionsImpl] ends. [Done st]: it returns a nil
    error, and [st] holds the metafile path it returns and the option
    structs as it leaves them. [Failed st err]: it returns [err] and a nil
    metafile path, and [st] holds the option structs as the arguments
    before the failing one have left them. [Panicked]: a nil pointer was
    dereferenced. *)
Inductive Result :=
| Done (st : State)
| Failed (st : State) (err : ErrorWithNote)
| Panicked.

(** [for _, arg := range osArgs] *)
Fixpoint loop (kind : parseOptionsKind) (st : State) (osArgs : list string) : Result :=
  match osArgs with
  | [] => Done st
  | arg :: rest =>
      match step kind st arg with
      | Continue st' => loop kind st' rest
      | Return err => Failed st err
      | Panic => Panicked
      end
  end.

(** The rule applied after the loop: a build whose last source map flag
    is the bare one and that has no output path has an inline map. *)
Definition reconcile (st : State) : State :=
  match buildOpts st with
  | Some b =>
      if hasBareSourceMapFlag st
         && String.eqb (BuildOptions.Outfile b) EmptyString
         && String.eqb (BuildOptions.Outdir b) EmptyString
      then set_buildOpts (Some (BuildOptions.set_Sourcemap api.SourceMapInline b)) st
      else st
  | None => st
  end.

Definition parseOptionsImpl (osArgs : list string)
    (buildOpts : option BuildOptions.t) (transformOpts : option TransformOptions.t)
    (kind : parseOptionsKind) : Result :=
  match loop kind (mkState buildOpts transformOpts false None) osArgs with
  | Done st => Done (reconcile st)
  | Failed st err => Failed st err
  | Panicked => Panicked
  end.

End Binder.

(** *** parseOptionsForRun *)

(** The four results of [parseOptionsForRun] *)
Record RunResult := mkRunResult {
  runBuild : option BuildOptions.t;
  runMetafile : option string;
  runTransform : option TransformOptions.t;
  runErr : option ErrorWithNote
}.

Section Run.

Variable ParseLoader : string -> api.Loader + ErrorWithNote.

(** The body of the [if] inside the first loop: the arguments are parsed
    into build options. [None] stands for a run-time panic. *)
Definition runAsBuild (osArgs : list string) : option RunResult :=
  let options :=
    BuildOptions.set_Write true
      (BuildOptions.set_LogLevel api.LogLevelInfo
        (BuildOptions.set_LogLimit 6 newBuildOptions)) in
  match parseOptionsImpl ParseLoader osArgs (Some options) None kindInternal with
  | Failed _ err => Some (mkRunResult None None None (Some err))
  | Done st => Some (mkRunResult (buildOpts st) (metafile st) None None)
  | Panicked => None
  end.

Definition sourceMapMode (m : api.SourceMap) : string :=
  match m with
  | api.SourceMapExternal => "external"
  | api.SourceMapInlineAndExternal => "both"
  | api.SourceMapLinked => "linked"
  | _ => EmptyString
  end.

(** The code behind the first loop: the arguments are parsed into
    transform options. *)
Definition runAsTransform (osArgs : list string) : option RunResult :=
  let options :=
    TransformOptions.set_LogLevel api.LogLevelInfo
      (TransformOptions.set_LogLimit 6 newTransformOptions) in
  match parseOptionsImpl ParseLoader osArgs None (Some options) kindInternal with
  | Failed _ err => Some (mkRunResult None None None (Some err))
  | Panicked => None
  | Done st =>
      match transformOpts st with
      | None => None
      | Some options =>
          let sm := TransformOptions.Sourcemap options in
          if negb (bool_decide (sm = api.SourceMapNone))
             && negb (bool_decide (sm = api.SourceMapInline)) then
            Some (mkRunResult None None None
              (Some (MakeErrorWithNote
                (lit "Use `--sourcemap` instead of `--sourcemap=" +:+ sourceMapMode sm
                   +:+ lit "` when transforming stdin")
                ("Using esbuild to transform stdin only generates one output file, so you cannot use the "
                   +:+ q (sourceMapMode sm) +:+ " source map mode "
                   +:+ "since that needs to generate two output files."))))
          else Some (mkRunResult None None (Some options) None)
      end
  end.

(** [!strings.HasPrefix(arg, "-") || arg == "--bundle"] *)
Definition selectsBuild (arg : string) : bool :=
  negb (strings.HasPrefix arg "-") || String.eqb arg "--bundle".

(** The first loop of [parseOptionsForRun] over what is left of the
    arguments; [osArgs] is the whole list. *)
Fixpoint scanForBuild (rest osArgs : list string) : option RunResult :=
  match rest with
  | [] => runAsTransform osArgs
  | arg :: rest' =>
      if selectsBuild arg then runAsBuild osArgs else scanForBuild rest' osArgs
  end.

Definition parseOptionsForRun (osArgs : list string) : option RunResult :=
  scanForBuild osArgs osArgs.

End Run.

(** *** parseServeOptionsImpl *)

(** The errors [parseServeOptionsImpl] returns: the address error of
    [net.SplitHostPort], the number error of [strconv.ParseInt] with the
    text it was given, and the error made by [fmt.Errorf]. *)
Inductive ServeError :=
| AddrError (e : net.AddrError)
| NumError (num : string) (kind : strconv.NumErrorKind)
| Errorf (msg : string).

(** The loop that filters out the server flags; the state is
    [(portText, servedir, filteredArgs)]. *)
Fixpoint serveLoop (osArgs : list string) (portText servedir : string)
    (filteredArgs : list string) : string * string * list string :=
  match osArgs with
  | [] => (portText, servedir, filteredArgs)
  | arg :: rest =>
      if String.eqb arg "--serve" then serveLoop rest portText servedir filteredArgs
      else if strings.HasPrefix arg "--serve=" then
        serveLoop rest (after "--serve=" arg) servedir filteredArgs
      else if strings.HasPrefix arg "--servedir=" then
        serveLoop rest portText (after "--servedir=" arg) filteredArgs
      else serveLoop rest portText servedir (filteredArgs ++ [arg])
  end.

(** [uint16(port)] *)
Definition uint16 (n : Z) : Z := n mod 65536.

Definition parseServeOptionsImpl (osArgs : list string)
    : (ServeOptions.t * list string) + ServeError :=
  let '(portText, servedir, filteredArgs) := serveLoop osArgs "0" EmptyString [] in
  let parsePort (host portText : string) :=
    match strconv.ParseInt portText 32 with
    | inr k => inr (NumError portText k)
    | inl port =>
        if (port <? 0)%Z || (65535 <? port)%Z then
          inr (Errorf ("Invalid port number: " +:+ portText))
        else
          inl ({| ServeOptions.Port := uint16 port;
                  ServeOptions.Host := host;
                  ServeOptions.Servedir := servedir |}, filteredArgs)
    end in
  if strings.ContainsRune portText ":" then
    match net.SplitHostPort portText with
    | inr e => inr (AddrError e)
    | inl (host, portText') => parsePort host portText'
    end
  else parsePort EmptyString portText.

(** *** serveImpl *)

(** The text of an error of the standard library: the method [Error] of
    [net.AddrError], the one of [strconv.NumError] for an error of
    [ParseInt], and the message of [fmt.Errorf]. *)
Definition ServeError_Error (err : ServeError) : string :=
  match err with
  | AddrError e =>
      if String.eqb (net.Addr e) EmptyString then net.Err e
      else "address " +:+ net.Addr e +:+ ": " +:+ net.Err e
  | NumError num kind =>
      "strconv.ParseInt: parsing " +:+ strconv.Quote num +:+ ": "
        +:+ match kind with
            | strconv.ErrSyntax => "invalid syntax"
            | strconv.ErrRange => "value out of range"
            end
  | Errorf msg => msg
  end.

(** The errors [serveImpl] returns before it calls [api.Serve]: the error of
    [parseServeOptionsImpl], or [errors.New(err.Text)] for a flag error. *)
Inductive GoError :=
| OfServe (err : ServeError)
| ErrorsNew (text : string).

(** [err.Error()] *)
Definition Error (err : GoError) : string :=
  match err with
  | OfServe e => ServeError_Error e
  | ErrorsNew text => text
  end.

(** What is printed to stderr: [logger.PrintErrorToStderr(osArgs, text)]
    and [logger.PrintMessageToStderr(osArgs, msg)] for an error message
    with its text and the texts of its notes. *)
Inductive Stderr :=
| PrintErrorToStderr (osArgs : list string) (text : string)
| PrintMessageToStderr (osArgs : list string) (text : string) (notes : list string).

(** [serveImpl] up to its call of the server: it returns an error, after
    what it has printed; or it calls [api.Serve(serveOptions, options)]
    (the request callback stored in [serveOptions.OnRequest] and what
    follows the call are not part of the embedding). *)
Inductive ServeOutcome :=
| ServeReturn (stderr : list Stderr) (err : GoError)
| ServeCall (serveOptions : ServeOptions.t) (options : BuildOptions.t)
    (filteredArgs : list string)
| ServePanic.

Section Serve.

Variable ParseLoader : string -> api.Loader + ErrorWithNote.

Definition serveImpl (osArgs : list string) : ServeOutcome :=
  match parseServeOptionsImpl osArgs with
  | inr err => ServeReturn [] (OfServe err)
  | inl (serveOptions, filteredArgs) =>
      let options :=
        BuildOptions.set_LogLevel api.LogLevelInfo
          (BuildOptions.set_LogLimit 5 newBuildOptions) in
      match parseOptionsImpl ParseLoader filteredArgs (Some options) None kindInternal with
      | Failed _ err =>
          ServeReturn [PrintErrorToStderr filteredArgs (Text err)] (ErrorsNew (Text err))
      | Panicked => ServePanic
      | Done st =>
          (* [options] is the struct behind the pointer given to the binder *)
          match buildOpts st with
          | Some options' => ServeCall serveOptions options' filteredArgs
          | None => ServePanic
          end
      end
  end.

End Serve.

(** *** runImpl *)

(** What [runImpl] reads from its environment: [os.Environ()],
    [fs.CheckIfWindows()], the result of [ioutil.ReadAll(os.Stdin)] (the
    bytes, or the text of the error), the directory of [os.Getwd()] (empty
    when it fails) and the result of [fs.RealFS] (its method [Abs], or
    [None] when it fails). *)
Record Env := mkEnv {
  Environ : list string;
  CheckIfWindows : bool;
  ReadAllStdin : string + string;
  Getwd : string;
  RealFS : option (string -> option string)
}.

(** How the first loop of [runImpl] ends: at a flag of the server, with
    the array behind [osArgs] as the loop has left it; or at the end of the
    arguments, with the two flags of the analysis and [osArgs[:end]]. *)
Inductive Scan :=
| ScanServe (osArgs : list string)
| ScanDone (analyze analyzeVerbose : bool) (osArgs : list string).

(** The first loop of [runImpl]. The loop ranges over the array it writes
    to: round [i] reads [osArgs[i]] from the array as the rounds before
    have left it, and [osArgs[end] = arg] writes to the same array. [n]
    counts the rounds that are left. *)
Fixpoint scanLoop (n i : nat) (osArgs : list string)
    (analyze analyzeVerbose : bool) (end_ : nat) : Scan :=
  match n with
  | O => ScanDone analyze analyzeVerbose (take end_ osArgs)
  | S n' =>
      match osArgs !! i with
      | None => ScanDone analyze analyzeVerbose (take end_ osArgs)
      | Some arg =>
          if String.eqb arg "--serve"
             || strings.HasPrefix arg "--serve="
             || strings.HasPrefix arg "--servedir="
          then ScanServe osArgs
          else if String.eqb arg "--analyze" then
            scanLoop n' (S i) osArgs true false end_
          else if String.eqb arg "--analyze=verbose" then
            scanLoop n' (S i) osArgs true true end_
          else
            scanLoop n' (S i) (<[end_ := arg]> osArgs) analyze analyzeVerbose (S end_)
      end
  end.

Definition scan (osArgs : list string) : Scan :=
  scanLoop (length osArgs) 0 osArgs false false 0.

(** [runImpl] up to its call of the engine: it returns an exit code after
    what it has printed to stderr; or it calls [api.Serve], [api.Build]
    (with [writeMetafile] set when [metafile] is) or [api.Transform]. What
    follows these calls is not part of the embedding, nor are the callbacks
    [writeMetafile] and [Watch.OnRebuild], which run after the build. *)
Inductive RunOutcome :=
| Exit (code : Z) (stderr : list Stderr)
| Serving (serveOptions : ServeOptions.t) (options : BuildOptions.t)
    (filteredArgs : list string)
| Building (options : BuildOptions.t) (analyze analyzeVerbose : bool)
    (metafile : option string)
| Transforming (input : string) (options : TransformOptions.t)
| Crash.

Section RunImpl.

Variable ParseLoader : string -> api.Loader + ErrorWithNote.
Variable env : Env.

(** [for _, key := range os.Environ()]: the first entry of [NODE_PATH]
    ends the loop. *)
Fixpoint nodePathsLoop (environ : list string) (buildOptions : BuildOptions.t)
    : BuildOptions.t :=
  match environ with
  | [] => buildOptions
  | key :: rest =>
      if strings.HasPrefix key "NODE_PATH=" then
        let value := after "NODE_PATH=" key in
        let separator := if CheckIfWindows env then ";"%char else ":"%char in
        BuildOptions.set_NodePaths (splitWithEmptyCheck value separator) buildOptions
      else nodePathsLoop rest buildOptions
  end.

(** The rule of the standard input: it is read when there are no entry
    points, and its options are refused when there are. *)
Definition stdinStage (osArgs : list string) (buildOptions : BuildOptions.t)
    : BuildOptions.t + RunOutcome :=
  if (length (BuildOptions.EntryPoints buildOptions)
      + length (BuildOptions.EntryPointsAdvanced buildOptions) =? 0)%nat then
    let stdin :=
      match BuildOptions.Stdin buildOptions with
      | Some stdin => stdin
      | None => StdinOptions.zero
      end in
    match ReadAllStdin env with
    | inr err =>
        inr (Exit 1 [PrintErrorToStderr osArgs ("Could not read from stdin: " +:+ err)])
    | inl bytes =>
        inl (BuildOptions.set_Stdin
               (Some (StdinOptions.mk bytes (Getwd env)
                        (StdinOptions.Sourcefile stdin) (StdinOptions.Loader stdin)))
               buildOptions)
    end
  else
    match BuildOptions.Stdin buildOptions with
    | Some stdin =>
        if negb (String.eqb (StdinOptions.Sourcefile stdin) EmptyString) then
          inr (Exit 1 [PrintErrorToStderr osArgs
                         (lit "`sourcefile` only applies when reading from stdin")])
        else
          inr (Exit 1 [PrintErrorToStderr osArgs
                         (lit "`loader` without extension only applies when reading from stdin")])
    | None => inl buildOptions
    end.

(** The validation of the metafile path ahead of the build; [None] when
    the path passes. *)
Definition metafileStage (osArgs : list string) (buildOptions : BuildOptions.t)
    (metafile : option string) : option RunOutcome :=
  match metafile with
  | Some path =>
      if String.eqb (BuildOptions.Outfile buildOptions) EmptyString
         && String.eqb (BuildOptions.Outdir buildOptions) EmptyString then
        Some (Exit 1 [PrintErrorToStderr osArgs
                        (lit "Cannot use `metafile` without an output path")])
      else
        match RealFS env with
        | Some Abs =>
            match Abs path with
            | Some _ => None
            | None =>
                Some (Exit 1 [PrintErrorToStderr osArgs ("Invalid metafile path: " +:+ path)])
            end
        | None => None
        end
  | None => None
  end.

(** [case buildOptions != nil] *)
Definition buildCase (osArgs : list string) (analyze analyzeVerbose : bool)
    (buildOptions : BuildOptions.t) (metafile : option string) : RunOutcome :=
  match stdinStage osArgs (nodePathsLoop (Environ env) buildOptions) with
  | inr out => out
  | inl buildOptions =>
      match metafileStage osArgs buildOptions metafile with
      | Some out => out
      | None =>
          Building
            (if analyze then BuildOptions.set_Metafile true buildOptions else buildOptions)
            analyze analyzeVerbose metafile
      end
  end.

(** [case transformOptions != nil] *)
Definition transformCase (osArgs : list string) (transformOptions : TransformOptions.t)
    : RunOutcome :=
  match ReadAllStdin env with
  | inr err => Exit 1 [PrintErrorToStderr osArgs ("Could not read from stdin: " +:+ err)]
  | inl bytes => Transforming bytes transformOptions
  end.

(** [case err != nil] *)
Definition errorCase (osArgs : list string) (err : ErrorWithNote) : RunOutcome :=
  Exit 1 [PrintMessageToStderr osArgs (Text err)
            (if negb (String.eqb (Note err) EmptyString) then [Note err] else [])].

Definition runImpl (osArgs : list string) : RunOutcome :=
  match scan osArgs with
  | ScanServe osArgs =>
      match serveImpl ParseLoader osArgs with
      | ServeReturn stderr err => Exit 1 (stderr ++ [PrintErrorToStderr osArgs (Error err)])
      | ServeCall serveOptions options filteredArgs => Serving serveOptions options filteredArgs
      | ServePanic => Crash
      end
  | ScanDone analyze analyzeVerbose osArgs =>
      match parseOptionsForRun ParseLoader osArgs with
      | None => Crash
      | Some r =>
          match runBuild r, runTransform r, runErr r with
          | Some buildOptions, _, _ =>
              buildCase osArgs analyze analyzeVerbose buildOptions (runMetafile r)
          | None, Some transformOptions, _ => transformCase osArgs transformOptions
          | None, None, Some err => errorCase osArgs err
          | None, None, None => Exit 0 []
          end
      end
  end.

End RunImpl.

(** ** The vocabulary of the properties *)

(** The two modes of the binder: the arguments are bound to build options
    or to transform options. *)
Inductive Mode := Build | Transform.

(** The state in which [parseOptionsForRun] starts the binder in a mode *)
Definition buildDefaults : BuildOptions.t :=
  BuildOptions.set_Write true
    (BuildOptions.set_LogLevel api.LogLevelInfo
      (BuildOptions.set_LogLimit 6 newBuildOptions)).

Definition transformDefaults : TransformOptions.t :=
  TransformOptions.set_LogLevel api.LogLevelInfo
    (TransformOptions.set_LogLimit 6 newTransformOptions).

Definition initState (mode : Mode) : State :=
  match mode with
  | Build => mkState (Some buildDefaults) None false None
  | Transform => mkState None (Some transformDefaults) false None
  end.

(** A state of a run in a mode: exactly the pointer of the mode is set. *)
Definition inMode (mode : Mode) (st : State) : Prop :=
  match mode with
  | Build => is_Some (buildOpts st) /\ transformOpts st = None
  | Transform => buildOpts st = None /\ is_Some (transformOpts st)
  end.

(** The mode a list of arguments selects: build when some argument lacks a
    leading dash or is the bundling flag. *)
Definition modeOf (osArgs : list string) : Mode :=
  if existsb selectsBuild osArgs then Build else Transform.

(** The error the binder meets at an argument in a mode, if any *)
Definition flagError (ParseLoader : string -> api.Loader + cli_helpers.ErrorWithNote)
    (mode : Mode) (arg : string) : option cli_helpers.ErrorWithNote :=
  match step ParseLoader kindInternal (initState mode) arg with
  | Return e => Some e
  | _ => None
  end.

(** What a round of the loop leaves untouched. A round that goes on in a
    build maps the build options by [f] and the flag [hasBareSourceMapFlag]
    by [hf]; each line names the arguments that may change a field. *)
Definition buildFrames (arg : string)
    (f : BuildOptions.t -> BuildOptions.t) (hf : bool -> bool) : Prop :=
  (String.eqb arg "--sourcemap" = false ->
   strings.HasPrefix arg "--sourcemap=" = false ->
     (forall b, BuildOptions.Sourcemap (f b) = BuildOptions.Sourcemap b)
     /\ (forall h, hf h = h))
  /\ (strings.HasPrefix arg "--outfile=" = false ->
        forall b, BuildOptions.Outfile (f b) = BuildOptions.Outfile b)
  /\ (strings.HasPrefix arg "--outdir=" = false ->
        forall b, BuildOptions.Outdir (f b) = BuildOptions.Outdir b)
  /\ (strings.HasPrefix arg "--define:" = false ->
        forall b, BuildOptions.Define (f b) = BuildOptions.Define b)
  /\ (strings.HasPrefix arg "--loader:" = false ->
        forall b, BuildOptions.Loader (f b) = BuildOptions.Loader b)
  /\ (strings.HasPrefix arg "--banner:" = false ->
        forall b, BuildOptions.Banner (f b) = BuildOptions.Banner b)
  /\ (strings.HasPrefix arg "--footer:" = false ->
        forall b, BuildOptions.Footer (f b) = BuildOptions.Footer b)
  /\ (strings.HasPrefix arg "--out-extension:" = false ->
        forall b, BuildOptions.OutExtensions (f b) = BuildOptions.OutExtensions b)
  /\ (strings.HasPrefix arg "--external:" = false ->
        forall b, BuildOptions.External (f b) = BuildOptions.External b)
  /\ (strings.HasPrefix arg "--inject:" = false ->
        forall b, BuildOptions.Inject (f b) = BuildOptions.Inject b)
  /\ (strings.HasPrefix arg "--pure:" = false ->
        forall b, BuildOptions.Pure (f b) = BuildOptions.Pure b)
  /\ (negb (strings.HasPrefix arg "-") = false ->
        forall b, BuildOptions.EntryPoints (f b) = BuildOptions.EntryPoints b
                  /\ BuildOptions.EntryPointsAdvanced (f b) = BuildOptions.EntryPointsAdvanced b)
  /\ (strings.HasPrefix arg "--target=" = false ->
        forall b, BuildOptions.Target (f b) = BuildOptions.Target b
                  /\ BuildOptions.Engines (f b) = BuildOptions.Engines b).

Definition transformFrames (arg : string)
    (g : TransformOptions.t -> TransformOptions.t) : Prop :=
  (String.eqb arg "--sourcemap" = false ->
   strings.HasPrefix arg "--sourcemap=" = false ->
     forall t, TransformOptions.Sourcemap (g t) = TransformOptions.Sourcemap t)
  /\ (strings.HasPrefix arg "--define:" = false ->
        forall t, TransformOptions.Define (g t) = TransformOptions.Define t)
  /\ (strings.HasPrefix arg "--pure:" = false ->
        forall t, TransformOptions.Pure (g t) = TransformOptions.Pure t)
  /\ (strings.HasPrefix arg "--target=" = false ->
        forall t, TransformOptions.Target (g t) = TransformOptions.Target t
                  /\ TransformOptions.Engines (g t) = TransformOptions.Engines t)
  /\ (forall t, TransformOptions.Sourcemap (g t) = api.SourceMapLinked ->
                TransformOptions.Sourcemap t = api.SourceMapLinked).

(** The error of ["--loader=file"] *)
Definition loaderFileError : cli_helpers.ErrorWithNote :=
  cli_helpers.MakeErrorWithNote
    (q "--loader=file" +:+ " is not supported when transforming stdin")
    (lit ("Using esbuild to transform stdin only generates one output file, so you cannot use the `file` loader "
          +:+ "since that needs to generate two output files.")).

(** The value of the last argument that starts with [prefix], the empty
    string when there is none *)
Definition lastValue (prefix : string) (args : list string) : string :=
  match last (List.filter (fun a => strings.HasPrefix a prefix) args) with
  | Some a => after prefix a
  | None => EmptyString
  end.





(** The key and the value of a [prefix key=value] argument: what follows
    the prefix is split at its first [=]. *)
Definition keyValueOf (prefix arg : string) : option (string * string) :=
  if strings.HasPrefix arg prefix then
    let value := after prefix arg in
    match strings.IndexByte value "=" with
    | Some i => Some (strings.sliceTo i value, strings.sliceFrom (i + 1) value)
    | None => None
    end
  else None.

(** The assignments the arguments make with a prefix, in their order *)
Definition assignments (prefix : string) (args : list string) : list (string * string) :=
  omap (keyValueOf prefix) args.

(** The loader assignments of the arguments, with the loaders parsed *)
Definition loaderAssignments (ParseLoader : string -> api.Loader + cli_helpers.ErrorWithNote)
    (args : list string) : list (string * api.Loader) :=
  omap (fun arg =>
          match keyValueOf "--loader:" arg with
          | Some (ext, text) =>
              match ParseLoader text with
              | inl loader => Some (ext, loader)
              | inr _ => None
              end
          | None => None
          end) args.

(** The value of the last assignment to [key] *)
Definition lastAssigned {V : Type} (key : string) (kvs : list (string * V)) : option V :=
  snd <$> last (List.filter (fun kv => String.eqb (fst kv) key) kvs).

(** The map a sequence of assignments builds *)
Definition assign {V : Type} (m : gmap string V) (kvs : list (string * V)) : gmap string V :=
  foldl (fun m kv => <[fst kv := snd kv]> m) m kvs.

(** What follows the prefix in the arguments that start with it, in their
    order *)
Definition valuesOf (prefix : string) (args : list string) : list string :=
  map (after prefix) (List.filter (fun a => strings.HasPrefix a prefix) args).

Definition hasEquals (arg : string) : bool :=
  match strings.IndexByte arg "=" with Some _ => true | None => false end.

(** The arguments without a leading dash and without [=], in their order *)
Definition entryPointsOf (args : list string) : list string :=
  List.filter (fun a => negb (strings.HasPrefix a "-") && negb (hasEquals a)) args.

(** The [output=input] arguments without a leading dash, in their order *)
Definition advancedOf (args : list string) : list api.EntryPoint :=
  omap (fun a =>
          if negb (strings.HasPrefix a "-") then
            match strings.IndexByte a "=" with
            | Some i => Some {| api.InputPath := strings.sliceFrom (i + 1) a;
                                api.OutputPath := strings.sliceTo i a |}
            | None => None
            end
          else None) args.

(** The baseline and the engines of the last ["--target="] argument *)
Definition targetOf (args : list string) : api.Target * list api.Engine :=
  match last (List.filter (fun a => strings.HasPrefix a "--target=") args) with
  | Some arg => fst (parseTargets (splitWithEmptyCheck (after "--target=" arg) ",") arg)
  | None => (api.DefaultTarget, [])
  end.

(** The baseline a token names, compared without regard to case *)
Definition baselineOf (value : string) : option api.Target :=
  mapLookup validTargets (strings.ToLower value).

(** A token that names an engine and a version: an engine name of the
    table followed by a version that is not empty *)
Inductive engineToken (value : string) : api.Engine -> Prop :=
| engineToken_intro (engine : string) (name : api.EngineName) (version : string) :
    In (engine, name) validEngines ->
    value = engine +:+ version ->
    version <> EmptyString ->
    engineToken value {| api.Name := name; api.Version := version |}.

(** The engine constraint of a token that is no baseline *)
Definition engineOf (value : string) : option api.Engine :=
  match baselineOf value with
  | Some _ => None
  | None =>
      match engineLoop validEngines value with
      | FoundEngine e => Some e
      | _ => None
      end
  end.

(** A token that is a baseline or an engine with a version *)
Definition tokenOk (value : string) : bool :=
  match baselineOf value, engineOf value with
  | None, None => false
  | _, _ => true
  end.

(** The last baseline among the tokens *)
Definition lastBaseline (targets : list string) : api.Target :=
  default api.DefaultTarget (last (omap baselineOf targets)).

(** What the inner loop finds for one entry of the table *)
Definition engineEntry (kv : string * api.EngineName) (value : string) : EngineMatch :=
  let version := strings.sliceFrom (strings.len (fst kv)) value in
  if String.eqb version EmptyString then MissingVersion
  else FoundEngine {| api.Name := snd kv; api.Version := version |}.

(** The flags of the server *)
Definition isServeFlag (arg : string) : bool :=
  String.eqb arg "--serve"
  || strings.HasPrefix arg "--serve="
  || strings.HasPrefix arg "--servedir=".

(** The serve spec of the arguments: what follows the last ["--serve="],
    and ["0"] when there is none *)
Definition serveSpec (osArgs : list string) : string :=
  match last (List.filter (fun a => strings.HasPrefix a "--serve=") osArgs) with
  | Some a => after "--serve=" a
  | None => "0"
  end.

(** The value of a string of decimal digits behind [acc] *)
Fixpoint digitsValue (acc : Z) (s : string) : option Z :=
  match s with
  | EmptyString => Some acc
  | String c r =>
      match strconv.digitValue c with
      | Some d => digitsValue (acc * 10 + d) r
      | None => None
      end
  end.

(** The integer a text denotes in base 10: an optional sign and at least
    one digit *)
Definition decimalValue (s : string) : option Z :=
  match s with
  | EmptyString => None
  | String c r =>
      if Ascii.eqb c "+" then
        match r with EmptyString => None | _ => digitsValue 0 r end
      else if Ascii.eqb c "-" then
        match r with EmptyString => None | _ => Z.opp <$> digitsValue 0 r end
      else digitsValue 0 s
  end.

(** The host and the port text of a serve spec *)
Definition hostPortOf (spec : string) : option (string * string) :=
  if strings.ContainsRune spec ":" then
    match net.SplitHostPort spec with
    | inl hp => Some hp
    | inr _ => None
    end
  else Some (EmptyString, spec).

(** The port a text denotes: a base-10 integer from 0 to 65535 *)
Definition portOf (portText : string) : option Z :=
  match decimalValue portText with
  | Some p => if (0 <=? p)%Z && (p <=? 65535)%Z then Some p else None
  | None => None
  end.


(** The error of the default case in a mode *)
Definition invalidFlagError (mode : Mode) (arg note : string) : cli_helpers.ErrorWithNote :=
  cli_helpers.MakeErrorWithNote
    (match mode with
     | Build => "Invalid build flag: "
     | Transform => "Invalid transform flag: "
     end +:+ q arg)
    note.


(** The flags with an enumerated value, each with the values as its note
    lists them *)
Definition enumerated : list (string * list string) :=
  [ ("--legal-comments=", ["none"; "inline"; "eof"; "linked"; "external"]);
    ("--charset=", ["ascii"; "utf8"]);
    ("--tree-shaking=", ["true"; "false"]);
    ("--sourcemap=", ["inline"; "external"; "both"]);
    ("--sources-content=", ["true"; "false"]);
    ("--platform=", ["browser"; "node"; "neutral"]);
    ("--format=", ["iife"; "cjs"; "esm"]);
    ("--jsx=", ["transform"; "preserve"]);
    ("--color=", ["true"; "false"]);
    ("--log-level=", ["verbose"; "debug"; "info"; "warning"; "error"; "silent"]) ].

(** The note that lists the values, each in double quotes: two values are
    joined by [or], more by commas with [or] before the last. *)
Definition validValues (values : list string) : string :=
  "Valid values are "
    +:+ match values with
        | [a; b] => q a +:+ " or " +:+ q b
        | _ => strings.Join (map q (removelast values)) ", "
                 +:+ ", or " +:+ q (List.last values EmptyString)
        end
    +:+ ".".

(** The error of a value that a flag does not list *)
Definition invalidValueError (value arg note : string) : cli_helpers.ErrorWithNote :=
  cli_helpers.MakeErrorWithNote ("Invalid value " +:+ q value +:+ " in " +:+ q arg) note.

(** The log limit a text denotes: a base-10 integer, with a sign or
    without, from 0 to the largest 64-bit integer *)
Definition logLimitOf (value : string) : option Z :=
  match decimalValue value with
  | Some n => if (0 <=? n)%Z && (n <=? 9223372036854775807)%Z then Some n else None
  | None => None
  end.

(** The error of a flag behind a single quote *)
Definition singleQuoteError (arg : string) : cli_helpers.ErrorWithNote :=
  cli_helpers.MakeErrorWithNote
    ("Unexpected single quote character before flag: " +:+ arg)
    ("This typically happens when attempting to use single quotes to quote arguments with a shell that doesn't recognize single quotes. "
     +:+ "Try using double quote characters to quote arguments instead.").

(** The contents and the directory of the standard input of a build, empty
    when the options of the standard input are not set *)
Definition stdinRead (o : option StdinOptions.t) : string * string :=
  let stdin := match o with Some s => s | None => StdinOptions.zero end in
  (StdinOptions.Contents stdin, StdinOptions.ResolveDir stdin).

(** What a round of the loop leaves untouched in a build, for the fields
    of the defaults, of the standard input, of the metafile and of the bare
    flags; [mf] maps the metafile path of the binder. *)
Definition buildFields (arg : string)
    (f : BuildOptions.t -> BuildOptions.t) (mf : option string -> option string) : Prop :=
  (forall b, BuildOptions.Write (f b) = BuildOptions.Write b)
  /\ (forall b, BuildOptions.NodePaths (f b) = BuildOptions.NodePaths b)
  /\ (forall b, stdinRead (BuildOptions.Stdin (f b)) = stdinRead (BuildOptions.Stdin b))
  /\ (strings.HasPrefix arg "--sourcefile=" = false ->
      strings.HasPrefix arg "--loader=" = false ->
        forall b, BuildOptions.Stdin (f b) = BuildOptions.Stdin b)
  /\ (strings.HasPrefix arg "--log-limit=" = false ->
        forall b, BuildOptions.LogLimit (f b) = BuildOptions.LogLimit b)
  /\ (strings.HasPrefix arg "--log-level=" = false ->
        forall b, BuildOptions.LogLevel (f b) = BuildOptions.LogLevel b)
  /\ (String.eqb arg "--metafile" = false ->
      strings.HasPrefix arg "--metafile=" = false ->
        (forall b, BuildOptions.Metafile (f b) = BuildOptions.Metafile b)
        /\ (forall m, mf m = m))
  /\ (String.eqb arg "--minify" = false ->
      String.eqb arg "--minify-syntax" = false ->
        forall b, BuildOptions.MinifySyntax (f b) = BuildOptions.MinifySyntax b)
  /\ (String.eqb arg "--minify" = false ->
      String.eqb arg "--minify-whitespace" = false ->
        forall b, BuildOptions.MinifyWhitespace (f b) = BuildOptions.MinifyWhitespace b)
  /\ (String.eqb arg "--minify" = false ->
      String.eqb arg "--minify-identifiers" = false ->
        forall b, BuildOptions.MinifyIdentifiers (f b) = BuildOptions.MinifyIdentifiers b)
  /\ (String.eqb arg "--bundle" = false ->
        forall b, BuildOptions.Bundle (f b) = BuildOptions.Bundle b)
  /\ (String.eqb arg "--preserve-symlinks" = false ->
        forall b, BuildOptions.PreserveSymlinks (f b) = BuildOptions.PreserveSymlinks b)
  /\ (String.eqb arg "--splitting" = false ->
        forall b, BuildOptions.Splitting (f b) = BuildOptions.Splitting b)
  /\ (String.eqb arg "--allow-overwrite" = false ->
        forall b, BuildOptions.AllowOverwrite (f b) = BuildOptions.AllowOverwrite b)
  /\ (String.eqb arg "--watch" = false ->
        forall b, BuildOptions.Watch (f b) = BuildOptions.Watch b)
  /\ (String.eqb arg "--ignore-annotations" = false ->
        forall b, BuildOptions.IgnoreAnnotations (f b) = BuildOptions.IgnoreAnnotations b)
  /\ (String.eqb arg "--keep-names" = false ->
        forall b, BuildOptions.KeepNames (f b) = BuildOptions.KeepNames b)
  /\ (strings.HasPrefix arg "--resolve-extensions=" = false ->
        forall b, BuildOptions.ResolveExtensions (f b) = BuildOptions.ResolveExtensions b)
  /\ (strings.HasPrefix arg "--main-fields=" = false ->
        forall b, BuildOptions.MainFields (f b) = BuildOptions.MainFields b)
  /\ (strings.HasPrefix arg "--conditions=" = false ->
        forall b, BuildOptions.Conditions (f b) = BuildOptions.Conditions b).

(** The same for a transform *)
Definition transformFields (arg : string)
    (g : TransformOptions.t -> TransformOptions.t) : Prop :=
  (strings.HasPrefix arg "--log-limit=" = false ->
     forall t, TransformOptions.LogLimit (g t) = TransformOptions.LogLimit t)
  /\ (strings.HasPrefix arg "--log-level=" = false ->
        forall t, TransformOptions.LogLevel (g t) = TransformOptions.LogLevel t)
  /\ (String.eqb arg "--minify" = false ->
      String.eqb arg "--minify-syntax" = false ->
        forall t, TransformOptions.MinifySyntax (g t) = TransformOptions.MinifySyntax t)
  /\ (String.eqb arg "--minify" = false ->
      String.eqb arg "--minify-whitespace" = false ->
        forall t, TransformOptions.MinifyWhitespace (g t) = TransformOptions.MinifyWhitespace t)
  /\ (String.eqb arg "--minify" = false ->
      String.eqb arg "--minify-identifiers" = false ->
        forall t, TransformOptions.MinifyIdentifiers (g t) = TransformOptions.MinifyIdentifiers t)
  /\ (String.eqb arg "--ignore-annotations" = false ->
        forall t, TransformOptions.IgnoreAnnotations (g t) = TransformOptions.IgnoreAnnotations t)
  /\ (String.eqb arg "--keep-names" = false ->
        forall t, TransformOptions.KeepNames (g t) = TransformOptions.KeepNames t)
  /\ (strings.HasPrefix arg "--sourcefile=" = false ->
        forall t, TransformOptions.Sourcefile (g t) = TransformOptions.Sourcefile t)
  /\ (strings.HasPrefix arg "--loader=" = false ->
        forall t, TransformOptions.Loader (g t) = TransformOptions.Loader t)
  /\ (strings.HasPrefix arg "--banner=" = false ->
        forall t, TransformOptions.Banner (g t) = TransformOptions.Banner t)
  /\ (strings.HasPrefix arg "--footer=" = false ->
        forall t, TransformOptions.Footer (g t) = TransformOptions.Footer t)
  /\ (strings.HasPrefix arg "--tsconfig-raw=" = false ->
        forall t, TransformOptions.TsconfigRaw (g t) = TransformOptions.TsconfigRaw t).

(** Whether the arguments hold the flag *)
Definition hasFlag (flag : string) (osArgs : list string) : bool :=
  existsb (fun arg => String.eqb arg flag) osArgs.

(** The log limit of a [--log-limit=] argument *)
Definition logLimitFlag (arg : string) : option Z :=
  if strings.HasPrefix arg "--log-limit=" then logLimitOf (after "--log-limit=" arg)
  else None.

(** The log level a text names *)
Definition logLevelOf (value : string) : option api.LogLevel :=
  if String.eqb value "verbose" then Some api.LogLevelVerbose
  else if String.eqb value "debug" then Some api.LogLevelDebug
  else if String.eqb value "info" then Some api.LogLevelInfo
  else if String.eqb value "warning" then Some api.LogLevelWarning
  else if String.eqb value "error" then Some api.LogLevelError
  else if String.eqb value "silent" then Some api.LogLevelSilent
  else None.

(** The log level of a [--log-level=] argument *)
Definition logLevelFlag (arg : string) : option api.LogLevel :=
  if strings.HasPrefix arg "--log-level=" then logLevelOf (after "--log-level=" arg)
  else None.

(** The metafile path of the arguments: the value of the last
    [--metafile=] argument *)
Definition metafileOf (osArgs : list string) : option string :=
  after "--metafile="
    <$> last (List.filter (fun a => strings.HasPrefix a "--metafile=") osArgs).

(** The flags of the standard input of a build *)
Definition isStdinFlag (arg : string) : bool :=
  strings.HasPrefix arg "--sourcefile=" || strings.HasPrefix arg "--loader=".

(** The loader a text names, none when the text names no loader *)
Definition loaderOf (ParseLoader : string -> api.Loader + cli_helpers.ErrorWithNote)
    (value : string) : api.Loader :=
  match ParseLoader value with
  | inl loader => loader
  | inr _ => api.LoaderNone
  end.

(** The loader of the last [--loader=] argument *)
Definition stdinLoader (ParseLoader : string -> api.Loader + cli_helpers.ErrorWithNote)
    (osArgs : list string) : api.Loader :=
  match last (List.filter (fun a => strings.HasPrefix a "--loader=") osArgs) with
  | Some a => loaderOf ParseLoader (after "--loader=" a)
  | None => api.LoaderNone
  end.

(** What a flag of the standard input does to the options of the standard
    input *)
Definition stdinUpd (ParseLoader : string -> api.Loader + cli_helpers.ErrorWithNote)
    (arg : string) (o : option StdinOptions.t) : option StdinOptions.t :=
  let stdin := default StdinOptions.zero o in
  Some (if strings.HasPrefix arg "--sourcefile=" then
          StdinOptions.set_Sourcefile (after "--sourcefile=" arg) stdin
        else
          StdinOptions.set_Loader (loaderOf ParseLoader (after "--loader=" arg)) stdin).

(** The argument an [output=input] entry point was read from *)
Definition renderEntryPoint (e : api.EntryPoint) : string :=
  api.OutputPath e +:+ "=" +:+ api.InputPath e.

(** The note that advises the form [fix_] with [=] for a flag that can
    only be specified once *)
Definition useEqualsAdvice (fix_ arg : string) : string :=
  "Use " +:+ q fix_ +:+ " instead of " +:+ q arg
    +:+ lit ". Flags that can only be specified once use `=` instead of `:`.".

(** The note that advises the form [fix_] with [:] for a flag that can be
    specified again *)
Definition useColonAdvice (fix_ arg : string) : string :=
  "Use " +:+ q fix_ +:+ " instead of " +:+ q arg
    +:+ lit ". Flags that can be re-specified multiple times use `:` instead of `=`.".




(** The flags of the analysis *)
Definition isAnalyzeFlag (arg : string) : bool :=
  String.eqb arg "--analyze" || String.eqb arg "--analyze=verbose".

(** The arguments without the flags of the analysis *)
Definition keptArgs (osArgs : list string) : list string :=
  List.filter (fun arg => negb (isAnalyzeFlag arg)) osArgs.

(** The arguments ahead of the first flag of the server, when there is
    one *)
Fixpoint beforeServe (osArgs : list string) : option (list string) :=
  match osArgs with
  | [] => None
  | arg :: rest =>
      if isServeFlag arg then Some [] else cons arg <$> beforeServe rest
  end.

(** The two flags of the analysis as the last flag of the analysis among
    the arguments sets them *)
Definition analyzeOf (osArgs : list string) : bool * bool :=
  match last (List.filter isAnalyzeFlag osArgs) with
  | Some arg => (true, String.eqb arg "--analyze=verbose")
  | None => (false, false)
  end.

(** What the first loop of [runImpl] comes to. At a flag of the server the
    array holds the arguments kept so far at its front, and behind them
    what the arguments had there from the start. *)
Definition scanOf (osArgs : list string) : Scan :=
  match beforeServe osArgs with
  | Some before =>
      let kept := keptArgs before in
      ScanServe (kept ++ drop (length kept) osArgs)
  | None =>
      ScanDone (fst (analyzeOf osArgs)) (snd (analyzeOf osArgs)) (keptArgs osArgs)
  end.

(** The options [serveImpl] starts the binder from *)
Definition serveDefaults : BuildOptions.t :=
  BuildOptions.set_LogLevel api.LogLevelInfo
    (BuildOptions.set_LogLimit 5 newBuildOptions).

(** The arguments without the flags of the server *)
Definition servedArgs (osArgs : list string) : list string :=
  List.filter (fun arg => negb (isServeFlag arg)) osArgs.

(** The node paths of the environment: the value of its first [NODE_PATH]
    entry, split at the separator of the platform *)
Definition nodePathsOf (env : Env) : list string :=
  match List.find (fun key => strings.HasPrefix key "NODE_PATH=") (Environ env) with
  | Some key =>
      splitWithEmptyCheck (after "NODE_PATH=" key)
        (if CheckIfWindows env then ";"%char else ":"%char)
  | None => []
  end.

(** Whether an argument is an entry point *)
Definition isEntryPoint (arg : string) : bool := negb (strings.HasPrefix arg "-").

(** An environment with two node paths, a standard input that can be
    read, and a file system that makes every path absolute *)
Definition sampleEnv : Env :=
  mkEnv ["HOME=/root"; "NODE_PATH=/lib:/opt/lib"; "NODE_PATH=/other"] false
    (inl "let x = 1") "/work" (Some (fun path => Some ("/work/" +:+ path))).

(** An environment whose standard input cannot be read and whose file
    system makes no path absolute *)
Definition brokenEnv : Env :=
  mkEnv [] true (inr "closed") EmptyString (Some (fun _ => None)).

(** ** Strings *)

Lemma append_cons (c : ascii) (p r : string) :
  String c p +:+ r = String c (p +:+ r).
Proof. reflexivity. Qed.

Lemma append_nil (r : string) : EmptyString +:+ r = r.
Proof. reflexivity. Qed.

Lemma append_assoc (a b c : string) : (a +:+ b) +:+ c = a +:+ (b +:+ c).
Proof.
  induction a as [|x a IH]; [reflexivity|].
  rewrite !append_cons. by rewrite IH.
Qed.

Lemma length_append (a b : string) :
  String.length (a +:+ b) = (String.length a + String.length b)%nat.
Proof.
  induction a as [|x a IH]; [reflexivity|].
  rewrite append_cons. cbn. by rewrite IH.
Qed.

Lemma HasPrefix_append (p r : string) : strings.HasPrefix (p +:+ r) p = true.
Proof.
  induction p as [|c p IH]; [reflexivity|].
  rewrite append_cons. cbn. by rewrite Ascii.eqb_refl, IH.
Qed.

Lemma HasPrefix_split (s p : string) :
  strings.HasPrefix s p = true -> s = p +:+ after p s.
Proof.
  revert s. induction p as [|c p IH]; intros s H; [reflexivity|].
  destruct s as [|d s]; [discriminate|].
  cbn in H. apply andb_true_iff in H as [Hc Hp].
  apply Ascii.eqb_eq in Hc. subst d.
  unfold after. rewrite append_cons. cbn. f_equal. apply IH, Hp.
Qed.

Lemma HasPrefix_iff (s p : string) :
  strings.HasPrefix s p = true <-> exists r, s = p +:+ r.
Proof.
  split.
  - intros H. eexists. by apply HasPrefix_split.
  - intros [r ->]. apply HasPrefix_append.
Qed.

Lemma after_append (p r : string) : after p (p +:+ r) = r.
Proof. unfold after. induction p as [|c p IH]; [reflexivity | exact IH]. Qed.

Lemma HasPrefix_trans (s p p' : string) :
  strings.HasPrefix s p = true -> strings.HasPrefix p p' = true ->
  strings.HasPrefix s p' = true.
Proof.
  intros [r ->]%HasPrefix_iff [r' ->]%HasPrefix_iff.
  apply HasPrefix_iff. exists (r' +:+ r).
  apply append_assoc.
Qed.

(** ** One round of the loop *)

Ltac unfold_step :=
  unfold step, keyValue, onEither, onBuild, onTransform, andThen,
    invalidValue, missingEquals, invalidFlag, hasBuild, hasTransform,
    set_buildOpts, set_transformOpts, set_hasBareSourceMapFlag, set_metafile;
  cbn [buildOpts transformOpts hasBareSourceMapFlag metafile negb andb].

Ltac is_leaf x :=
  lazymatch x with
  | context [if _ then _ else _] => fail
  | context [match _ with _ => _ end] => fail
  | _ => idtac
  end.

(** Splits the goal along the tests of the [switch], innermost scrutinee
    first, and keeps the outcome of each test as a hypothesis. *)
Ltac break_step :=
  repeat match goal with
  | |- context [if ?c then _ else _] => is_leaf c; destruct c eqn:?
  | |- context [match ?x with _ => _ end] => is_leaf x; destruct x eqn:?
  end.

Ltac clean_conds :=
  repeat match goal with
  | H : _ && true = _ |- _ => rewrite andb_true_r in H
  end.

Ltac absurd_cond :=
  exfalso;
  match goal with
  | H : _ = true |- _ =>
      rewrite ?andb_false_r in H; cbn [andb] in H; discriminate H
  end.

Lemma if_true_eq {A : Type} (c : bool) (a b r : A) :
  c = true -> a = r -> (if c then a else b) = r.
Proof. by intros -> ->. Qed.

Lemma if_false_eq {A : Type} (c : bool) (a b r : A) :
  c = false -> b = r -> (if c then a else b) = r.
Proof. by intros -> ->. Qed.

(** Runs the [switch] on an argument whose tests evaluate: each test in
    turn is computed and its branch taken. *)
Ltac eval_cond :=
  lazymatch goal with
  | |- (if _ then _ else _) = _ =>
      first [ apply if_false_eq; [vm_compute; reflexivity|]
            | apply if_true_eq; [vm_compute; reflexivity|] ]
  end.

Ltac run_switch := unfold step; repeat eval_cond.

#[global] Arguments strings.HasPrefix : simpl never.

Section StepFacts.

Variable ParseLoader : string -> api.Loader + ErrorWithNote.
Variable kind : parseOptionsKind.

(** A round in a build either returns an error that depends on the
    argument alone, or goes on in a build whose options and flags are a
    function of the ones before. *)
Lemma step_build_normal arg :
  (exists e, forall b h m,
      step ParseLoader kind (mkState (Some b) None h m) arg = Return e)
  \/ (exists f hf mf,
        (forall b h m,
            step ParseLoader kind (mkState (Some b) None h m) arg
            = Continue (mkState (Some (f b)) None (hf h) (mf m)))
        /\ buildFrames arg f hf).
Proof.
  unfold_step. break_step.
  all: try (left; eexists; intros; reflexivity).
  all: try absurd_cond.
  all: right; eexists (fun b => _), (fun h => _), (fun m => _);
    (split; [intros; cbn; reflexivity|]).
  all: clean_conds; unfold buildFrames; repeat split; intros; cbn; congruence.
Qed.

Lemma step_transform_normal arg :
  (exists e, forall t h m,
      step ParseLoader kind (mkState None (Some t) h m) arg = Return e)
  \/ (exists g hf mf,
        (forall t h m,
            step ParseLoader kind (mkState None (Some t) h m) arg
            = Continue (mkState None (Some (g t)) (hf h) (mf m)))
        /\ transformFrames arg g).
Proof.
  unfold_step. break_step.
  all: try (left; eexists; intros; reflexivity).
  all: try absurd_cond.
  all: right; eexists (fun t => _), (fun h => _), (fun m => _);
    (split; [intros; cbn; reflexivity|]).
  all: clean_conds; unfold transformFrames; repeat split; intros; cbn in *; congruence.
Qed.

End StepFacts.

(** ** The loop over the arguments *)

Section LoopFacts.

Variable ParseLoader : string -> api.Loader + ErrorWithNote.

Local Abbreviation step := (step ParseLoader kindInternal).
Local Abbreviation loop := (loop ParseLoader kindInternal).
Local Abbreviation flagError := (flagError ParseLoader).

Lemma inMode_build st :
  inMode Build st -> exists b h m, st = mkState (Some b) None h m.
Proof.
  destruct st as [bo to h m]. cbn. intros [[b ->] ->]. eauto.
Qed.

Lemma inMode_transform st :
  inMode Transform st -> exists t h m, st = mkState None (Some t) h m.
Proof.
  destruct st as [bo to h m]. cbn. intros [-> [t ->]]. eauto.
Qed.

Lemma inMode_init mode : inMode mode (initState mode).
Proof. destruct mode; cbn; eauto. Qed.

(** The error of an argument depends on the mode alone, and a round that
    meets no error goes on in the same mode: no round of a run in a mode
    dereferences a nil pointer. *)
Lemma step_mode mode st arg :
  inMode mode st ->
  match flagError mode arg with
  | Some e => step st arg = Return e
  | None => exists st', step st arg = Continue st' /\ inMode mode st'
  end.
Proof.
  intros Hst.
  destruct mode.
  - apply inMode_build in Hst as (b & h & m & ->).
    unfold flagError, initState.
    destruct (step_build_normal ParseLoader kindInternal arg)
      as [[e He] | (f & hf & mf & Hf & _)].
    + by rewrite !He.
    + rewrite !Hf. eexists. split; [reflexivity|]. cbn. eauto.
  - apply inMode_transform in Hst as (t & h & m & ->).
    unfold flagError, initState.
    destruct (step_transform_normal ParseLoader kindInternal arg)
      as [[e He] | (g & hf & mf & Hg & _)].
    + by rewrite !He.
    + rewrite !Hg. eexists. split; [reflexivity|]. cbn. eauto.
Qed.

Lemma loop_cons st arg rest :
  loop st (arg :: rest)
  = match step st arg with
    | Continue st' => loop st' rest
    | Return err => Failed st err
    | Panic => Panicked
    end.
Proof. reflexivity. Qed.

Lemma loop_app st l1 l2 :
  loop st (l1 ++ l2)
  = match loop st l1 with
    | Done st1 => loop st1 l2
    | r => r
    end.
Proof.
  revert st. induction l1 as [|a l1 IH]; intros st; [reflexivity|].
  cbn. destruct (step st a); [apply IH | reflexivity | reflexivity].
Qed.

(** A run in a mode binds every argument, or stops at the first argument
    that has an error in this mode and returns this error. *)
Lemma loop_mode mode st args :
  inMode mode st ->
  (exists st', loop st args = Done st' /\ inMode mode st'
               /\ Forall (fun a => flagError mode a = None) args)
  \/ (exists st' e pre bad post,
         loop st args = Failed st' e /\ inMode mode st'
         /\ args = pre ++ bad :: post
         /\ Forall (fun a => flagError mode a = None) pre
         /\ flagError mode bad = Some e).
Proof.
  revert st. induction args as [|a args IH]; intros st Hst.
  - left. exists st. by repeat split.
  - pose proof (step_mode mode st a Hst) as Ha. cbn.
    destruct (flagError mode a) as [e|] eqn:Hfe.
    + rewrite Ha. right. exists st, e, [], a, args. by repeat split.
    + destruct Ha as (st1 & -> & Hst1).
      destruct (IH st1 Hst1) as [(st' & Hl & Hm & Hall)
                                |(st' & e & pre & bad & post & Hl & Hm & -> & Hall & Hbad)].
      * left. exists st'. repeat split; try done. by constructor.
      * right. exists st', e, (a :: pre), bad, post.
        repeat split; try done. by constructor.
Qed.

Lemma loop_valid mode st args :
  inMode mode st ->
  Forall (fun a => flagError mode a = None) args ->
  exists st', loop st args = Done st' /\ inMode mode st'.
Proof.
  revert st. induction args as [|a args IH]; intros st Hst Hall.
  - by exists st.
  - inversion Hall as [|? ? Ha Hrest]; subst.
    pose proof (step_mode mode st a Hst) as Hs. rewrite Ha in Hs.
    destruct Hs as (st1 & Hs & Hst1). cbn. rewrite Hs. by apply IH.
Qed.

Lemma loop_first_error mode st pre bad post e :
  inMode mode st ->
  Forall (fun a => flagError mode a = None) pre ->
  flagError mode bad = Some e ->
  exists st', loop st (pre ++ bad :: post) = Failed st' e /\ inMode mode st'.
Proof.
  intros Hst Hpre Hbad.
  destruct (loop_valid mode st pre Hst Hpre) as (st1 & Hl & Hst1).
  rewrite loop_app, Hl. cbn.
  pose proof (step_mode mode st1 bad Hst1) as Hs. rewrite Hbad in Hs.
  rewrite Hs. by exists st1.
Qed.

(** The first loop of [parseOptionsForRun] selects the build as soon as
    one argument asks for it. *)
Lemma scanForBuild_existsb rest osArgs :
  scanForBuild ParseLoader rest osArgs
  = if existsb selectsBuild rest then runAsBuild ParseLoader osArgs
    else runAsTransform ParseLoader osArgs.
Proof.
  induction rest as [|a rest IH]; [reflexivity|].
  cbn. destruct (selectsBuild a); [reflexivity | exact IH].
Qed.

Lemma parseOptionsForRun_mode osArgs :
  parseOptionsForRun ParseLoader osArgs
  = match modeOf osArgs with
    | Build => runAsBuild ParseLoader osArgs
    | Transform => runAsTransform ParseLoader osArgs
    end.
Proof.
  unfold parseOptionsForRun, modeOf. rewrite scanForBuild_existsb.
  by destruct (existsb selectsBuild osArgs).
Qed.

Lemma reconcile_inMode mode st : inMode mode st -> inMode mode (reconcile st).
Proof.
  destruct st as [[b|] to h m]; unfold reconcile; cbn; [|done].
  destruct (h && _ && _); [|done].
  destruct mode; cbn; intros [? ?]; split; eauto; done.
Qed.

(** The binder as [parseOptionsForRun] calls it in a mode *)
Lemma parseOptionsImpl_init mode osArgs :
  parseOptionsImpl ParseLoader osArgs
    (buildOpts (initState mode)) (transformOpts (initState mode)) kindInternal
  = match loop (initState mode) osArgs with
    | Done st => Done (reconcile st)
    | r => r
    end.
Proof.
  unfold parseOptionsImpl. destruct mode; cbn; by destruct (loop _ osArgs).
Qed.

Lemma runAsBuild_loop osArgs :
  runAsBuild ParseLoader osArgs
  = match loop (initState Build) osArgs with
    | Done st =>
        Some (mkRunResult (buildOpts (reconcile st)) (metafile (reconcile st)) None None)
    | Failed _ err => Some (mkRunResult None None None (Some err))
    | Panicked => None
    end.
Proof.
  unfold runAsBuild. fold buildDefaults.
  change (Some buildDefaults) with (buildOpts (initState Build)).
  change (@None TransformOptions.t) with (transformOpts (initState Build)) at 1.
  rewrite parseOptionsImpl_init. by destruct (loop _ osArgs).
Qed.

(** A failing run returns its error and nothing else. *)
Lemma run_first_error pre bad post e :
  let osArgs := pre ++ bad :: post in
  Forall (fun a => flagError (modeOf osArgs) a = None) pre ->
  flagError (modeOf osArgs) bad = Some e ->
  parseOptionsForRun ParseLoader osArgs
  = Some (mkRunResult None None None (Some e)).
Proof.
  intros osArgs Hpre Hbad. rewrite parseOptionsForRun_mode.
  destruct (loop_first_error (modeOf osArgs) (initState (modeOf osArgs))
              pre bad post e (inMode_init _) Hpre Hbad) as (st' & Hl & _).
  fold osArgs in Hl.
  destruct (modeOf osArgs).
  - rewrite runAsBuild_loop. by rewrite Hl.
  - unfold runAsTransform. fold transformDefaults.
    change (Some transformDefaults) with (transformOpts (initState Transform)).
    change (@None BuildOptions.t) with (buildOpts (initState Transform)) at 1.
    rewrite parseOptionsImpl_init. by rewrite Hl.
Qed.

End LoopFacts.

(** ** The mode and the result of a run *)

Section RunFacts.

Variable ParseLoader : string -> api.Loader + ErrorWithNote.

Local Abbreviation loop := (loop ParseLoader kindInternal).
Local Abbreviation flagError := (flagError ParseLoader).

Lemma selectsBuild_iff arg :
  selectsBuild arg = true
  <-> strings.HasPrefix arg "-" = false \/ arg = "--bundle".
Proof.
  unfold selectsBuild. rewrite orb_true_iff, negb_true_iff, String.eqb_eq.
  reflexivity.
Qed.

Lemma modeOf_Build osArgs :
  modeOf osArgs = Build
  <-> exists arg, In arg osArgs
        /\ (strings.HasPrefix arg "-" = false \/ arg = "--bundle").
Proof.
  unfold modeOf. destruct (existsb selectsBuild osArgs) eqn:E.
  - apply existsb_exists in E as (arg & Hin & Hsel).
    split; [|done]. intros _. exists arg. split; [done|].
    by apply selectsBuild_iff.
  - split; [done|]. intros (arg & Hin & Hsel). exfalso.
    apply selectsBuild_iff in Hsel.
    assert (existsb selectsBuild osArgs = true) as E'
      by (apply existsb_exists; eauto).
    congruence.
Qed.

Lemma runAsTransform_loop osArgs :
  runAsTransform ParseLoader osArgs
  = match loop (initState Transform) osArgs with
    | Done st =>
        match transformOpts st with
        | None => None
        | Some options =>
            let sm := TransformOptions.Sourcemap options in
            if negb (bool_decide (sm = api.SourceMapNone))
               && negb (bool_decide (sm = api.SourceMapInline)) then
              Some (mkRunResult None None None
                (Some (MakeErrorWithNote
                  (lit "Use `--sourcemap` instead of `--sourcemap=" +:+ sourceMapMode sm
                     +:+ lit "` when transforming stdin")
                  ("Using esbuild to transform stdin only generates one output file, so you cannot use the "
                     +:+ q (sourceMapMode sm) +:+ " source map mode "
                     +:+ "since that needs to generate two output files."))))
            else Some (mkRunResult None None (Some options) None)
        end
    | Failed _ err => Some (mkRunResult None None None (Some err))
    | Panicked => None
    end.
Proof.
  unfold runAsTransform. fold transformDefaults.
  change (Some transformDefaults) with (transformOpts (initState Transform)).
  change (@None BuildOptions.t) with (buildOpts (initState Transform)) at 1.
  rewrite parseOptionsImpl_init.
  destruct (loop (initState Transform) osArgs) as [st| |]; try reflexivity.
  destruct st as [[b|] to h m]; [|reflexivity].
  unfold reconcile. cbn. by destruct (h && _ && _).
Qed.

(** C1. The mode of a run is the build exactly when some argument lacks
    a leading dash or is ["--bundle"]; the arguments are bound in this
    mode; and every run returns build options, or transform options, or
    an error, and never two of them. *)
Theorem parseOptionsForRun_one_result (osArgs : list string) :
  (modeOf osArgs = Build
   <-> exists arg, In arg osArgs
         /\ (strings.HasPrefix arg "-" = false \/ arg = "--bundle"))
  /\ parseOptionsForRun ParseLoader osArgs
     = match modeOf osArgs with
       | Build => runAsBuild ParseLoader osArgs
       | Transform => runAsTransform ParseLoader osArgs
       end
  /\ exists r, parseOptionsForRun ParseLoader osArgs = Some r
       /\ ((is_Some (runBuild r) /\ runTransform r = None /\ runErr r = None
            /\ modeOf osArgs = Build)
           \/ (runBuild r = None /\ is_Some (runTransform r) /\ runErr r = None
               /\ modeOf osArgs = Transform)
           \/ (runBuild r = None /\ runTransform r = None /\ is_Some (runErr r)
               /\ runMetafile r = None)).
Proof.
  split; [apply modeOf_Build|]. split; [apply parseOptionsForRun_mode|].
  rewrite parseOptionsForRun_mode.
  destruct (modeOf osArgs) eqn:Hmode.
  - rewrite runAsBuild_loop.
    destruct (loop_mode ParseLoader Build (initState Build) osArgs (inMode_init _))
      as [(st' & -> & Hm & _) | (st' & e & ? & ? & ? & -> & _)].
    + eexists. split; [reflexivity|]. left. cbn.
      apply (reconcile_inMode Build) in Hm as [? ?]. done.
    + eexists. split; [reflexivity|]. right. right. cbn. eauto.
  - rewrite runAsTransform_loop.
    destruct (loop_mode ParseLoader Transform (initState Transform) osArgs (inMode_init _))
      as [(st' & -> & Hm & _) | (st' & e & ? & ? & ? & -> & _)].
    + apply inMode_transform in Hm as (t & h & m & ->). cbn.
      destruct (negb _ && negb _).
      * eexists. split; [reflexivity|]. right. right. cbn. eauto.
      * eexists. split; [reflexivity|]. right. left. cbn. eauto.
    + eexists. split; [reflexivity|]. right. right. cbn. eauto.
Qed.

(** C3. When every argument before [bad] is valid in the mode of the run
    and [bad] has the error [e], the loop stops at [bad] in the state the
    arguments before it have left, whatever follows [bad], and the run
    returns [e] and neither build nor transform options; [bad] has this
    error in every state of the mode. *)
Theorem first_error_only (pre : list string) (bad : string) (post : list string)
    (e : ErrorWithNote) :
  Forall (fun a => flagError (modeOf (pre ++ bad :: post)) a = None) pre ->
  flagError (modeOf (pre ++ bad :: post)) bad = Some e ->
  parseOptionsForRun ParseLoader (pre ++ bad :: post)
  = Some (mkRunResult None None None (Some e))
  /\ (exists st,
        loop (initState (modeOf (pre ++ bad :: post))) pre = Done st
        /\ loop (initState (modeOf (pre ++ bad :: post))) (pre ++ bad :: post)
           = Failed st e)
  /\ (forall st, inMode (modeOf (pre ++ bad :: post)) st ->
        step ParseLoader kindInternal st bad = Return e).
Proof.
  intros Hpre Hbad.
  set (mode := modeOf (pre ++ bad :: post)) in *.
  assert (forall st, inMode mode st -> step ParseLoader kindInternal st bad = Return e)
    as Hstep.
  { intros st Hst. pose proof (step_mode ParseLoader mode st bad Hst) as Hs.
    by rewrite Hbad in Hs. }
  destruct (loop_valid ParseLoader mode (initState mode) pre (inMode_init _) Hpre)
    as (st1 & Hl1 & Hst1).
  assert (loop (initState mode) (pre ++ bad :: post) = Failed st1 e) as Hl.
  { rewrite loop_app, Hl1, loop_cons. by rewrite Hstep. }
  split; [|split; [by exists st1 | done]].
  rewrite parseOptionsForRun_mode. fold mode.
  destruct mode.
  - rewrite runAsBuild_loop. by rewrite Hl.
  - rewrite runAsTransform_loop. by rewrite Hl.
Qed.

(** An argument with an error fails the run. *)
Lemma run_invalid_arg bad osArgs :
  In bad osArgs ->
  (forall mode, is_Some (flagError mode bad)) ->
  exists e, parseOptionsForRun ParseLoader osArgs
            = Some (mkRunResult None None None (Some e)).
Proof.
  intros Hin Hbad. rewrite parseOptionsForRun_mode.
  assert (forall mode, ~ Forall (fun a => flagError mode a = None) osArgs) as Hno.
  { intros mode Hall. rewrite Forall_forall in Hall.
    apply list_elem_of_In in Hin. specialize (Hall bad Hin). destruct (Hbad mode) as [e He]. congruence. }
  destruct (modeOf osArgs).
  - rewrite runAsBuild_loop.
    destruct (loop_mode ParseLoader Build (initState Build) osArgs (inMode_init _))
      as [(st' & _ & _ & Hall) | (st' & e & ? & ? & ? & -> & _)].
    + by destruct (Hno Build).
    + by exists e.
  - rewrite runAsTransform_loop.
    destruct (loop_mode ParseLoader Transform (initState Transform) osArgs (inMode_init _))
      as [(st' & _ & _ & Hall) | (st' & e & ? & ? & ? & -> & _)].
    + by destruct (Hno Transform).
    + by exists e.
Qed.

Lemma step_loader_file mode st :
  ParseLoader "file" = inl api.LoaderFile ->
  inMode mode st ->
  step ParseLoader kindInternal st "--loader=file" = Return loaderFileError.
Proof.
  intros Hfile Hst.
  assert (flagError mode "--loader=file" = Some loaderFileError) as Hfe.
  { unfold flagError.
    assert (step ParseLoader kindInternal (initState mode) "--loader=file"
            = Return loaderFileError) as ->; [|reflexivity].
    destruct mode; run_switch;
      change (after "--loader=" "--loader=file") with "file";
      by rewrite Hfile. }
  pose proof (step_mode ParseLoader mode st "--loader=file" Hst) as Hs.
  by rewrite Hfe in Hs.
Qed.

Lemma flagError_loader_file mode :
  ParseLoader "file" = inl api.LoaderFile ->
  flagError mode "--loader=file" = Some loaderFileError.
Proof.
  intros Hfile. unfold flagError.
  by rewrite (step_loader_file mode _ Hfile (inMode_init mode)).
Qed.

(** C10. When [ParseLoader] knows the file loader, ["--loader=file"] is
    an error in a build as in a transform: the round that meets it
    returns the error of the stdin transform from every state, a run
    whose arguments hold it fails, and it fails with this error when the
    arguments before it are valid. *)
Theorem loader_file_rejected :
  ParseLoader "file" = inl api.LoaderFile ->
  (forall mode st, inMode mode st ->
     step ParseLoader kindInternal st "--loader=file" = Return loaderFileError)
  /\ (forall osArgs, In "--loader=file" osArgs ->
        exists e, parseOptionsForRun ParseLoader osArgs
                  = Some (mkRunResult None None None (Some e)))
  /\ (forall pre post,
        Forall (fun a => flagError (modeOf (pre ++ "--loader=file" :: post)) a = None) pre ->
        parseOptionsForRun ParseLoader (pre ++ "--loader=file" :: post)
        = Some (mkRunResult None None None (Some loaderFileError))).
Proof.
  intros Hfile. repeat split.
  - intros mode st Hst. by apply (step_loader_file mode).
  - intros osArgs Hin. apply (run_invalid_arg "--loader=file"); [done|].
    intros mode. rewrite flagError_loader_file by done. eauto.
  - intros pre post Hpre. apply run_first_error; [done|].
    by apply flagError_loader_file.
Qed.

End RunFacts.

(** ** Fields as folds over the arguments *)

Lemma foldl_last_wins {A B : Type} (p : B -> bool) (g : B -> A) (a0 : A) (l : list B) :
  foldl (fun acc x => if p x then g x else acc) a0 l
  = match last (List.filter p l) with
    | Some x => g x
    | None => a0
    end.
Proof.
  revert a0. induction l as [|x l IH]; intros a0; [reflexivity|].
  cbn. rewrite IH. destruct (p x); [|reflexivity].
  destruct (List.filter p l) as [|y l'] eqn:E; [reflexivity|].
  change (last (x :: y :: l')) with (last (y :: l')).
  by destruct (last (y :: l')) eqn:E'; [|apply last_None in E'].
Qed.

Lemma foldl_append_values {A B : Type} (p : B -> bool) (g : B -> A) (l0 : list A) (l : list B) :
  foldl (fun acc x => if p x then acc ++ [g x] else acc) l0 l
  = l0 ++ map g (List.filter p l).
Proof.
  revert l0. induction l as [|x l IH]; intros l0; cbn.
  - by rewrite app_nil_r.
  - rewrite IH. destruct (p x); [|reflexivity].
    cbn. by rewrite <- app_assoc.
Qed.

Section FieldFacts.

Variable ParseLoader : string -> api.Loader + ErrorWithNote.

Local Abbreviation step := (step ParseLoader kindInternal).
Local Abbreviation loop := (loop ParseLoader kindInternal).

(** A field of the build options after the loop, for a field that the
    arguments selected by [isFlag] update by [upd] and the others leave
    alone *)
Lemma loop_build_fold {A : Type} (proj : BuildOptions.t -> A)
    (isFlag : string -> bool) (upd : string -> A -> A) :
  (forall arg f hf, isFlag arg = false -> buildFrames arg f hf ->
     forall b, proj (f b) = proj b) ->
  (forall arg b h m st', isFlag arg = true ->
     step (mkState (Some b) None h m) arg = Continue st' ->
     exists b', buildOpts st' = Some b' /\ proj b' = upd arg (proj b)) ->
  forall args b h m st',
    loop (mkState (Some b) None h m) args = Done st' ->
    exists b', buildOpts st' = Some b'
      /\ proj b' = foldl (fun a arg => if isFlag arg then upd arg a else a) (proj b) args.
Proof.
  intros Hframe Hupd. induction args as [|arg args IH]; intros b h m st' Hl.
  - injection Hl as <-. by exists b.
  - rewrite loop_cons in Hl.
    destruct (step_build_normal ParseLoader kindInternal arg)
      as [[e He] | (f & hf & mf & Hf & Hfr)].
    + by rewrite He in Hl.
    + rewrite Hf in Hl. apply IH in Hl as (b' & Hb' & Hp).
      exists b'. split; [done|]. rewrite Hp. cbn. f_equal.
      destruct (isFlag arg) eqn:Hflag.
      * destruct (Hupd arg b h m _ Hflag (Hf b h m)) as (b1 & [= <-] & ->). done.
      * by apply Hframe with (arg := arg) (hf := hf).
Qed.

Lemma loop_transform_fold {A : Type} (proj : TransformOptions.t -> A)
    (isFlag : string -> bool) (upd : string -> A -> A) :
  (forall arg g, isFlag arg = false -> transformFrames arg g ->
     forall t, proj (g t) = proj t) ->
  (forall arg t h m st', isFlag arg = true ->
     step (mkState None (Some t) h m) arg = Continue st' ->
     exists t', transformOpts st' = Some t' /\ proj t' = upd arg (proj t)) ->
  forall args t h m st',
    loop (mkState None (Some t) h m) args = Done st' ->
    exists t', transformOpts st' = Some t'
      /\ proj t' = foldl (fun a arg => if isFlag arg then upd arg a else a) (proj t) args.
Proof.
  intros Hframe Hupd. induction args as [|arg args IH]; intros t h m st' Hl.
  - injection Hl as <-. by exists t.
  - rewrite loop_cons in Hl.
    destruct (step_transform_normal ParseLoader kindInternal arg)
      as [[e He] | (g & hf & mf & Hg & Hfr)].
    + by rewrite He in Hl.
    + rewrite Hg in Hl. apply IH in Hl as (t' & Ht' & Hp).
      exists t'. split; [done|]. rewrite Hp. cbn. f_equal.
      destruct (isFlag arg) eqn:Hflag.
      * destruct (Hupd arg t h m _ Hflag (Hg t h m)) as (t1 & [= <-] & ->). done.
      * by apply Hframe with (arg := arg).
Qed.

(** What the rule applied after the loop changes *)
Lemma reconcile_build st b :
  buildOpts st = Some b ->
  buildOpts (reconcile st)
  = Some (if hasBareSourceMapFlag st
             && String.eqb (BuildOptions.Outfile b) EmptyString
             && String.eqb (BuildOptions.Outdir b) EmptyString
          then BuildOptions.set_Sourcemap api.SourceMapInline b else b).
Proof.
  intros Hb. unfold reconcile. rewrite Hb.
  by destruct (hasBareSourceMapFlag st && _ && _).
Qed.

(** A run that returns build options has bound its arguments in a build. *)
Lemma run_build_inv osArgs o mf :
  parseOptionsForRun ParseLoader osArgs = Some (mkRunResult (Some o) mf None None) ->
  exists st, loop (initState Build) osArgs = Done st
             /\ buildOpts (reconcile st) = Some o.
Proof.
  rewrite parseOptionsForRun_mode. destruct (modeOf osArgs).
  - rewrite runAsBuild_loop.
    destruct (loop (initState Build) osArgs) as [st| |]; [|done..].
    intros [= Ho _]. by exists st.
  - rewrite runAsTransform_loop.
    destruct (loop (initState Transform) osArgs) as [st| |]; [|done..].
    destruct (transformOpts st); [|done]. cbn. by destruct (negb _ && negb _).
Qed.

Lemma run_transform_inv osArgs t :
  parseOptionsForRun ParseLoader osArgs = Some (mkRunResult None None (Some t) None) ->
  exists st, loop (initState Transform) osArgs = Done st
             /\ transformOpts st = Some t.
Proof.
  rewrite parseOptionsForRun_mode. destruct (modeOf osArgs).
  - rewrite runAsBuild_loop.
    destruct (loop (initState Build) osArgs) as [st| |]; done.
  - rewrite runAsTransform_loop.
    destruct (loop (initState Transform) osArgs) as [st| |]; [|done..].
    destruct (transformOpts st) as [t'|] eqn:Ht; [|done]. cbn.
    destruct (negb _ && negb _); [done|]. intros [= ->]. by exists st.
Qed.

(** *** The source map flags of a build *)

Lemma step_build_sourcemap b h m :
  step (mkState (Some b) None h m) "--sourcemap"
  = Continue (mkState (Some (BuildOptions.set_Sourcemap api.SourceMapLinked b)) None true m).
Proof. run_switch. reflexivity. Qed.

Lemma step_build_outfile b h m v :
  step (mkState (Some b) None h m) ("--outfile=" +:+ v)
  = Continue (mkState (Some (BuildOptions.set_Outfile v b)) None h m).
Proof. run_switch. reflexivity. Qed.

Lemma step_build_outdir b h m v :
  step (mkState (Some b) None h m) ("--outdir=" +:+ v)
  = Continue (mkState (Some (BuildOptions.set_Outdir v b)) None h m).
Proof. run_switch. reflexivity. Qed.

(** Behind a bare ["--sourcemap"], arguments other than ["--sourcemap=..."]
    keep the linked mode and the flag. *)
Lemma loop_keeps_bare_sourcemap post :
  Forall (fun a => strings.HasPrefix a "--sourcemap=" = false) post ->
  forall b m st',
    BuildOptions.Sourcemap b = api.SourceMapLinked ->
    loop (mkState (Some b) None true m) post = Done st' ->
    exists b', buildOpts st' = Some b'
               /\ BuildOptions.Sourcemap b' = api.SourceMapLinked
               /\ hasBareSourceMapFlag st' = true.
Proof.
  induction 1 as [|a post Ha Hpost IH]; intros b m st' Hb Hl.
  - injection Hl as <-. by exists b.
  - rewrite loop_cons in Hl. destruct (String.eqb a "--sourcemap") eqn:Heq.
    + apply String.eqb_eq in Heq as ->. rewrite step_build_sourcemap in Hl.
      by apply IH in Hl.
    + destruct (step_build_normal ParseLoader kindInternal a)
        as [[e He] | (f & hf & mf & Hf & Hfr)].
      * by rewrite He in Hl.
      * rewrite Hf in Hl. destruct Hfr as [Hsm _].
        destruct (Hsm Heq Ha) as [Hsmf Hhf]. rewrite Hhf in Hl.
        apply IH in Hl; [done|]. by rewrite Hsmf.
Qed.

Lemma loop_outfile args b h m st' :
  loop (mkState (Some b) None h m) args = Done st' ->
  exists b', buildOpts st' = Some b'
    /\ BuildOptions.Outfile b'
       = foldl (fun a arg => if strings.HasPrefix arg "--outfile=" then after "--outfile=" arg else a)
           (BuildOptions.Outfile b) args.
Proof.
  apply (loop_build_fold BuildOptions.Outfile
           (fun arg => strings.HasPrefix arg "--outfile=")
           (fun arg _ => after "--outfile=" arg)).
  - intros arg f hf Hflag Hfr. by apply Hfr.
  - intros arg b0 h0 m0 st0 Hflag. rewrite (HasPrefix_split _ _ Hflag) at 1.
    rewrite step_build_outfile. intros [= <-]. by eexists.
Qed.

Lemma loop_outdir args b h m st' :
  loop (mkState (Some b) None h m) args = Done st' ->
  exists b', buildOpts st' = Some b'
    /\ BuildOptions.Outdir b'
       = foldl (fun a arg => if strings.HasPrefix arg "--outdir=" then after "--outdir=" arg else a)
           (BuildOptions.Outdir b) args.
Proof.
  apply (loop_build_fold BuildOptions.Outdir
           (fun arg => strings.HasPrefix arg "--outdir=")
           (fun arg _ => after "--outdir=" arg)).
  - intros arg f hf Hflag Hfr. by apply Hfr.
  - intros arg b0 h0 m0 st0 Hflag. rewrite (HasPrefix_split _ _ Hflag) at 1.
    rewrite step_build_outdir. intros [= <-]. by eexists.
Qed.

(** C2. In a build whose last source map flag is the bare
    ["--sourcemap"], the output file and directory are the values of the
    last ["--outfile="] and ["--outdir="] arguments; the source map is
    inline when both are empty, and linked when one of them is set. *)
Theorem bare_sourcemap_reconciled (pre post : list string)
    (o : BuildOptions.t) (mf : option string) :
  Forall (fun a => strings.HasPrefix a "--sourcemap=" = false) post ->
  parseOptionsForRun ParseLoader (pre ++ "--sourcemap" :: post)
  = Some (mkRunResult (Some o) mf None None) ->
  BuildOptions.Outfile o = lastValue "--outfile=" (pre ++ "--sourcemap" :: post)
  /\ BuildOptions.Outdir o = lastValue "--outdir=" (pre ++ "--sourcemap" :: post)
  /\ (BuildOptions.Outfile o = EmptyString -> BuildOptions.Outdir o = EmptyString ->
      BuildOptions.Sourcemap o = api.SourceMapInline)
  /\ (BuildOptions.Outfile o <> EmptyString \/ BuildOptions.Outdir o <> EmptyString ->
      BuildOptions.Sourcemap o = api.SourceMapLinked).
Proof.
  intros Hpost Hrun.
  apply run_build_inv in Hrun as (st & Hl & Ho).
  pose proof Hl as Hl0.
  rewrite loop_app in Hl.
  destruct (loop_mode ParseLoader Build (initState Build) pre (inMode_init _))
    as [(st1 & Hl1 & Hm1 & _) | (st1 & e & ? & ? & ? & Hl1 & _)];
    rewrite Hl1 in Hl; [|done].
  apply inMode_build in Hm1 as (b1 & h1 & m1 & ->).
  rewrite loop_cons, step_build_sourcemap in Hl.
  apply loop_keeps_bare_sourcemap in Hl as (b' & Hb' & Hsm & Hbare); [|done..].
  rewrite (reconcile_build st b' Hb'), Hbare in Ho. cbn in Ho.
  unfold initState in Hl0.
  destruct (loop_outfile _ _ _ _ _ Hl0) as (b2 & Hb2 & Hof).
  destruct (loop_outdir _ _ _ _ _ Hl0) as (b3 & Hb3 & Hod).
  rewrite Hb' in Hb2, Hb3. injection Hb2 as <-. injection Hb3 as <-.
  rewrite foldl_last_wins in Hof, Hod.
  change (BuildOptions.Outfile buildDefaults) with EmptyString in Hof.
  change (BuildOptions.Outdir buildDefaults) with EmptyString in Hod.
  fold (lastValue "--outfile=" (pre ++ "--sourcemap" :: post)) in Hof.
  fold (lastValue "--outdir=" (pre ++ "--sourcemap" :: post)) in Hod.
  assert (BuildOptions.Outfile o = BuildOptions.Outfile b'
          /\ BuildOptions.Outdir o = BuildOptions.Outdir b') as [Ho1 Ho2].
  { destruct (_ && _); injection Ho as <-; done. }
  rewrite Ho1, Ho2. repeat split; try done.
  - intros E1 E2. rewrite E1, E2 in Ho. cbn in Ho. by injection Ho as <-.
  - intros Hset.
    destruct (String.eqb_spec (BuildOptions.Outfile b') EmptyString) as [E1|_];
      [destruct (String.eqb_spec (BuildOptions.Outdir b') EmptyString) as [E2|_]|];
      cbn in Ho; injection Ho as <-; try done.
    by destruct Hset.
Qed.

End FieldFacts.

(** ** The source map of a transform *)

Lemma foldl_last_omap {A B : Type} (f : B -> option A) (a0 : A) (l : list B) :
  foldl (fun acc x => match f x with Some a => a | None => acc end) a0 l
  = match last (omap f l) with
    | Some a => a
    | None => a0
    end.
Proof.
  revert a0. induction l as [|x l IH]; intros a0; [reflexivity|].
  cbn. rewrite IH. destruct (f x) as [a|]; [|reflexivity].
  destruct (omap f l) as [|y l'] eqn:E; [reflexivity|].
  change (last (a :: y :: l')) with (last (y :: l')).
  by destruct (last (y :: l')) eqn:E'; [|apply last_None in E'].
Qed.

Section TransformSourcemap.

Variable ParseLoader : string -> api.Loader + ErrorWithNote.

Local Abbreviation step := (step ParseLoader kindInternal).
Local Abbreviation loop := (loop ParseLoader kindInternal).
Local Abbreviation flagError := (flagError ParseLoader).










End TransformSourcemap.

(** ** Maps and lists of the options *)

Lemma foldl_omap {A B C : Type} (f : B -> option C) (g : A -> C -> A) (a0 : A) (l : list B) :
  foldl (fun a x => match f x with Some y => g a y | None => a end) a0 l
  = foldl g a0 (omap f l).
Proof.
  revert a0. induction l as [|x l IH]; intros a0; [reflexivity|].
  cbn. rewrite IH. by destruct (f x).
Qed.

Lemma foldl_ext_fun {A B : Type} (f g : A -> B -> A) (a0 : A) (l : list B) :
  (forall a x, f a x = g a x) -> foldl f a0 l = foldl g a0 l.
Proof.
  intros H. revert a0. induction l as [|x l IH]; intros a0; [reflexivity|].
  cbn. by rewrite H, IH.
Qed.

(** The last assignment to a key wins. *)
Lemma lookup_assign {V : Type} (m : gmap string V) (kvs : list (string * V)) (key : string) :
  assign m kvs !! key
  = match lastAssigned key kvs with
    | Some v => Some v
    | None => m !! key
    end.
Proof.
  unfold assign, lastAssigned. revert m.
  induction kvs as [|[k v] kvs IH]; intros m; [reflexivity|].
  cbn [foldl List.filter fst snd]. rewrite IH.
  destruct (String.eqb_spec k key) as [->|Hne].
  - destruct (List.filter _ kvs) as [|kv' l'] eqn:E.
    + cbn. by rewrite lookup_insert_eq.
    + rewrite last_cons_cons.
      destruct (last (kv' :: l')) eqn:E'; [done|]. by apply last_None in E'.
  - destruct (last (List.filter _ kvs)); cbn; [done|].
    by rewrite lookup_insert_ne.
Qed.

Lemma lastAssigned_snoc {V : Type} (key : string) (kvs : list (string * V)) (v : V) :
  lastAssigned key (kvs ++ [(key, v)]) = Some v.
Proof.
  unfold lastAssigned. rewrite List.filter_app. cbn.
  rewrite String.eqb_refl. by rewrite last_snoc.
Qed.

Lemma keyValueOf_append (p v : string) :
  keyValueOf p (p +:+ v)
  = match strings.IndexByte v "=" with
    | Some i => Some (strings.sliceTo i v, strings.sliceFrom (i + 1) v)
    | None => None
    end.
Proof. unfold keyValueOf. by rewrite HasPrefix_append, after_append. Qed.

Lemma keyValueOf_other (p arg : string) :
  strings.HasPrefix arg p = false -> keyValueOf p arg = None.
Proof. unfold keyValueOf. by intros ->. Qed.

Section Collections.

Variable ParseLoader : string -> api.Loader + ErrorWithNote.

Local Abbreviation step := (step ParseLoader kindInternal).
Local Abbreviation loop := (loop ParseLoader kindInternal).

(** *** The rounds of the map flags *)

Lemma step_build_define b h m v :
  step (mkState (Some b) None h m) ("--define:" +:+ v)
  = match keyValueOf "--define:" ("--define:" +:+ v) with
    | Some (key, value) =>
        Continue (mkState
          (Some (BuildOptions.set_Define (<[key := value]> (BuildOptions.Define b)) b))
          None h m)
    | None =>
        missingEquals ("--define:" +:+ v)
          (lit ("You need to use `=` to specify both the original value and the replacement value. "
                +:+ "For example, `--define:DEBUG=true` replaces `DEBUG` with `true`."))
    end.
Proof.
  rewrite keyValueOf_append. run_switch. unfold keyValue. rewrite after_append.
  by destruct (strings.IndexByte v "=").
Qed.

Lemma step_transform_define t h m v :
  step (mkState None (Some t) h m) ("--define:" +:+ v)
  = match keyValueOf "--define:" ("--define:" +:+ v) with
    | Some (key, value) =>
        Continue (mkState None
          (Some (TransformOptions.set_Define (<[key := value]> (TransformOptions.Define t)) t))
          h m)
    | None =>
        missingEquals ("--define:" +:+ v)
          (lit ("You need to use `=` to specify both the original value and the replacement value. "
                +:+ "For example, `--define:DEBUG=true` replaces `DEBUG` with `true`."))
    end.
Proof.
  rewrite keyValueOf_append. run_switch. unfold keyValue. rewrite after_append.
  by destruct (strings.IndexByte v "=").
Qed.

Lemma step_build_loader b h m v :
  step (mkState (Some b) None h m) ("--loader:" +:+ v)
  = match keyValueOf "--loader:" ("--loader:" +:+ v) with
    | Some (ext, text) =>
        match ParseLoader text with
        | inl loader =>
            Continue (mkState
              (Some (BuildOptions.set_Loader (<[ext := loader]> (BuildOptions.Loader b)) b))
              None h m)
        | inr err => Return err
        end
    | None =>
        missingEquals ("--loader:" +:+ v)
          (lit ("You need to specify the file extension that the loader applies to. "
                +:+ "For example, `--loader:.js=jsx` applies the `jsx` loader to files with the `.js` extension."))
    end.
Proof.
  rewrite keyValueOf_append. run_switch. unfold keyValue. rewrite after_append.
  destruct (strings.IndexByte v "="); [|done]. by destruct (ParseLoader _).
Qed.

Lemma step_build_banner b h m v :
  step (mkState (Some b) None h m) ("--banner:" +:+ v)
  = match keyValueOf "--banner:" ("--banner:" +:+ v) with
    | Some (key, value) =>
        Continue (mkState
          (Some (BuildOptions.set_Banner (<[key := value]> (BuildOptions.Banner b)) b))
          None h m)
    | None =>
        missingEquals ("--banner:" +:+ v)
          (lit "You need to use either `--banner:js=...` or `--banner:css=...` to specify the language that the banner applies to.")
    end.
Proof.
  rewrite keyValueOf_append. run_switch. unfold keyValue. rewrite after_append.
  by destruct (strings.IndexByte v "=").
Qed.

Lemma step_build_footer b h m v :
  step (mkState (Some b) None h m) ("--footer:" +:+ v)
  = match keyValueOf "--footer:" ("--footer:" +:+ v) with
    | Some (key, value) =>
        Continue (mkState
          (Some (BuildOptions.set_Footer (<[key := value]> (BuildOptions.Footer b)) b))
          None h m)
    | None =>
        missingEquals ("--footer:" +:+ v)
          (lit "You need to use either `--footer:js=...` or `--footer:css=...` to specify the language that the footer applies to.")
    end.
Proof.
  rewrite keyValueOf_append. run_switch. unfold keyValue. rewrite after_append.
  by destruct (strings.IndexByte v "=").
Qed.

Lemma step_build_out_extension b h m v :
  step (mkState (Some b) None h m) ("--out-extension:" +:+ v)
  = match keyValueOf "--out-extension:" ("--out-extension:" +:+ v) with
    | Some (key, value) =>
        Continue (mkState
          (Some (BuildOptions.set_OutExtensions
                   (insertMade key value (BuildOptions.OutExtensions b)) b))
          None h m)
    | None =>
        missingEquals ("--out-extension:" +:+ v)
          (lit ("You need to use either `--out-extension:.js=...` or `--out-extension:.css=...` "
                +:+ "to specify the file type that the output extension applies to ."))
    end.
Proof.
  rewrite keyValueOf_append. run_switch. unfold keyValue. rewrite after_append.
  by destruct (strings.IndexByte v "=").
Qed.

(** *** The rounds of the list flags *)

Lemma step_build_external b h m v :
  step (mkState (Some b) None h m) ("--external:" +:+ v)
  = Continue (mkState
      (Some (BuildOptions.set_External (BuildOptions.External b ++ [v]) b)) None h m).
Proof. run_switch. rewrite after_append. reflexivity. Qed.

Lemma step_build_inject b h m v :
  step (mkState (Some b) None h m) ("--inject:" +:+ v)
  = Continue (mkState
      (Some (BuildOptions.set_Inject (BuildOptions.Inject b ++ [v]) b)) None h m).
Proof. run_switch. rewrite after_append. reflexivity. Qed.

Lemma step_build_pure b h m v :
  step (mkState (Some b) None h m) ("--pure:" +:+ v)
  = Continue (mkState
      (Some (BuildOptions.set_Pure (BuildOptions.Pure b ++ [v]) b)) None h m).
Proof. run_switch. rewrite after_append. reflexivity. Qed.

Lemma step_transform_pure t h m v :
  step (mkState None (Some t) h m) ("--pure:" +:+ v)
  = Continue (mkState None
      (Some (TransformOptions.set_Pure (TransformOptions.Pure t ++ [v]) t)) h m).
Proof. run_switch. rewrite after_append. reflexivity. Qed.

Lemma step_build_target b h m v :
  step (mkState (Some b) None h m) ("--target=" +:+ v)
  = match parseTargets (splitWithEmptyCheck v ",") ("--target=" +:+ v) with
    | (_, _, Some err) => Return err
    | (target, engines, None) =>
        Continue (mkState
          (Some (BuildOptions.set_Engines engines (BuildOptions.set_Target target b)))
          None h m)
    end.
Proof. run_switch. rewrite after_append. reflexivity. Qed.

Lemma step_transform_target t h m v :
  step (mkState None (Some t) h m) ("--target=" +:+ v)
  = match parseTargets (splitWithEmptyCheck v ",") ("--target=" +:+ v) with
    | (_, _, Some err) => Return err
    | (target, engines, None) =>
        Continue (mkState None
          (Some (TransformOptions.set_Engines engines (TransformOptions.set_Target target t)))
          h m)
    end.
Proof. run_switch. rewrite after_append. reflexivity. Qed.

End Collections.

(** ** Entry points *)

Lemma no_dash_eqb (arg s : string) :
  strings.HasPrefix arg "-" = false -> String.eqb arg (String "-" s) = false.
Proof.
  intros H. apply String.eqb_neq. intros ->.
  by vm_compute in H.
Qed.

Lemma no_dash_prefix (arg s : string) :
  strings.HasPrefix arg "-" = false -> strings.HasPrefix arg (String "-" s) = false.
Proof.
  intros H. destruct (strings.HasPrefix arg (String "-" s)) eqn:E; [|done].
  rewrite (HasPrefix_trans arg (String "-" s) "-" E) in H; [done|].
  by vm_compute.
Qed.

Section EntryPoints.

Variable ParseLoader : string -> api.Loader + ErrorWithNote.

Local Abbreviation step := (step ParseLoader kindInternal).
Local Abbreviation loop := (loop ParseLoader kindInternal).

(** An argument without a leading dash is an entry point of a build,
    unless it starts with a single quote before two dashes. *)
Lemma step_build_entry b h m arg :
  strings.HasPrefix arg "-" = false ->
  strings.HasPrefix arg "'--" = false ->
  step (mkState (Some b) None h m) arg
  = match strings.IndexByte arg "=" with
    | Some i =>
        Continue (mkState
          (Some (BuildOptions.set_EntryPointsAdvanced
                   (BuildOptions.EntryPointsAdvanced b ++
                      [{| api.InputPath := strings.sliceFrom (i + 1) arg;
                          api.OutputPath := strings.sliceTo i arg |}]) b))
          None h m)
    | None =>
        Continue (mkState
          (Some (BuildOptions.set_EntryPoints (BuildOptions.EntryPoints b ++ [arg]) b))
          None h m)
    end.
Proof.
  intros Hdash Hquote. unfold step.
  rewrite !(no_dash_eqb arg) by done.
  rewrite !(no_dash_prefix arg) by done.
  rewrite Hquote. cbn [andb negb hasBuild buildOpts].
  by destruct (strings.IndexByte arg "=").
Qed.

Lemma step_build_quoted b h m arg :
  strings.HasPrefix arg "'--" = true ->
  exists e, step (mkState (Some b) None h m) arg = Return e.
Proof.
  intros Hquote.
  assert (strings.HasPrefix arg "-" = false) as Hdash.
  { rewrite (HasPrefix_split _ _ Hquote). reflexivity. }
  unfold step.
  rewrite !(no_dash_eqb arg) by done.
  rewrite !(no_dash_prefix arg) by done.
  rewrite Hquote. cbn [andb negb hasBuild buildOpts]. eauto.
Qed.

End EntryPoints.

(** ** The collections after the loop *)

Section CollectionFolds.

Variable ParseLoader : string -> api.Loader + ErrorWithNote.

Local Abbreviation step := (step ParseLoader kindInternal).
Local Abbreviation loop := (loop ParseLoader kindInternal).

(** A map field of a build that the [prefix key=value] arguments assign *)
Lemma loop_build_map (proj : BuildOptions.t -> gmap string string) (p : string) :
  (forall arg f hf, strings.HasPrefix arg p = false -> buildFrames arg f hf ->
     forall b, proj (f b) = proj b) ->
  (forall b h m v st',
     step (mkState (Some b) None h m) (p +:+ v) = Continue st' ->
     exists b', buildOpts st' = Some b'
       /\ proj b' = match keyValueOf p (p +:+ v) with
                    | Some kv => <[fst kv := snd kv]> (proj b)
                    | None => proj b
                    end) ->
  forall args b h m st',
    loop (mkState (Some b) None h m) args = Done st' ->
    exists b', buildOpts st' = Some b'
      /\ proj b' = assign (proj b) (assignments p args).
Proof.
  intros Hframe Hupd args b h m st' Hl.
  destruct (loop_build_fold ParseLoader proj
              (fun arg => strings.HasPrefix arg p)
              (fun arg mp => match keyValueOf p arg with
                             | Some kv => <[fst kv := snd kv]> mp
                             | None => mp
                             end))
    with (args := args) (b := b) (h := h) (m := m) (st' := st')
    as (b' & Hb' & Hp); [done| |done|].
  - intros arg b0 h0 m0 st0 Hflag. rewrite (HasPrefix_split _ _ Hflag). apply Hupd.
  - exists b'. split; [done|]. rewrite Hp. unfold assign, assignments.
    rewrite <- foldl_omap. apply foldl_ext_fun. intros mp arg.
    destruct (strings.HasPrefix arg p) eqn:E; [done|].
    by rewrite keyValueOf_other.
Qed.

(** A list field of a build that the [prefix value] arguments extend *)
Lemma loop_build_list (proj : BuildOptions.t -> list string) (p : string) :
  (forall arg f hf, strings.HasPrefix arg p = false -> buildFrames arg f hf ->
     forall b, proj (f b) = proj b) ->
  (forall b h m v st',
     step (mkState (Some b) None h m) (p +:+ v) = Continue st' ->
     exists b', buildOpts st' = Some b' /\ proj b' = proj b ++ [v]) ->
  forall args b h m st',
    loop (mkState (Some b) None h m) args = Done st' ->
    exists b', buildOpts st' = Some b' /\ proj b' = proj b ++ valuesOf p args.
Proof.
  intros Hframe Hupd args b h m st' Hl.
  destruct (loop_build_fold ParseLoader proj
              (fun arg => strings.HasPrefix arg p)
              (fun arg l => l ++ [after p arg]))
    with (args := args) (b := b) (h := h) (m := m) (st' := st')
    as (b' & Hb' & Hp); [done| |done|].
  - intros arg b0 h0 m0 st0 Hflag. rewrite (HasPrefix_split _ _ Hflag) at 1.
    apply Hupd.
  - exists b'. split; [done|]. rewrite Hp. apply foldl_append_values.
Qed.

Ltac map_round eqn :=
  let b := fresh "b" in let h := fresh "h" in let m := fresh "m" in
  let v := fresh "v" in let st := fresh "st" in
  intros b h m v st; rewrite eqn;
  destruct (keyValueOf _ _) as [[? ?]|];
  [intros [= <-]; eexists; split; reflexivity | discriminate].

Ltac list_round eqn :=
  let b := fresh "b" in let h := fresh "h" in let m := fresh "m" in
  let v := fresh "v" in let st := fresh "st" in
  intros b h m v st; rewrite eqn; intros [= <-]; eexists; split; reflexivity.

Lemma loop_build_Define args b h m st' :
  loop (mkState (Some b) None h m) args = Done st' ->
  exists b', buildOpts st' = Some b'
    /\ BuildOptions.Define b' = assign (BuildOptions.Define b) (assignments "--define:" args).
Proof.
  apply (loop_build_map BuildOptions.Define "--define:").
  - intros arg f hf Hflag Hfr. by apply Hfr.
  - map_round step_build_define.
Qed.

Lemma loop_build_Banner args b h m st' :
  loop (mkState (Some b) None h m) args = Done st' ->
  exists b', buildOpts st' = Some b'
    /\ BuildOptions.Banner b' = assign (BuildOptions.Banner b) (assignments "--banner:" args).
Proof.
  apply (loop_build_map BuildOptions.Banner "--banner:").
  - intros arg f hf Hflag Hfr. by apply Hfr.
  - map_round step_build_banner.
Qed.

Lemma loop_build_Footer args b h m st' :
  loop (mkState (Some b) None h m) args = Done st' ->
  exists b', buildOpts st' = Some b'
    /\ BuildOptions.Footer b' = assign (BuildOptions.Footer b) (assignments "--footer:" args).
Proof.
  apply (loop_build_map BuildOptions.Footer "--footer:").
  - intros arg f hf Hflag Hfr. by apply Hfr.
  - map_round step_build_footer.
Qed.

(** [OutExtensions] is made by its first assignment; read as a map, a nil
    map is the empty one. *)
Lemma loop_build_OutExtensions args b h m st' :
  loop (mkState (Some b) None h m) args = Done st' ->
  exists b', buildOpts st' = Some b'
    /\ default ∅ (BuildOptions.OutExtensions b')
       = assign (default ∅ (BuildOptions.OutExtensions b))
           (assignments "--out-extension:" args).
Proof.
  apply (loop_build_map (fun b => default ∅ (BuildOptions.OutExtensions b))
           "--out-extension:").
  - intros arg f hf Hflag Hfr b0. f_equal. by apply Hfr.
  - map_round step_build_out_extension.
Qed.

Lemma loop_build_Loader args b h m st' :
  loop (mkState (Some b) None h m) args = Done st' ->
  exists b', buildOpts st' = Some b'
    /\ BuildOptions.Loader b'
       = assign (BuildOptions.Loader b) (loaderAssignments ParseLoader args).
Proof.
  intros Hl.
  pose (parsed := fun arg =>
          match keyValueOf "--loader:" arg with
          | Some (ext, text) =>
              match ParseLoader text with
              | inl loader => Some (ext, loader)
              | inr _ => None
              end
          | None => None
          end).
  destruct (loop_build_fold ParseLoader BuildOptions.Loader
              (fun arg => strings.HasPrefix arg "--loader:")
              (fun arg mp => match parsed arg with
                             | Some kv => <[fst kv := snd kv]> mp
                             | None => mp
                             end))
    with (args := args) (b := b) (h := h) (m := m) (st' := st')
    as (b' & Hb' & Hp); [| |done|].
  - intros arg f hf Hflag Hfr. by apply Hfr.
  - intros arg b0 h0 m0 st0 Hflag. rewrite (HasPrefix_split _ _ Hflag).
    rewrite step_build_loader. unfold parsed.
    destruct (keyValueOf _ _) as [[ext text]|]; [|discriminate].
    destruct (ParseLoader text); [|discriminate].
    intros [= <-]. eexists. split; reflexivity.
  - exists b'. split; [done|]. rewrite Hp. unfold assign, loaderAssignments.
    fold parsed. rewrite <- foldl_omap. apply foldl_ext_fun. intros mp arg.
    destruct (strings.HasPrefix arg "--loader:") eqn:E; [done|].
    unfold parsed. by rewrite keyValueOf_other.
Qed.

Lemma loop_build_External args b h m st' :
  loop (mkState (Some b) None h m) args = Done st' ->
  exists b', buildOpts st' = Some b'
    /\ BuildOptions.External b' = BuildOptions.External b ++ valuesOf "--external:" args.
Proof.
  apply (loop_build_list BuildOptions.External "--external:").
  - intros arg f hf Hflag Hfr. by apply Hfr.
  - list_round step_build_external.
Qed.

Lemma loop_build_Inject args b h m st' :
  loop (mkState (Some b) None h m) args = Done st' ->
  exists b', buildOpts st' = Some b'
    /\ BuildOptions.Inject b' = BuildOptions.Inject b ++ valuesOf "--inject:" args.
Proof.
  apply (loop_build_list BuildOptions.Inject "--inject:").
  - intros arg f hf Hflag Hfr. by apply Hfr.
  - list_round step_build_inject.
Qed.

Lemma loop_build_Pure args b h m st' :
  loop (mkState (Some b) None h m) args = Done st' ->
  exists b', buildOpts st' = Some b'
    /\ BuildOptions.Pure b' = BuildOptions.Pure b ++ valuesOf "--pure:" args.
Proof.
  apply (loop_build_list BuildOptions.Pure "--pure:").
  - intros arg f hf Hflag Hfr. by apply Hfr.
  - list_round step_build_pure.
Qed.

Lemma loop_build_Target args b h m st' :
  loop (mkState (Some b) None h m) args = Done st' ->
  exists b', buildOpts st' = Some b'
    /\ (BuildOptions.Target b', BuildOptions.Engines b')
       = match last (List.filter (fun a => strings.HasPrefix a "--target=") args) with
         | Some arg => fst (parseTargets (splitWithEmptyCheck (after "--target=" arg) ",") arg)
         | None => (BuildOptions.Target b, BuildOptions.Engines b)
         end.
Proof.
  intros Hl.
  destruct (loop_build_fold ParseLoader
              (fun b => (BuildOptions.Target b, BuildOptions.Engines b))
              (fun arg => strings.HasPrefix arg "--target=")
              (fun arg _ => fst (parseTargets (splitWithEmptyCheck (after "--target=" arg) ",") arg)))
    with (args := args) (b := b) (h := h) (m := m) (st' := st')
    as (b' & Hb' & Hp); [| |done|].
  - intros arg f hf Hflag Hfr b0.
    destruct Hfr as (_ & _ & _ & _ & _ & _ & _ & _ & _ & _ & _ & _ & Ht).
    destruct (Ht Hflag b0) as [-> ->]. done.
  - intros arg b0 h0 m0 st0 Hflag. rewrite (HasPrefix_split _ _ Hflag).
    rewrite step_build_target, after_append.
    destruct (parseTargets _ _) as [[t e] [err|]]; [discriminate|].
    intros [= <-]. eexists. split; reflexivity.
  - exists b'. split; [done|]. rewrite Hp. apply foldl_last_wins.
Qed.

Lemma loop_build_EntryPoints args b h m st' :
  loop (mkState (Some b) None h m) args = Done st' ->
  exists b', buildOpts st' = Some b'
    /\ BuildOptions.EntryPoints b' = BuildOptions.EntryPoints b ++ entryPointsOf args
    /\ BuildOptions.EntryPointsAdvanced b'
       = BuildOptions.EntryPointsAdvanced b ++ advancedOf args.
Proof.
  intros Hl.
  pose (upd := fun (arg : string) (p : list string * list api.EntryPoint) =>
          match strings.IndexByte arg "=" with
          | Some i => (fst p, snd p ++ [{| api.InputPath := strings.sliceFrom (i + 1) arg;
                                           api.OutputPath := strings.sliceTo i arg |}])
          | None => (fst p ++ [arg], snd p)
          end).
  destruct (loop_build_fold ParseLoader
              (fun b => (BuildOptions.EntryPoints b, BuildOptions.EntryPointsAdvanced b))
              (fun arg => negb (strings.HasPrefix arg "-")) upd)
    with (args := args) (b := b) (h := h) (m := m) (st' := st')
    as (b' & Hb' & Hp); [| |done|].
  - intros arg f hf Hflag Hfr b0.
    destruct Hfr as (_ & _ & _ & _ & _ & _ & _ & _ & _ & _ & _ & He & _).
    destruct (He Hflag b0) as [-> ->]. done.
  - intros arg b0 h0 m0 st0 Hflag%negb_true_iff Hs.
    destruct (strings.HasPrefix arg "'--") eqn:Hq.
    + destruct (step_build_quoted ParseLoader b0 h0 m0 arg Hq) as [e He]. congruence.
    + rewrite step_build_entry in Hs by done. unfold upd.
      destruct (strings.IndexByte arg "="); injection Hs as <-;
        eexists; split; reflexivity.
  - exists b'. split; [done|].
    assert (forall l p,
              foldl (fun a arg => if negb (strings.HasPrefix arg "-") then upd arg a else a) p l
              = (fst p ++ entryPointsOf l, snd p ++ advancedOf l)) as Hfold.
    { induction l as [|a l IH]; intros [eps adv].
      - cbn. by rewrite !app_nil_r.
      - cbn [foldl]. rewrite IH. unfold entryPointsOf, advancedOf, upd, hasEquals.
        cbn [List.filter omap list_omap fst snd].
        destruct (strings.HasPrefix a "-"); cbn [negb andb]; [done|].
        destruct (strings.IndexByte a "="); cbn [negb fst snd];
          by rewrite <- app_assoc. }
    rewrite Hfold in Hp. by injection Hp as -> ->.
Qed.

(** *** The collections of a transform *)

Lemma loop_transform_Define args t h m st' :
  loop (mkState None (Some t) h m) args = Done st' ->
  exists t', transformOpts st' = Some t'
    /\ TransformOptions.Define t'
       = assign (TransformOptions.Define t) (assignments "--define:" args).
Proof.
  intros Hl.
  destruct (loop_transform_fold ParseLoader TransformOptions.Define
              (fun arg => strings.HasPrefix arg "--define:")
              (fun arg mp => match keyValueOf "--define:" arg with
                             | Some kv => <[fst kv := snd kv]> mp
                             | None => mp
                             end))
    with (args := args) (t := t) (h := h) (m := m) (st' := st')
    as (t' & Ht' & Hp); [| |done|].
  - intros arg g Hflag Hfr. by apply Hfr.
  - intros arg t0 h0 m0 st0 Hflag. rewrite (HasPrefix_split _ _ Hflag).
    rewrite step_transform_define.
    destruct (keyValueOf _ _) as [[? ?]|]; [|discriminate].
    intros [= <-]. eexists. split; reflexivity.
  - exists t'. split; [done|]. rewrite Hp. unfold assign, assignments.
    rewrite <- foldl_omap. apply foldl_ext_fun. intros mp arg.
    destruct (strings.HasPrefix arg "--define:") eqn:E; [done|].
    by rewrite keyValueOf_other.
Qed.

Lemma loop_transform_Pure args t h m st' :
  loop (mkState None (Some t) h m) args = Done st' ->
  exists t', transformOpts st' = Some t'
    /\ TransformOptions.Pure t' = TransformOptions.Pure t ++ valuesOf "--pure:" args.
Proof.
  intros Hl.
  destruct (loop_transform_fold ParseLoader TransformOptions.Pure
              (fun arg => strings.HasPrefix arg "--pure:")
              (fun arg l => l ++ [after "--pure:" arg]))
    with (args := args) (t := t) (h := h) (m := m) (st' := st')
    as (t' & Ht' & Hp); [| |done|].
  - intros arg g Hflag Hfr. by apply Hfr.
  - intros arg t0 h0 m0 st0 Hflag. rewrite (HasPrefix_split _ _ Hflag) at 1.
    rewrite step_transform_pure. intros [= <-]. eexists. split; reflexivity.
  - exists t'. split; [done|]. rewrite Hp. apply foldl_append_values.
Qed.

Lemma loop_transform_Target args t h m st' :
  loop (mkState None (Some t) h m) args = Done st' ->
  exists t', transformOpts st' = Some t'
    /\ (TransformOptions.Target t', TransformOptions.Engines t')
       = match last (List.filter (fun a => strings.HasPrefix a "--target=") args) with
         | Some arg => fst (parseTargets (splitWithEmptyCheck (after "--target=" arg) ",") arg)
         | None => (TransformOptions.Target t, TransformOptions.Engines t)
         end.
Proof.
  intros Hl.
  destruct (loop_transform_fold ParseLoader
              (fun t => (TransformOptions.Target t, TransformOptions.Engines t))
              (fun arg => strings.HasPrefix arg "--target=")
              (fun arg _ => fst (parseTargets (splitWithEmptyCheck (after "--target=" arg) ",") arg)))
    with (args := args) (t := t) (h := h) (m := m) (st' := st')
    as (t' & Ht' & Hp); [| |done|].
  - intros arg g Hflag Hfr t0.
    destruct Hfr as (_ & _ & _ & Ht & _).
    destruct (Ht Hflag t0) as [-> ->]. done.
  - intros arg t0 h0 m0 st0 Hflag. rewrite (HasPrefix_split _ _ Hflag).
    rewrite step_transform_target, after_append.
    destruct (parseTargets _ _) as [[tg e] [err|]]; [discriminate|].
    intros [= <-]. eexists. split; reflexivity.
  - exists t'. split; [done|]. rewrite Hp. apply foldl_last_wins.
Qed.

End CollectionFolds.

Section Collected.

Variable ParseLoader : string -> api.Loader + ErrorWithNote.

Local Abbreviation loop := (loop ParseLoader kindInternal).

Lemma lookup_assign_empty {V : Type} (kvs : list (string * V)) (key : string) :
  assign ∅ kvs !! key = lastAssigned key kvs.
Proof. rewrite lookup_assign. by destruct (lastAssigned key kvs). Qed.

(** C5 (as amended). In the options a build returns, each map field holds
    for a key the value of the last assignment to the key, and each of
    the lists of external packages, injected files, pure names and entry
    points holds its values in the order of the arguments, duplicates
    kept; the baseline and the engine list are those of the last
    ["--target="] argument alone. A transform returns its defines, pure
    names and target in the same way. With the loaders text and json
    known, [--loader:.txt=text --loader:.txt=json] in a build leaves the
    json loader for [.txt]. *)
Theorem collections_last_wins_and_append (osArgs : list string) :
  (forall o mf,
     parseOptionsForRun ParseLoader osArgs = Some (mkRunResult (Some o) mf None None) ->
     (forall key, BuildOptions.Define o !! key
                  = lastAssigned key (assignments "--define:" osArgs))
     /\ (forall key, BuildOptions.Loader o !! key
                     = lastAssigned key (loaderAssignments ParseLoader osArgs))
     /\ (forall key, BuildOptions.Banner o !! key
                     = lastAssigned key (assignments "--banner:" osArgs))
     /\ (forall key, BuildOptions.Footer o !! key
                     = lastAssigned key (assignments "--footer:" osArgs))
     /\ (forall key, default ∅ (BuildOptions.OutExtensions o) !! key
                     = lastAssigned key (assignments "--out-extension:" osArgs))
     /\ BuildOptions.External o = valuesOf "--external:" osArgs
     /\ BuildOptions.Inject o = valuesOf "--inject:" osArgs
     /\ BuildOptions.Pure o = valuesOf "--pure:" osArgs
     /\ BuildOptions.EntryPoints o = entryPointsOf osArgs
     /\ BuildOptions.EntryPointsAdvanced o = advancedOf osArgs
     /\ (BuildOptions.Target o, BuildOptions.Engines o) = targetOf osArgs)
  /\ (forall t,
        parseOptionsForRun ParseLoader osArgs = Some (mkRunResult None None (Some t) None) ->
        (forall key, TransformOptions.Define t !! key
                     = lastAssigned key (assignments "--define:" osArgs))
        /\ TransformOptions.Pure t = valuesOf "--pure:" osArgs
        /\ (TransformOptions.Target t, TransformOptions.Engines t) = targetOf osArgs)
  /\ (forall key v kvs, lastAssigned (V := string) key (kvs ++ [(key, v)]) = Some v)
  /\ (ParseLoader "text" = inl api.LoaderText ->
      ParseLoader "json" = inl api.LoaderJSON ->
      exists o,
        parseOptionsForRun ParseLoader ["--bundle"; "--loader:.txt=text"; "--loader:.txt=json"]
        = Some (mkRunResult (Some o) None None None)
        /\ BuildOptions.Loader o !! ".txt" = Some api.LoaderJSON).
Proof.
  split; [|split; [|split]].
  - intros o mf Hrun. apply run_build_inv in Hrun as (st & Hl & Ho).
    unfold initState in Hl.
    destruct (loop_build_Define _ _ _ _ _ _ Hl) as (b' & Hb' & HDefine).
    destruct (loop_build_Loader _ _ _ _ _ _ Hl) as (? & E & HLoader);
      rewrite Hb' in E; injection E as <-.
    destruct (loop_build_Banner _ _ _ _ _ _ Hl) as (? & E & HBanner);
      rewrite Hb' in E; injection E as <-.
    destruct (loop_build_Footer _ _ _ _ _ _ Hl) as (? & E & HFooter);
      rewrite Hb' in E; injection E as <-.
    destruct (loop_build_OutExtensions _ _ _ _ _ _ Hl) as (? & E & HOut);
      rewrite Hb' in E; injection E as <-.
    destruct (loop_build_External _ _ _ _ _ _ Hl) as (? & E & HExternal);
      rewrite Hb' in E; injection E as <-.
    destruct (loop_build_Inject _ _ _ _ _ _ Hl) as (? & E & HInject);
      rewrite Hb' in E; injection E as <-.
    destruct (loop_build_Pure _ _ _ _ _ _ Hl) as (? & E & HPure);
      rewrite Hb' in E; injection E as <-.
    destruct (loop_build_EntryPoints _ _ _ _ _ _ Hl) as (? & E & HEntry & HAdv);
      rewrite Hb' in E; injection E as <-.
    destruct (loop_build_Target _ _ _ _ _ _ Hl) as (? & E & HTarget);
      rewrite Hb' in E; injection E as <-.
    rewrite (reconcile_build st b' Hb') in Ho.
    assert (BuildOptions.Define o = BuildOptions.Define b'
            /\ BuildOptions.Loader o = BuildOptions.Loader b'
            /\ BuildOptions.Banner o = BuildOptions.Banner b'
            /\ BuildOptions.Footer o = BuildOptions.Footer b'
            /\ BuildOptions.OutExtensions o = BuildOptions.OutExtensions b'
            /\ BuildOptions.External o = BuildOptions.External b'
            /\ BuildOptions.Inject o = BuildOptions.Inject b'
            /\ BuildOptions.Pure o = BuildOptions.Pure b'
            /\ BuildOptions.EntryPoints o = BuildOptions.EntryPoints b'
            /\ BuildOptions.EntryPointsAdvanced o = BuildOptions.EntryPointsAdvanced b'
            /\ BuildOptions.Target o = BuildOptions.Target b'
            /\ BuildOptions.Engines o = BuildOptions.Engines b')
      as (-> & -> & -> & -> & -> & -> & -> & -> & -> & -> & -> & ->).
    { destruct (_ && _); injection Ho as <-; repeat split. }
    rewrite HDefine, HLoader, HBanner, HFooter, HOut, HExternal, HInject, HPure,
      HEntry, HAdv, HTarget.
    repeat split; try (intros key; apply lookup_assign_empty).
  - intros t Hrun. apply run_transform_inv in Hrun as (st & Hl & Ht).
    unfold initState in Hl.
    destruct (loop_transform_Define _ _ _ _ _ _ Hl) as (t' & Ht' & HDefine).
    rewrite Ht in Ht'. injection Ht' as <-.
    destruct (loop_transform_Pure _ _ _ _ _ _ Hl) as (? & E & HPure);
      rewrite Ht in E; injection E as <-.
    destruct (loop_transform_Target _ _ _ _ _ _ Hl) as (? & E & HTarget);
      rewrite Ht in E; injection E as <-.
    rewrite HDefine, HPure, HTarget.
    repeat split. intros key. apply lookup_assign_empty.
  - intros key v kvs. apply lastAssigned_snoc.
  - intros Htext Hjson.
    rewrite parseOptionsForRun_mode.
    change (modeOf ["--bundle"; "--loader:.txt=text"; "--loader:.txt=json"]) with Build.
    rewrite runAsBuild_loop. unfold initState.
    rewrite loop_cons.
    assert (step ParseLoader kindInternal (mkState (Some buildDefaults) None false None) "--bundle"
            = Continue (mkState (Some (BuildOptions.set_Bundle true buildDefaults)) None false None))
      as -> by (run_switch; reflexivity).
    rewrite loop_cons.
    change "--loader:.txt=text" with ("--loader:" +:+ ".txt=text").
    rewrite step_build_loader.
    change (keyValueOf "--loader:" ("--loader:" +:+ ".txt=text")) with (Some (".txt", "text")).
    cbv beta iota. rewrite Htext, loop_cons.
    change "--loader:.txt=json" with ("--loader:" +:+ ".txt=json").
    rewrite step_build_loader.
    change (keyValueOf "--loader:" ("--loader:" +:+ ".txt=json")) with (Some (".txt", "json")).
    cbv beta iota. rewrite Hjson.
    eexists. split; [reflexivity|]. cbn. apply lookup_insert_eq.
Qed.

End Collected.

(** C5, the claim as stated fails: a second ["--target="] argument does not
    append its engine to the list, it replaces the list of the first. *)
Lemma target_flags_replace_engines :
  exists o,
    parseOptionsForRun ParseLoader ["entry.js"; "--target=chrome80"; "--target=firefox70"]
    = Some (mkRunResult (Some o) None None None)
    /\ BuildOptions.Engines o
       = [{| api.Name := api.EngineFirefox; api.Version := "70" |}]
    /\ BuildOptions.Engines o
       <> [{| api.Name := api.EngineChrome; api.Version := "80" |};
           {| api.Name := api.EngineFirefox; api.Version := "70" |}].
Proof.
  eexists. split; [vm_compute; reflexivity|]. split; [reflexivity|discriminate].
Qed.

(** ** parseTargets *)

Lemma HasPrefix_cons (c d : ascii) (p r : string) :
  strings.HasPrefix (String d r) (String c p)
  = Ascii.eqb c d && strings.HasPrefix r p.
Proof. reflexivity. Qed.

Lemma HasPrefix_comparable (s p1 p2 : string) :
  strings.HasPrefix s p1 = true -> strings.HasPrefix s p2 = true ->
  strings.HasPrefix p1 p2 = true \/ strings.HasPrefix p2 p1 = true.
Proof.
  revert s p2. induction p1 as [|c1 p1 IH]; intros s p2 H1 H2.
  - right. by destruct p2.
  - destruct p2 as [|c2 p2]; [by left|].
    destruct s as [|d s]; [discriminate|].
    rewrite HasPrefix_cons in H1, H2.
    apply andb_true_iff in H1 as [E1%Ascii.eqb_eq H1].
    apply andb_true_iff in H2 as [E2%Ascii.eqb_eq H2]. subst.
    rewrite !HasPrefix_cons, Ascii.eqb_refl. cbn [andb]. eauto.
Qed.

(** No engine name is a prefix of another one. *)
Lemma validEngines_prefix_free :
  Forall (fun kv1 =>
    Forall (fun kv2 : string * api.EngineName =>
      strings.HasPrefix (fst kv1) (fst kv2) = true -> kv1 = kv2) validEngines)
    validEngines.
Proof. repeat constructor; by vm_compute. Qed.

Lemma validEngines_one_prefix value kv1 kv2 :
  In kv1 validEngines -> In kv2 validEngines ->
  strings.HasPrefix value (fst kv1) = true ->
  strings.HasPrefix value (fst kv2) = true ->
  kv1 = kv2.
Proof.
  intros Hin1 Hin2 H1 H2.
  pose proof validEngines_prefix_free as Hfree.
  rewrite List.Forall_forall in Hfree.
  destruct (HasPrefix_comparable _ _ _ H1 H2) as [H|H].
  - specialize (Hfree kv1 Hin1). rewrite List.Forall_forall in Hfree. by apply Hfree.
  - specialize (Hfree kv2 Hin2). rewrite List.Forall_forall in Hfree.
    symmetry. by apply Hfree.
Qed.

(** The inner loop over a list in which at most one key is a prefix of
    the value *)
Lemma engineLoop_unique order value :
  (forall kv1 kv2, In kv1 order -> In kv2 order ->
     strings.HasPrefix value (fst kv1) = true ->
     strings.HasPrefix value (fst kv2) = true -> kv1 = kv2) ->
  (forall kv, In kv order -> strings.HasPrefix value (fst kv) = true ->
     engineLoop order value = engineEntry kv value)
  /\ ((forall kv, In kv order -> strings.HasPrefix value (fst kv) = false) ->
      engineLoop order value = NoEngine).
Proof.
  induction order as [|[engine name] order IH]; intros Huniq.
  - split; [by intros ? []|done].
  - destruct IH as [IH1 IH2].
    { intros kv1 kv2 ? ? ? ?. apply Huniq; by try right. }
    cbn [engineLoop]. destruct (strings.HasPrefix value engine) eqn:E.
    + split.
      * intros kv Hin Hkv.
        assert ((engine, name) = kv) as <-; [|done].
        apply Huniq; [by left|done|done|done].
      * intros Hnone. specialize (Hnone (engine, name) (or_introl eq_refl)).
        cbn in Hnone. congruence.
    + split.
      * intros kv [<-|Hin] Hkv; [cbn in Hkv; congruence|]. by apply IH1.
      * intros Hnone. apply IH2. intros kv Hin. apply Hnone. by right.
Qed.

(** The inner loop finds the same whatever the order in which Go visits
    the table of engines. *)
Lemma engineLoop_order order value :
  order ≡ₚ validEngines ->
  engineLoop order value = engineLoop validEngines value.
Proof.
  intros Hperm.
  assert (forall kv, In kv order <-> In kv validEngines) as Hin.
  { intros kv. rewrite <- !list_elem_of_In. by rewrite Hperm. }
  destruct (engineLoop_unique order value) as [Ho1 Ho2].
  { intros kv1 kv2 ?%Hin ?%Hin. by apply validEngines_one_prefix. }
  destruct (engineLoop_unique validEngines value) as [Hv1 Hv2].
  { intros kv1 kv2. by apply validEngines_one_prefix. }
  destruct (List.existsb (fun kv => strings.HasPrefix value (fst kv)) validEngines) eqn:E.
  - apply List.existsb_exists in E as (kv & Hkv & Hp).
    rewrite (Ho1 kv), (Hv1 kv); try done. by apply Hin.
  - assert (forall kv, In kv validEngines -> strings.HasPrefix value (fst kv) = false) as Hnone.
    { intros kv Hkv. destruct (strings.HasPrefix value (fst kv)) eqn:Hp; [|done].
      assert (List.existsb (fun kv => strings.HasPrefix value (fst kv)) validEngines = true)
        as E' by (apply List.existsb_exists; eauto).
      congruence. }
    rewrite Ho2, Hv2; try done. intros kv ?%Hin. by apply Hnone.
Qed.

Lemma engineLoop_found value e :
  engineLoop validEngines value = FoundEngine e <-> engineToken value e.
Proof.
  destruct (engineLoop_unique validEngines value) as [Hv1 Hv2].
  { intros kv1 kv2. by apply validEngines_one_prefix. }
  split.
  - intros Hfound.
    destruct (List.existsb (fun kv => strings.HasPrefix value (fst kv)) validEngines) eqn:E.
    + apply List.existsb_exists in E as ([engine name] & Hkv & Hp).
      rewrite (Hv1 _ Hkv Hp) in Hfound. unfold engineEntry in Hfound. cbn [fst snd] in Hfound.
      destruct (String.eqb_spec (strings.sliceFrom (strings.len engine) value) EmptyString)
        as [|Hne]; [done|].
      injection Hfound as <-. econstructor; [exact Hkv| |done].
      by apply HasPrefix_split.
    + rewrite Hv2 in Hfound; [done|].
      intros kv Hkv. destruct (strings.HasPrefix value (fst kv)) eqn:Hp; [|done].
      assert (List.existsb (fun kv => strings.HasPrefix value (fst kv)) validEngines = true)
        as E' by (apply List.existsb_exists; eauto).
      congruence.
  - intros [engine name version Hin -> Hne].
    rewrite (Hv1 (engine, name) Hin); [|apply HasPrefix_append].
    unfold engineEntry. cbn [fst snd]. fold (after engine (engine +:+ version)).
    rewrite after_append.
    by destruct (String.eqb_spec version EmptyString).
Qed.

(** The sorted forms of the note do not depend on the order of the visit
    either. *)
Lemma validForms_order order :
  order ≡ₚ validEngines -> validForms order = validForms validEngines.
Proof.
  intros Hperm. unfold validForms.
  apply (Sorted_unique String.le); try apply Sorted_merge_sort; try apply _.
  rewrite !merge_sort_Permutation. by rewrite Hperm.
Qed.

Section ParseTargets.

Lemma parseTargetsLoop_ok targets arg target engines :
  Forall (fun v => tokenOk v = true) targets ->
  parseTargetsLoop targets arg target engines
  = (default target (last (omap baselineOf targets)),
     engines ++ omap engineOf targets, None).
Proof.
  intros Hok. revert target engines.
  induction Hok as [|value targets Hv Hrest IH]; intros target engines.
  - cbn. by rewrite app_nil_r.
  - cbn [parseTargetsLoop omap list_omap]. fold (baselineOf value).
    unfold tokenOk, engineOf in Hv. unfold engineOf at 1.
    destruct (baselineOf value) as [valid|] eqn:Hb.
    + rewrite IH. f_equal. f_equal.
      fold (omap baselineOf targets).
      destruct (omap baselineOf targets) as [|y l] eqn:E; [done|].
      rewrite last_cons_cons.
      destruct (last (y :: l)) eqn:E'; [done|]. by apply last_None in E'.
    + destruct (engineLoop validEngines value) as [| |e']; try done.
      rewrite IH. fold (omap engineOf targets). by rewrite <- app_assoc.
Qed.

Lemma parseTargetsLoop_first_bad pre value post arg target engines :
  Forall (fun v => tokenOk v = true) pre ->
  baselineOf value = None ->
  parseTargetsLoop (pre ++ value :: post) arg target engines
  = match engineLoop validEngines value with
    | MissingVersion =>
        (api.DefaultTarget, [],
         Some (MakeErrorWithNote
           ("Target " +:+ q value +:+ " is missing a version number in " +:+ q arg)
           EmptyString))
    | FoundEngine e =>
        parseTargetsLoop post arg
          (default target (last (omap baselineOf pre)))
          (engines ++ omap engineOf pre ++ [e])
    | NoEngine =>
        (api.DefaultTarget, [],
         Some (MakeErrorWithNote
           ("Invalid target " +:+ q value +:+ " in " +:+ q arg)
           (invalidTargetNote validEngines)))
    end.
Proof.
  intros Hok Hb. revert target engines.
  induction Hok as [|v pre Hv Hrest IH]; intros target engines.
  - cbn [app parseTargetsLoop]. fold (baselineOf value). rewrite Hb.
    by destruct (engineLoop validEngines value).
  - cbn [app parseTargetsLoop omap list_omap]. fold (baselineOf v).
    unfold tokenOk, engineOf in Hv. unfold engineOf at 1.
    destruct (baselineOf v) as [valid|] eqn:Hbv.
    + rewrite IH. fold (omap baselineOf pre). fold (omap engineOf pre).
      destruct (engineLoop validEngines value); try done.
      f_equal. destruct (omap baselineOf pre) as [|y l] eqn:E; [done|].
      rewrite last_cons_cons.
      destruct (last (y :: l)) eqn:E'; [done|]. by apply last_None in E'.
    + destruct (engineLoop validEngines v) as [| |e']; try done.
      rewrite IH. fold (omap engineOf pre).
      destruct (engineLoop validEngines value); try done.
      f_equal. cbn. by rewrite <- !app_assoc.
Qed.

End ParseTargets.

(** A list of tokens that holds a token which is neither a baseline nor an
    engine with a version is an error. *)
Lemma parseTargetsLoop_bad targets arg target engines :
  ~ Forall (fun v => tokenOk v = true) targets ->
  exists e, snd (parseTargetsLoop targets arg target engines) = Some e.
Proof.
  revert target engines.
  induction targets as [|value targets IH]; intros target engines Hbad.
  - by destruct Hbad.
  - cbn [parseTargetsLoop]. fold (baselineOf value).
    destruct (baselineOf value) as [valid|] eqn:Hb.
    + apply IH. intros Hrest. apply Hbad. constructor; [|done].
      unfold tokenOk. by rewrite Hb.
    + destruct (engineLoop validEngines value) as [| |e] eqn:He; [by eexists..|].
      apply IH. intros Hrest. apply Hbad. constructor; [|done].
      unfold tokenOk, engineOf. by rewrite Hb, He.
Qed.

Lemma engine_name_not_ok engine name :
  In (engine, name) validEngines ->
  baselineOf engine = None /\ engineLoop validEngines engine = MissingVersion.
Proof.
  intros Hin. repeat (destruct Hin as [[= <- <-]|Hin]; [by vm_compute|]).
  destruct Hin.
Qed.

(** C4. A list of tokens that are baselines or engines with a version
    yields the last baseline, the engines in the order of the tokens with
    duplicates kept, and no error; the result is the same for two lists
    with the same baselines and the same engines, however they are
    interleaved; a token is an engine when it is an engine name of the
    table, compared with regard to case, before a version that is not
    empty, whatever the order in which the table is visited; an engine name
    with no version is an error. *)
Theorem parseTargets_tokens (targets : list string) (arg : string) :
  (Forall (fun v => tokenOk v = true) targets ->
     parseTargets targets arg = (lastBaseline targets, omap engineOf targets, None))
  /\ (forall targets' arg',
        Forall (fun v => tokenOk v = true) targets ->
        Forall (fun v => tokenOk v = true) targets' ->
        omap baselineOf targets' = omap baselineOf targets ->
        omap engineOf targets' = omap engineOf targets ->
        parseTargets targets' arg' = parseTargets targets arg)
  /\ (forall value e,
        baselineOf value = None -> (engineOf value = Some e <-> engineToken value e))
  /\ (forall order value,
        order ≡ₚ validEngines -> engineLoop order value = engineLoop validEngines value)
  /\ (forall pre post engine name,
        Forall (fun v => tokenOk v = true) pre -> In (engine, name) validEngines ->
        parseTargets (pre ++ engine :: post) arg
        = (api.DefaultTarget, [],
           Some (MakeErrorWithNote
             ("Target " +:+ q engine +:+ " is missing a version number in " +:+ q arg)
             EmptyString)))
  /\ (forall engine name,
        In (engine, name) validEngines -> In engine targets ->
        exists e, snd (parseTargets targets arg) = Some e)
  /\ baselineOf "es2018" = Some api.ES2018
  /\ baselineOf "ES2018" = Some api.ES2018
  /\ engineOf "chrome80" = Some {| api.Name := api.EngineChrome; api.Version := "80" |}
  /\ engineOf "Chrome80" = None
  /\ splitWithEmptyCheck "es2018,chrome80" "," = ["es2018"; "chrome80"]
  /\ parseTargets ["es2018"; "chrome80"] "--target=es2018,chrome80"
     = (api.ES2018, [{| api.Name := api.EngineChrome; api.Version := "80" |}], None)
  /\ parseTargets ["chrome80"; "es2018"] "--target=chrome80,es2018"
     = (api.ES2018, [{| api.Name := api.EngineChrome; api.Version := "80" |}], None)
  /\ parseTargets ["chrome"] "--target=chrome"
     = (api.DefaultTarget, [],
        Some (MakeErrorWithNote
          (lit "Target `chrome` is missing a version number in `--target=chrome`")
          EmptyString)).
Proof.
  split; [|split; [|split; [|split; [|split; [|split; [|by vm_compute]]]]]].
  - intros Hok. unfold parseTargets, lastBaseline.
    by rewrite parseTargetsLoop_ok.
  - intros targets' arg' Hok Hok' Hb He. unfold parseTargets.
    rewrite !parseTargetsLoop_ok by done. by rewrite Hb, He.
  - intros value e Hb. unfold engineOf. rewrite Hb.
    rewrite <- engineLoop_found.
    destruct (engineLoop validEngines value); split; congruence.
  - intros order value. apply engineLoop_order.
  - intros pre post engine name Hpre Hin.
    destruct (engine_name_not_ok engine name Hin) as [Hb He].
    unfold parseTargets. rewrite parseTargetsLoop_first_bad by done. by rewrite He.
  - intros engine name Hin Hmem. apply parseTargetsLoop_bad.
    intros Hall. rewrite List.Forall_forall in Hall.
    destruct (engine_name_not_ok engine name Hin) as [Hb He].
    specialize (Hall engine Hmem). unfold tokenOk, engineOf in Hall.
    by rewrite Hb, He in Hall.
Qed.

Lemma parseTargets_tokens_witness :
  parseTargets ["ES2020"; "chrome80"; "es2018"; "chrome80"; "node12.5"] "--target="
  = (api.ES2018,
     [{| api.Name := api.EngineChrome; api.Version := "80" |};
      {| api.Name := api.EngineChrome; api.Version := "80" |};
      {| api.Name := api.EngineNode; api.Version := "12.5" |}], None).
Proof.
  apply (proj1 (parseTargets_tokens
                  ["ES2020"; "chrome80"; "es2018"; "chrome80"; "node12.5"] "--target=")).
  repeat constructor.
Defined.

Lemma no_engine_prefix value :
  List.existsb (fun kv => strings.HasPrefix value (fst kv)) validEngines = false ->
  engineLoop validEngines value = NoEngine.
Proof.
  intros Hnone.
  destruct (engineLoop_unique validEngines value) as [_ Hv2].
  { intros kv1 kv2. by apply validEngines_one_prefix. }
  apply Hv2. intros kv Hkv.
  destruct (strings.HasPrefix value (fst kv)) eqn:Hp; [|done].
  assert (List.existsb (fun kv => strings.HasPrefix value (fst kv)) validEngines = true)
    as E' by (apply List.existsb_exists; eauto).
  congruence.
Qed.

(** C8 (as amended). The first token that is neither a baseline nor
    starts with an engine name ends [parseTargets] with the error whose
    note lists the seven valid forms in alphabetical order, the baseline
    pattern [esN] among the engine forms, whatever the order in which the
    table of engines is visited. *)
Theorem invalid_target_note (pre post : list string) (value arg : string) :
  Forall (fun v => tokenOk v = true) pre ->
  baselineOf value = None ->
  List.existsb (fun kv => strings.HasPrefix value (fst kv)) validEngines = false ->
  parseTargets (pre ++ value :: post) arg
  = (api.DefaultTarget, [],
     Some (MakeErrorWithNote
       ("Invalid target " +:+ q value +:+ " in " +:+ q arg)
       (lit "Valid values are `chromeN`, `edgeN`, `esN`, `firefoxN`, `iosN`, `nodeN`, or `safariN` where N is a version number.")))
  /\ (forall order, order ≡ₚ validEngines ->
        invalidTargetNote order = invalidTargetNote validEngines)
  /\ Sorted String.le (validForms validEngines)
  /\ validForms validEngines
     ≡ₚ q "esN" :: map (fun kv => q (fst kv +:+ "N")) validEngines.
Proof.
  intros Hpre Hb Hnone. repeat split.
  - unfold parseTargets. rewrite parseTargetsLoop_first_bad by done.
    by rewrite no_engine_prefix.
  - intros order Hperm. unfold invalidTargetNote. by rewrite validForms_order.
  - apply Sorted_merge_sort; apply _.
  - apply merge_sort_Permutation.
Qed.

Lemma invalid_target_note_witness :
  parseTargets (["es2019"] ++ "foo" :: ["chrome80"]) "--target=es2019,foo,chrome80"
  = (api.DefaultTarget, [],
     Some (MakeErrorWithNote
       (lit "Invalid target `foo` in `--target=es2019,foo,chrome80`")
       (lit "Valid values are `chromeN`, `edgeN`, `esN`, `firefoxN`, `iosN`, `nodeN`, or `safariN` where N is a version number."))).
Proof.
  apply (proj1 (invalid_target_note ["es2019"] ["chrome80"] "foo"
                  "--target=es2019,foo,chrome80"
                  ltac:(repeat constructor) eq_refl eq_refl)).
Defined.

(** C8, the claim as stated fails: the note of an invalid target does not
    list the baseline pattern first; it stands third, behind two engine
    forms. *)
Lemma invalid_target_note_baseline_not_first :
  exists e,
    snd (parseTargets ["foo"] "--target=foo") = Some e
    /\ strings.HasPrefix (Note e) (lit "Valid values are `esN`") = false
    /\ strings.HasPrefix (Note e) (lit "Valid values are `chromeN`, `edgeN`, `esN`, ") = true.
Proof. eexists. split; [vm_compute; reflexivity|]. by vm_compute. Qed.

(** ** parseServeOptionsImpl *)

Lemma digitValue_range c d : strconv.digitValue c = Some d -> (0 <= d <= 9)%Z.
Proof.
  unfold strconv.digitValue.
  destruct (_ && _) eqn:E; [|done]. intros [= <-].
  apply andb_true_iff in E as [E1%Nat.leb_le E2%Nat.leb_le]. lia.
Qed.

Lemma digitsValue_ge acc s n :
  (0 <= acc)%Z -> digitsValue acc s = Some n -> (acc <= n)%Z.
Proof.
  revert acc. induction s as [|c s IH]; intros acc Hacc.
  - cbn. intros [= ->]. lia.
  - cbn. destruct (strconv.digitValue c) as [d|] eqn:Hd; [|done].
    apply digitValue_range in Hd. intros Hn%IH; lia.
Qed.

(** The digit loop reads the value of the digits, when it fits. *)
Lemma parseDigits_spec maxVal acc s n :
  (0 <= acc <= maxVal)%Z ->
  strconv.parseDigits maxVal acc s = inl n
  <-> digitsValue acc s = Some n /\ (n <= maxVal)%Z.
Proof.
  revert acc. induction s as [|c s IH]; intros acc Hacc.
  - cbn. split; [intros [= ->]; split; [done|lia] | by intros [[= ->] _]].
  - cbn. destruct (strconv.digitValue c) as [d|] eqn:Hd; [|by split; [|intros []]].
    pose proof (digitValue_range _ _ Hd) as Hr.
    destruct (Z.ltb_spec maxVal (acc * 10 + d)) as [Hlt|Hle].
    + split; [done|]. intros [Hn Hmax].
      apply digitsValue_ge in Hn; lia.
    + apply IH. lia.
Qed.

(** [strconv.ParseInt] on 32 bits reads the integers that fit in 32 bits. *)
Lemma ParseInt_32 s n :
  strconv.ParseInt s 32 = inl n
  <-> decimalValue s = Some n /\ (-2147483648 <= n <= 2147483647)%Z.
Proof.
  assert (forall r un, r <> EmptyString ->
            strconv.ParseUint r 32 = inl un
            <-> digitsValue 0 r = Some un /\ (un <= 4294967295)%Z) as HU.
  { intros r un Hr. unfold strconv.ParseUint.
    destruct r as [|c r]; [done|]. apply parseDigits_spec. lia. }
  assert (forall r un, digitsValue 0 r = Some un -> (0 <= un)%Z) as Hpos.
  { intros r un H. by apply digitsValue_ge in H. }
  destruct s as [|c r]; [by split; [|intros []]|].
  unfold strconv.ParseInt, decimalValue.
  destruct (Ascii.eqb c "+") eqn:Eplus; [|destruct (Ascii.eqb c "-") eqn:Eminus];
    cbn [orb negb andb].
  - apply Ascii.eqb_eq in Eplus as ->. cbn [Ascii.eqb Bool.eqb andb negb].
    destruct r as [|c' r']; [by split; [|intros []]|].
    set (r := String c' r').
    destruct (strconv.ParseUint r 32) as [un|[|]] eqn:E.
    + apply HU in E as [E Hmax]; [|done]. rewrite E.
      pose proof (Hpos _ _ E).
      change (2 ^ (32 - 1))%Z with 2147483648%Z.
      destruct (Z.leb_spec 2147483648 un); cbn [andb].
      * split; [done|]. intros [[= ->] ?]. lia.
      * split; [intros [= ->]; split; [done|lia] | by intros [[= ->] _]].
    + split; [done|]. intros [Hd Hn].
      assert (strconv.ParseUint r 32 = inl n) as E'; [|congruence].
      apply HU; [done|]. split; [done|lia].
    + split; [done|]. intros [Hd Hn].
      assert (strconv.ParseUint r 32 = inl n) as E'; [|congruence].
      apply HU; [done|]. split; [done|lia].
  - apply Ascii.eqb_eq in Eminus as ->.
    destruct r as [|c' r']; [by split; [|intros []]|].
    set (r := String c' r').
    destruct (strconv.ParseUint r 32) as [un|[|]] eqn:E.
    + apply HU in E as [E Hmax]; [|done]. rewrite E.
      pose proof (Hpos _ _ E).
      change (2 ^ (32 - 1))%Z with 2147483648%Z. cbn [fmap option_fmap option_map].
      destruct (Z.ltb_spec 2147483648 un).
      * split; [done|]. intros [[= <-] ?]. lia.
      * split; [intros [= <-]; split; [done|lia] | by intros [[= ->] _]].
    + split; [done|]. intros [Hd Hn].
      destruct (digitsValue 0 r) as [un|] eqn:Hun; [|done].
      injection Hd as <-.
      assert (strconv.ParseUint r 32 = inl un) as E'; [|congruence].
      apply HU; [done|]. split; [done|lia].
    + split; [done|]. intros [Hd Hn].
      destruct (digitsValue 0 r) as [un|] eqn:Hun; [|done].
      injection Hd as <-.
      assert (strconv.ParseUint r 32 = inl un) as E'; [|congruence].
      apply HU; [done|]. split; [done|lia].
  - set (s := String c r).
    destruct (strconv.ParseUint s 32) as [un|[|]] eqn:E.
    + apply HU in E as [E Hmax]; [|done]. rewrite E.
      pose proof (Hpos _ _ E).
      change (2 ^ (32 - 1))%Z with 2147483648%Z.
      destruct (Z.leb_spec 2147483648 un); cbn [andb].
      * split; [done|]. intros [[= ->] ?]. lia.
      * split; [intros [= ->]; split; [done|lia] | by intros [[= ->] _]].
    + split; [done|]. intros [Hd Hn].
      assert (strconv.ParseUint s 32 = inl n) as E'; [|congruence].
      apply HU; [done|]. split; [done|lia].
    + split; [done|]. intros [Hd Hn].
      assert (strconv.ParseUint s 32 = inl n) as E'; [|congruence].
      apply HU; [done|]. split; [done|lia].
Qed.

Lemma last_cons_default {A : Type} (x : A) (l : list A) :
  last (x :: l) = Some (default x (last l)).
Proof.
  destruct l as [|y l]; [done|]. rewrite last_cons_cons.
  destruct (last (y :: l)) eqn:E; [done|]. by apply last_None in E.
Qed.

(** The loop that filters the server flags out *)
Lemma serveLoop_spec osArgs portText servedir filteredArgs :
  serveLoop osArgs portText servedir filteredArgs
  = (match last (List.filter (fun a => strings.HasPrefix a "--serve=") osArgs) with
     | Some a => after "--serve=" a
     | None => portText
     end,
     match last (List.filter (fun a => strings.HasPrefix a "--servedir=") osArgs) with
     | Some a => after "--servedir=" a
     | None => servedir
     end,
     filteredArgs ++ List.filter (fun a => negb (isServeFlag a)) osArgs).
Proof.
  revert portText servedir filteredArgs.
  induction osArgs as [|a osArgs IH]; intros portText servedir filteredArgs.
  - cbn. by rewrite app_nil_r.
  - cbn [serveLoop List.filter]. unfold isServeFlag.
    destruct (String.eqb a "--serve") eqn:E1.
    + apply String.eqb_eq in E1 as ->. rewrite IH. reflexivity.
    + destruct (strings.HasPrefix a "--serve=") eqn:E2.
      * assert (strings.HasPrefix a "--servedir=" = false) as ->.
        { rewrite (HasPrefix_split _ _ E2). reflexivity. }
        rewrite IH. cbn [orb negb]. rewrite last_cons_default.
        by destruct (last (List.filter _ osArgs)).
      * destruct (strings.HasPrefix a "--servedir=") eqn:E3.
        -- rewrite IH. cbn [orb negb]. rewrite last_cons_default.
           by destruct (last (List.filter (fun a => strings.HasPrefix a "--servedir=") osArgs)).
        -- rewrite IH. cbn [orb negb]. by rewrite <- app_assoc.
Qed.

Lemma portOf_range portText port :
  portOf portText = Some port -> (0 <= port <= 65535)%Z.
Proof.
  unfold portOf. destruct (decimalValue portText) as [p|]; [|done].
  destruct (_ && _) eqn:E; [|done]. intros [= <-].
  apply andb_true_iff in E as [?%Z.leb_le ?%Z.leb_le]. lia.
Qed.

(** The port of [parseServeOptionsImpl]: the text is read by
    [strconv.ParseInt] and the number checked against the range. *)
Lemma parsePort_spec portText :
  match strconv.ParseInt portText 32 with
  | inl port => if (port <? 0)%Z || (65535 <? port)%Z then None else Some port
  | inr _ => None
  end = portOf portText.
Proof.
  unfold portOf.
  destruct (strconv.ParseInt portText 32) as [port|k] eqn:E.
  - apply ParseInt_32 in E as [-> Hr].
    destruct (Z.ltb_spec port 0), (Z.ltb_spec 65535 port),
      (Z.leb_spec 0 port), (Z.leb_spec port 65535); cbn; try done; lia.
  - destruct (decimalValue portText) as [p|] eqn:Hd; [|done].
    destruct (Z.leb_spec 0 p), (Z.leb_spec p 65535); cbn; try done.
    assert (strconv.ParseInt portText 32 = inl p) as E'; [|congruence].
    apply ParseInt_32. split; [done|lia].
Qed.

(** *** Host and port *)

Lemma IndexByte_append a b c :
  strings.IndexByte (a +:+ b) c
  = match strings.IndexByte a c with
    | Some i => Some i
    | None => (fun j => (String.length a + j)%nat) <$> strings.IndexByte b c
    end.
Proof.
  induction a as [|x a IH].
  - rewrite append_nil. by destruct (strings.IndexByte b c).
  - rewrite append_cons. cbn [strings.IndexByte]. destruct (Ascii.eqb x c); [done|].
    rewrite IH. destruct (strings.IndexByte a c); [done|].
    by destruct (strings.IndexByte b c).
Qed.

Lemma LastIndexByte_append a b c :
  strings.LastIndexByte (a +:+ b) c
  = match strings.LastIndexByte b c with
    | Some j => Some (String.length a + j)%nat
    | None => strings.LastIndexByte a c
    end.
Proof.
  induction a as [|x a IH].
  - rewrite append_nil. by destruct (strings.LastIndexByte b c).
  - rewrite append_cons. cbn [strings.LastIndexByte]. rewrite IH.
    by destruct (strings.LastIndexByte b c).
Qed.

Lemma LastIndexByte_None s c :
  strings.IndexByte s c = None -> strings.LastIndexByte s c = None.
Proof.
  induction s as [|x s IH]; [done|]. cbn.
  destruct (Ascii.eqb x c); [done|].
  destruct (strings.IndexByte s c); [done|]. intros _. by rewrite IH.
Qed.

Lemma sliceTo_append a b : strings.sliceTo (String.length a) (a +:+ b) = a.
Proof.
  induction a as [|x a IH]; [by destruct b|].
  rewrite append_cons. cbn. by rewrite IH.
Qed.

Lemma sliceFrom_append a b : strings.sliceFrom (String.length a) (a +:+ b) = b.
Proof. apply (after_append a b). Qed.

(** A host and a port without colons and brackets, joined by a colon, are
    split at the colon. *)
Lemma SplitHostPort_plain host port :
  (forall c, In c [":"; "["; "]"]%char ->
     strings.IndexByte host c = None /\ strings.IndexByte port c = None) ->
  net.SplitHostPort (host +:+ ":" +:+ port) = inl (host, port).
Proof.
  intros Hplain.
  destruct (Hplain ":"%char) as [Hh1 Hp1]; [cbn; tauto|].
  destruct (Hplain "["%char) as [Hh2 Hp2]; [cbn; tauto|].
  destruct (Hplain "]"%char) as [Hh3 Hp3]; [cbn; tauto|].
  unfold net.SplitHostPort.
  rewrite LastIndexByte_append.
  change (":" +:+ port) with (String ":" port).
  cbn [strings.LastIndexByte]. rewrite (LastIndexByte_None _ _ Hp1).
  cbn [Ascii.eqb Bool.eqb andb]. replace (String.length host + 0)%nat with (String.length host) by lia.
  assert (Ascii.eqb (strings.byteAt (host +:+ String ":" port) 0) "[" = false) as ->.
  { destruct host as [|x host]; [done|]. rewrite append_cons.
    cbn in Hh2 |- *. by destruct (Ascii.eqb x "["). }
  rewrite sliceTo_append. unfold net.hasByte. rewrite Hh1.
  cbn [strings.sliceFrom].
  rewrite !IndexByte_append, Hh2, Hh3. cbn [strings.IndexByte].
  cbn [Ascii.eqb Bool.eqb andb]. rewrite Hp2, Hp3. cbn [fmap option_fmap option_map].
  replace (String.length host + 1)%nat with (String.length (host +:+ ":"))
    by (rewrite length_append; reflexivity).
  change (String ":" port) with (":" +:+ port).
  by rewrite <- append_assoc, sliceFrom_append.
Qed.

(** C7. [parseServeOptionsImpl] succeeds exactly when the serve spec, the
    value of the last ["--serve="] and ["0"] without one, has a host and a
    port text whose port is a base-10 integer from 0 to 65535; the options
    then hold this port, the host, and the last served directory, and the
    filtered list holds the other arguments unchanged and in order. A spec
    without a colon is the port text with an empty host; a spec with one is
    split by [net.SplitHostPort]. *)
Theorem parseServeOptions_spec (osArgs : list string) :
  (forall opts rest,
     parseServeOptionsImpl osArgs = inl (opts, rest)
     <-> exists host portText port,
           hostPortOf (serveSpec osArgs) = Some (host, portText)
           /\ portOf portText = Some port
           /\ opts = {| ServeOptions.Port := port; ServeOptions.Host := host;
                        ServeOptions.Servedir := lastValue "--servedir=" osArgs |}
           /\ rest = List.filter (fun a => negb (isServeFlag a)) osArgs)
  /\ (forall portText port, portOf portText = Some port ->
        decimalValue portText = Some port /\ (0 <= port <= 65535)%Z)
  /\ (forall spec, strings.ContainsRune spec ":" = false ->
        hostPortOf spec = Some (EmptyString, spec))
  /\ (forall host port,
        (forall c, In c [":"; "["; "]"]%char ->
           strings.IndexByte host c = None /\ strings.IndexByte port c = None) ->
        hostPortOf (host +:+ ":" +:+ port) = Some (host, port))
  /\ parseServeOptionsImpl ["--serve=127.0.0.1:9000"]
     = inl ({| ServeOptions.Port := 9000; ServeOptions.Host := "127.0.0.1";
               ServeOptions.Servedir := EmptyString |}, [])
  /\ parseServeOptionsImpl ["--serve=70000"]
     = inr (Errorf "Invalid port number: 70000")
  /\ parseServeOptionsImpl ["--serve=-1"] = inr (Errorf "Invalid port number: -1")
  /\ parseServeOptionsImpl ["--serve=http"] = inr (NumError "http" strconv.ErrSyntax)
  /\ parseServeOptionsImpl ["--serve=99999999999"]
     = inr (NumError "99999999999" strconv.ErrRange)
  /\ parseServeOptionsImpl ["entry.js"; "--serve"; "--bundle"; "--servedir=www"]
     = inl ({| ServeOptions.Port := 0; ServeOptions.Host := EmptyString;
               ServeOptions.Servedir := "www" |}, ["entry.js"; "--bundle"]).
Proof.
  split; [|split; [|split; [|split; [|by vm_compute]]]].
  - intros opts rest. unfold parseServeOptionsImpl.
    rewrite serveLoop_spec. fold (serveSpec osArgs).
    fold (lastValue "--servedir=" osArgs).
    unfold hostPortOf. cbn [app].
    assert (forall host portText,
              match strconv.ParseInt portText 32 with
              | inl port =>
                  if (port <? 0)%Z || (65535 <? port)%Z
                  then inr (Errorf ("Invalid port number: " +:+ portText))
                  else inl ({| ServeOptions.Port := uint16 port;
                               ServeOptions.Host := host;
                               ServeOptions.Servedir := lastValue "--servedir=" osArgs |},
                            List.filter (fun a => negb (isServeFlag a)) osArgs)
              | inr k => inr (NumError portText k)
              end = inl (opts, rest)
              <-> exists port, portOf portText = Some port
                    /\ opts = {| ServeOptions.Port := port; ServeOptions.Host := host;
                                 ServeOptions.Servedir := lastValue "--servedir=" osArgs |}
                    /\ rest = List.filter (fun a => negb (isServeFlag a)) osArgs) as Hport.
    { intros host portText. rewrite <- parsePort_spec.
      destruct (strconv.ParseInt portText 32) as [port|k].
      - destruct (Z.ltb_spec port 0); [by split; [|intros (? & ? & _)]|].
        destruct (Z.ltb_spec 65535 port); [by split; [|intros (? & ? & _)]|].
        cbn [orb]. unfold uint16. rewrite Z.mod_small by lia.
        split.
        + intros [= <- <-]. by exists port.
        + by intros (? & [= <-] & -> & ->).
      - by split; [|intros (? & ? & _)]. }
    destruct (strings.ContainsRune (serveSpec osArgs) ":").
    + destruct (net.SplitHostPort (serveSpec osArgs)) as [[host portText]|e].
      * rewrite Hport. split.
        -- intros (port & ? & ? & ?). by exists host, portText, port.
        -- intros (? & ? & port & [= <- <-] & ? & ? & ?). by exists port.
      * split; [done|]. by intros (? & ? & ? & ? & _).
    + rewrite Hport. split.
      * intros (port & ? & ? & ?). by exists EmptyString, (serveSpec osArgs), port.
      * intros (? & ? & port & [= <- <-] & ? & ? & ?). by exists port.
  - intros portText port Hp. split; [|by apply portOf_range in Hp].
    unfold portOf in Hp. destruct (decimalValue portText); [|done].
    destruct (_ && _); [|done]. by injection Hp as <-.
  - intros spec Hc. unfold hostPortOf. by rewrite Hc.
  - intros host port Hplain. unfold hostPortOf.
    rewrite (SplitHostPort_plain host port Hplain).
    assert (strings.ContainsRune (host +:+ ":" +:+ port) ":" = true) as ->; [|done].
    unfold strings.ContainsRune. rewrite IndexByte_append.
    destruct (strings.IndexByte host ":"); [done|].
    change (":" +:+ port) with (String ":" port). reflexivity.
Qed.

(** ** The advice for a flag with one dash *)

Lemma lookupBool_In table key : lookupBool table key = true <-> In key table.
Proof.
  unfold lookupBool. rewrite List.existsb_exists. split.
  - by intros (x & Hin & ->%String.eqb_eq).
  - intros Hin. exists key. by rewrite String.eqb_refl.
Qed.

Lemma IndexByte_split s c i :
  strings.IndexByte s c = Some i ->
  s = strings.sliceTo i s +:+ String c (strings.sliceFrom (i + 1) s).
Proof.
  revert i. induction s as [|x s IH]; intros i; [done|].
  cbn [strings.IndexByte]. destruct (Ascii.eqb_spec x c) as [->|Hne].
  - intros [= <-]. reflexivity.
  - destruct (strings.IndexByte s c) as [j|]; [|done]. intros [= <-].
    cbn [strings.sliceTo Nat.add strings.sliceFrom]. rewrite append_cons.
    f_equal. by apply IH.
Qed.

(** The first separator behind a key that holds none *)
Lemma IndexByte_key key c value :
  strings.IndexByte key c = None ->
  strings.IndexByte (key +:+ String c value) c = Some (String.length key).
Proof.
  intros Hk. rewrite IndexByte_append, Hk. cbn [strings.IndexByte].
  rewrite Ascii.eqb_refl. cbn. f_equal. lia.
Qed.

(** No flag name of the three tables holds a separator. *)
Lemma table_keys_plain :
  Forall (fun key => strings.IndexByte key "=" = None
                     /\ strings.IndexByte key ":" = None)
         (bare ++ equals ++ colon).
Proof. repeat constructor. Qed.

Lemma key_plain table key :
  (table = bare \/ table = equals \/ table = colon) -> In key table ->
  strings.IndexByte key "=" = None /\ strings.IndexByte key ":" = None.
Proof.
  intros Ht Hin. pose proof table_keys_plain as H.
  rewrite List.Forall_forall in H. apply H.
  rewrite !in_app_iff. destruct Ht as [->|[->| ->]]; tauto.
Qed.



Section OneDash.

Variable ParseLoader : string -> api.Loader + ErrorWithNote.
Variable kind : parseOptionsKind.


End OneDash.

Lemma IndexByte_dash rest c :
  Ascii.eqb "-" c = false ->
  strings.IndexByte (String "-" rest) c = S <$> strings.IndexByte rest c.
Proof.
  intros Hc. cbn [strings.IndexByte]. rewrite Hc.
  by destruct (strings.IndexByte rest c).
Qed.



Section OneDashAdvice.

Variable ParseLoader : string -> api.Loader + ErrorWithNote.
Variable kind : parseOptionsKind.

Lemma invalidFlag_mode mode st arg :
  inMode mode st ->
  invalidFlag st arg = Return (invalidFlagError mode arg (defaultNote arg)).
Proof.
  unfold invalidFlag, hasBuild, invalidFlagError.
  destruct mode; cbn; intros [H1 H2].
  - destruct H1 as [b ->]. done.
  - by rewrite H1.
Qed.


End OneDashAdvice.


(** ** The theorems at concrete arguments *)

Lemma first_error_only_witness :
  parseOptionsForRun ParseLoader (["--minify"] ++ "--charset=latin1" :: ["--bogus"])
  = Some (mkRunResult None None None
      (Some (MakeErrorWithNote
         (lit "Invalid value `latin1` in `--charset=latin1`")
         (lit "Valid values are `ascii` or `utf8`.")))).
Proof.
  apply (proj1 (first_error_only ParseLoader ["--minify"] "--charset=latin1" ["--bogus"] _
           ltac:(repeat constructor) eq_refl)).
Defined.

Lemma loader_file_rejected_witness :
  parseOptionsForRun ParseLoader (["entry.js"; "--bundle"] ++ "--loader=file" :: ["--minify"])
  = Some (mkRunResult None None None (Some loaderFileError)).
Proof.
  apply (proj2 (proj2 (loader_file_rejected ParseLoader eq_refl))
           ["entry.js"; "--bundle"] ["--minify"]).
  repeat constructor.
Defined.

Lemma bare_sourcemap_reconciled_witness :
  (exists o,
     parseOptionsForRun ParseLoader (["entry.js"] ++ "--sourcemap" :: ["--minify"])
     = Some (mkRunResult (Some o) None None None)
     /\ BuildOptions.Sourcemap o = api.SourceMapInline)
  /\ (exists o,
        parseOptionsForRun ParseLoader
          (["entry.js"; "--outfile=out.js"] ++ "--sourcemap" :: ["--minify"])
        = Some (mkRunResult (Some o) None None None)
        /\ BuildOptions.Sourcemap o = api.SourceMapLinked).
Proof.
  split.
  - eexists. split; [vm_compute; reflexivity|].
    apply (bare_sourcemap_reconciled ParseLoader ["entry.js"] ["--minify"] _ None);
      [repeat constructor | vm_compute; reflexivity | reflexivity | reflexivity].
  - eexists. split; [vm_compute; reflexivity|].
    apply (bare_sourcemap_reconciled ParseLoader ["entry.js"; "--outfile=out.js"]
             ["--minify"] _ None);
      [repeat constructor | vm_compute; reflexivity | left; discriminate].
Defined.



Lemma collections_last_wins_and_append_witness :
  exists o,
    parseOptionsForRun ParseLoader
      ["a.js"; "--define:K=1"; "--external:x"; "--loader:.txt=text";
       "--define:K=2"; "--external:x"; "b.js"; "--loader:.txt=json"; "a.js"]
    = Some (mkRunResult (Some o) None None None)
    /\ BuildOptions.Define o !! "K" = Some "2"
    /\ BuildOptions.Loader o !! ".txt" = Some api.LoaderJSON
    /\ BuildOptions.External o = ["x"; "x"]
    /\ BuildOptions.EntryPoints o = ["a.js"; "b.js"; "a.js"].
Proof.
  eexists. split; [vm_compute; reflexivity|].
  pose proof (proj1 (collections_last_wins_and_append ParseLoader
      ["a.js"; "--define:K=1"; "--external:x"; "--loader:.txt=text";
       "--define:K=2"; "--external:x"; "b.js"; "--loader:.txt=json"; "a.js"])
    _ None ltac:(vm_compute; reflexivity))
    as (HDefine & HLoader & _ & _ & _ & HExternal & _ & _ & HEntry & _).
  split; [exact (HDefine "K")|]. split; [exact (HLoader ".txt")|].
  split; [exact HExternal | exact HEntry].
Defined.

(** ** splitWithEmptyCheck *)

Lemma Split_cons s sep : exists p ps, strings.Split s sep = p :: ps.
Proof.
  induction s as [|c s IH]; cbn; [eauto|].
  destruct (Ascii.eqb c sep); [eauto|].
  destruct IH as (p & ps & ->). eauto.
Qed.

Lemma Join_cons_cons x y l sep :
  strings.Join (x :: y :: l) sep = x +:+ sep +:+ strings.Join (y :: l) sep.
Proof. reflexivity. Qed.

Lemma Join_Split s sep :
  strings.Join (strings.Split s sep) (String sep EmptyString) = s.
Proof.
  induction s as [|c s IH]; [reflexivity|].
  cbn [strings.Split].
  destruct (Split_cons s sep) as (p & ps & E). rewrite E in *.
  destruct (Ascii.eqb_spec c sep) as [->|Hne].
  - rewrite Join_cons_cons, IH. reflexivity.
  - destruct ps as [|p' ps].
    + cbn in *. by rewrite IH.
    + rewrite Join_cons_cons in *. rewrite append_cons. by rewrite IH.
Qed.

Lemma Split_pieces s sep :
  Forall (fun p => strings.IndexByte p sep = None) (strings.Split s sep).
Proof.
  induction s as [|c s IH]; [by repeat constructor|].
  cbn [strings.Split].
  destruct (Split_cons s sep) as (p & ps & E). rewrite E in *.
  inversion IH as [|? ? Hp Hps]; subst.
  destruct (Ascii.eqb c sep) eqn:Hc.
  - constructor; [done|]. by constructor.
  - constructor; [|done]. cbn. by rewrite Hc, Hp.
Qed.

Lemma Split_piece_sep p sep r :
  strings.IndexByte p sep = None ->
  strings.Split (p +:+ String sep r) sep = p :: strings.Split r sep.
Proof.
  induction p as [|c p IH]; intros Hp.
  - rewrite append_nil. cbn. by rewrite Ascii.eqb_refl.
  - cbn in Hp. destruct (Ascii.eqb c sep) eqn:Hc; [done|].
    destruct (strings.IndexByte p sep) eqn:Hi; [done|].
    rewrite append_cons. cbn [strings.Split]. rewrite Hc, IH by done. done.
Qed.

Lemma Split_piece p sep :
  strings.IndexByte p sep = None -> strings.Split p sep = [p].
Proof.
  induction p as [|c p IH]; intros Hp; [reflexivity|].
  cbn in Hp. destruct (Ascii.eqb c sep) eqn:Hc; [done|].
  destruct (strings.IndexByte p sep) eqn:Hi; [done|].
  cbn [strings.Split]. by rewrite Hc, IH.
Qed.

Lemma Split_Join l sep :
  l <> [] ->
  Forall (fun p => strings.IndexByte p sep = None) l ->
  strings.Split (strings.Join l (String sep EmptyString)) sep = l.
Proof.
  induction l as [|x l IH]; [done|]. intros _ Hall.
  inversion Hall as [|? ? Hx Hl]; subst.
  destruct l as [|y l].
  - cbn. by apply Split_piece.
  - rewrite Join_cons_cons. rewrite append_cons, append_nil.
    rewrite Split_piece_sep by done. by rewrite IH.
Qed.

(** X1 ([splitWithEmptyCheck]): the split of a string is the one list of
    pieces without the separator that joins back to the string, the list
    with the empty piece alone left aside: the empty string has no pieces,
    where [strings.Split] would give one empty piece. *)
Theorem splitWithEmptyCheck_inverts_Join (s : string) (sep : ascii) (l : list string) :
  splitWithEmptyCheck s sep = l
  <-> strings.Join l (String sep EmptyString) = s
      /\ Forall (fun p => strings.IndexByte p sep = None) l
      /\ l <> [EmptyString].
Proof.
  split.
  - intros <-. destruct s as [|c s].
    + by repeat split.
    + unfold splitWithEmptyCheck. split; [apply Join_Split|].
      split; [apply Split_pieces|].
      intros E. pose proof (Join_Split (String c s) sep) as HJ.
      by rewrite E in HJ.
  - intros (<- & Hall & Hne). unfold splitWithEmptyCheck.
    destruct l as [|x l]; [reflexivity|].
    destruct (strings.Join (x :: l) (String sep EmptyString)) as [|c s] eqn:E.
    + destruct l as [|y l].
      * cbn in E. by subst.
      * rewrite Join_cons_cons in E. destruct x; discriminate.
    + rewrite <- E. by apply Split_Join.
Qed.

(** ** The minify flags *)

Section Minify.

Variable ParseLoader : string -> api.Loader + ErrorWithNote.
Variable kind : parseOptionsKind.

Local Abbreviation step := (step ParseLoader kind).
Local Abbreviation loop := (loop ParseLoader kind).

Lemma step_minify st :
  step st "--minify"
  = onEither
      (fun b => BuildOptions.set_MinifyIdentifiers true
                  (BuildOptions.set_MinifyWhitespace true
                    (BuildOptions.set_MinifySyntax true b)))
      (fun t => TransformOptions.set_MinifyIdentifiers true
                  (TransformOptions.set_MinifyWhitespace true
                    (TransformOptions.set_MinifySyntax true t))) st.
Proof. run_switch. reflexivity. Qed.

Lemma step_minify_syntax st :
  step st "--minify-syntax"
  = onEither (BuildOptions.set_MinifySyntax true) (TransformOptions.set_MinifySyntax true) st.
Proof. run_switch. reflexivity. Qed.

Lemma step_minify_whitespace st :
  step st "--minify-whitespace"
  = onEither (BuildOptions.set_MinifyWhitespace true)
             (TransformOptions.set_MinifyWhitespace true) st.
Proof. run_switch. reflexivity. Qed.

Lemma step_minify_identifiers st :
  step st "--minify-identifiers"
  = onEither (BuildOptions.set_MinifyIdentifiers true)
             (TransformOptions.set_MinifyIdentifiers true) st.
Proof. run_switch. reflexivity. Qed.

Lemma loop_cons_kind st arg rest :
  loop st (arg :: rest)
  = match step st arg with
    | Continue st' => loop st' rest
    | Return err => Failed st err
    | Panic => Panicked
    end.
Proof. reflexivity. Qed.

(** X2 ([--minify]): the flag does what the three flags of the parts of
    the minifier do together, in whatever order these are given, in a
    build as in a transform. *)
Theorem minify_is_its_three_parts (st : State) (parts rest : list string) :
  parts ≡ₚ ["--minify-syntax"; "--minify-whitespace"; "--minify-identifiers"] ->
  loop st (parts ++ rest) = loop st ("--minify" :: rest).
Proof.
  intros Hp. symmetry in Hp. apply permutations_Permutation in Hp.
  vm_compute in Hp.
  destruct st as [[b|] [t|] h m].
  all: repeat (apply list_elem_of_In in Hp; destruct Hp as [<-|Hp];
               [|apply list_elem_of_In in Hp]); [..|by apply elem_of_nil in Hp].
  all: cbn [app]; rewrite !loop_cons_kind.
  all: rewrite ?step_minify, ?step_minify_syntax, ?step_minify_whitespace,
         ?step_minify_identifiers.
  all: try reflexivity.
Qed.

End Minify.

(** Every order of the three flags has the effect of [--minify]. *)
Lemma minify_is_its_three_parts_witness :
  loop cli_helpers.ParseLoader kindInternal (initState Build)
    (["--minify-whitespace"; "--minify-identifiers"; "--minify-syntax"] ++ ["a.js"])
  = loop cli_helpers.ParseLoader kindInternal (initState Build) ["--minify"; "a.js"].
Proof.
  apply (minify_is_its_three_parts cli_helpers.ParseLoader kindInternal (initState Build)
           ["--minify-whitespace"; "--minify-identifiers"; "--minify-syntax"] ["a.js"]).
  apply (Permutation_sym
           (perm_trans (perm_swap "--minify-whitespace" "--minify-syntax" _)
                       (perm_skip "--minify-whitespace"
                                  (perm_swap "--minify-identifiers" "--minify-syntax" [])))).
Defined.

(** ** The flags with an enumerated value *)

(** Runs the [switch] up to the case of the argument and names what the
    round comes to. *)
Ltac step_to H :=
  match goal with
  | |- context [step ?PL ?k ?st ?arg] =>
      eassert (step PL k st arg = _) as H;
      [run_switch; reflexivity|]; rewrite H; clear H
  end.

Ltac split_values v :=
  repeat match goal with
  | |- context [String.eqb v ?k] => destruct (String.eqb v k) eqn:?
  end.

Section Enumerated.

Variable ParseLoader : string -> api.Loader + ErrorWithNote.

Local Abbreviation flagError := (flagError ParseLoader).

(** X3 (the flags with an enumerated value): the values a flag accepts are
    the ones its note lists, and every other value is the error of an
    invalid value with this note; [--platform=] is a flag of a build
    only. *)
Theorem enumerated_flag_values (mode : Mode) (prefix v : string) (values : list string) :
  In (prefix, values) enumerated ->
  (prefix = "--platform=" -> mode = Build) ->
  flagError mode (prefix +:+ v)
  = if existsb (String.eqb v) values then None
    else Some (invalidValueError v (prefix +:+ v) (validValues values)).
Proof.
  intros Hin Hplatform. unfold enumerated in Hin.
  repeat (destruct Hin as [[= <- <-]|Hin]); [..|done].
  all: destruct mode; try (by specialize (Hplatform eq_refl)).
  all: unfold flagError, initState; step_to Hs.
  all: cbv zeta; rewrite !after_append; cbn [existsb].
  all: split_values v; reflexivity.
Qed.

End Enumerated.

Lemma enumerated_flag_values_witness :
  flagError cli_helpers.ParseLoader Transform ("--format=" +:+ "amd")
  = Some (invalidValueError "amd" ("--format=" +:+ "amd")
            (lit "Valid values are `iife`, `cjs`, or `esm`.")).
Proof.
  apply (enumerated_flag_values cli_helpers.ParseLoader Transform "--format=" "amd"
           ["iife"; "cjs"; "esm"]).
  - vm_compute. tauto.
  - discriminate.
Defined.

(** ** The log limit *)

(** [strconv.Atoi] reads the integers that fit in 64 bits. *)
Lemma Atoi_spec s n :
  strconv.Atoi s = inl n
  <-> decimalValue s = Some n
      /\ (-9223372036854775808 <= n <= 9223372036854775807)%Z.
Proof.
  unfold strconv.Atoi.
  assert (forall r un, r <> EmptyString ->
            strconv.ParseUint r 64 = inl un
            <-> digitsValue 0 r = Some un /\ (un <= 18446744073709551615)%Z) as HU.
  { intros r un Hr. unfold strconv.ParseUint.
    destruct r as [|c r]; [done|]. apply parseDigits_spec. lia. }
  assert (forall r un, digitsValue 0 r = Some un -> (0 <= un)%Z) as Hpos.
  { intros r un H. by apply digitsValue_ge in H. }
  destruct s as [|c r]; [by split; [|intros []]|].
  unfold strconv.ParseInt, decimalValue.
  destruct (Ascii.eqb c "+") eqn:Eplus; [|destruct (Ascii.eqb c "-") eqn:Eminus];
    cbn [orb negb andb].
  - apply Ascii.eqb_eq in Eplus as ->. cbn [Ascii.eqb Bool.eqb andb negb].
    destruct r as [|c' r']; [by split; [|intros []]|].
    set (r := String c' r').
    destruct (strconv.ParseUint r 64) as [un|[|]] eqn:E.
    + apply HU in E as [E Hmax]; [|done]. rewrite E.
      pose proof (Hpos _ _ E).
      change (2 ^ (64 - 1))%Z with 9223372036854775808%Z.
      destruct (Z.leb_spec 9223372036854775808 un); cbn [andb].
      * split; [done|]. intros [[= ->] ?]. lia.
      * split; [intros [= ->]; split; [done|lia] | by intros [[= ->] _]].
    + split; [done|]. intros [Hd Hn].
      assert (strconv.ParseUint r 64 = inl n) as E'; [|congruence].
      apply HU; [done|]. split; [done|lia].
    + split; [done|]. intros [Hd Hn].
      assert (strconv.ParseUint r 64 = inl n) as E'; [|congruence].
      apply HU; [done|]. split; [done|lia].
  - apply Ascii.eqb_eq in Eminus as ->.
    destruct r as [|c' r']; [by split; [|intros []]|].
    set (r := String c' r').
    destruct (strconv.ParseUint r 64) as [un|[|]] eqn:E.
    + apply HU in E as [E Hmax]; [|done]. rewrite E.
      pose proof (Hpos _ _ E).
      change (2 ^ (64 - 1))%Z with 9223372036854775808%Z. cbn [fmap option_fmap option_map].
      destruct (Z.ltb_spec 9223372036854775808 un).
      * split; [done|]. intros [[= <-] ?]. lia.
      * split; [intros [= <-]; split; [done|lia] | by intros [[= ->] _]].
    + split; [done|]. intros [Hd Hn].
      destruct (digitsValue 0 r) as [un|] eqn:Hun; [|done].
      injection Hd as <-.
      assert (strconv.ParseUint r 64 = inl un) as E'; [|congruence].
      apply HU; [done|]. split; [done|lia].
    + split; [done|]. intros [Hd Hn].
      destruct (digitsValue 0 r) as [un|] eqn:Hun; [|done].
      injection Hd as <-.
      assert (strconv.ParseUint r 64 = inl un) as E'; [|congruence].
      apply HU; [done|]. split; [done|lia].
  - set (s := String c r).
    destruct (strconv.ParseUint s 64) as [un|[|]] eqn:E.
    + apply HU in E as [E Hmax]; [|done]. rewrite E.
      pose proof (Hpos _ _ E).
      change (2 ^ (64 - 1))%Z with 9223372036854775808%Z.
      destruct (Z.leb_spec 9223372036854775808 un); cbn [andb].
      * split; [done|]. intros [[= ->] ?]. lia.
      * split; [intros [= ->]; split; [done|lia] | by intros [[= ->] _]].
    + split; [done|]. intros [Hd Hn].
      assert (strconv.ParseUint s 64 = inl n) as E'; [|congruence].
      apply HU; [done|]. split; [done|lia].
    + split; [done|]. intros [Hd Hn].
      assert (strconv.ParseUint s 64 = inl n) as E'; [|congruence].
      apply HU; [done|]. split; [done|lia].
Qed.

Section LogLimit.

Variable ParseLoader : string -> api.Loader + ErrorWithNote.
Variable kind : parseOptionsKind.

Local Abbreviation step := (step ParseLoader kind).

Lemma step_log_limit (st : State) (v : string) :
  step st ("--log-limit=" +:+ v)
  = match logLimitOf v with
    | Some limit =>
        onEither (BuildOptions.set_LogLimit limit) (TransformOptions.set_LogLimit limit) st
    | None =>
        Return (invalidValueError v ("--log-limit=" +:+ v)
                  "The log limit must be a non-negative integer.")
    end.
Proof.
  step_to Hs. cbv zeta. rewrite !after_append. unfold logLimitOf.
  destruct (strconv.Atoi v) as [n|k] eqn:E.
  - apply Atoi_spec in E as [-> Hn].
    destruct (Z.ltb_spec n 0); destruct (Z.leb_spec 0 n); try lia; cbn [andb].
    + reflexivity.
    + destruct (Z.leb_spec n 9223372036854775807); [reflexivity|lia].
  - destruct (decimalValue v) as [n|] eqn:Hd; [|reflexivity].
    destruct (Z.leb_spec 0 n); [|reflexivity]. cbn [andb].
    destruct (Z.leb_spec n 9223372036854775807); [|reflexivity].
    assert (strconv.Atoi v = inl n) as E'; [|congruence].
    apply Atoi_spec. split; [done|lia].
Qed.

(** X4 ([--log-limit=]): the flag takes the texts that denote an integer
    from 0 to the largest 64-bit integer in base 10, and stores this
    integer in the options of the mode; every other text is the error of an
    invalid value. A sign is allowed, so [+5] and [-0] are taken, while
    [-1], the empty text, a text with a digit separator or an exponent, and
    2^63 are not. *)
Theorem log_limit_values (st : State) (v : string) :
  step st ("--log-limit=" +:+ v)
  = match logLimitOf v with
    | Some limit =>
        onEither (BuildOptions.set_LogLimit limit) (TransformOptions.set_LogLimit limit) st
    | None =>
        Return (invalidValueError v ("--log-limit=" +:+ v)
                  "The log limit must be a non-negative integer.")
    end
  /\ logLimitOf "+5" = Some 5%Z
  /\ logLimitOf "-0" = Some 0%Z
  /\ logLimitOf "9223372036854775807" = Some 9223372036854775807%Z
  /\ Forall (fun text => logLimitOf text = None)
       ["-1"; EmptyString; "+"; "1_000"; "1e3"; " 1"; "9223372036854775808"].
Proof.
  split; [apply step_log_limit|].
  split; [reflexivity|]. split; [reflexivity|]. split; [reflexivity|].
  repeat constructor.
Qed.

End LogLimit.

(** ** A single quote before a flag *)

Section SingleQuote.

Variable ParseLoader : string -> api.Loader + ErrorWithNote.

Local Abbreviation step := (step ParseLoader).
Local Abbreviation loop := (loop ParseLoader kindInternal).
Local Abbreviation flagError := (flagError ParseLoader).

Lemma step_quoted kind st arg :
  strings.HasPrefix arg "'--" = true ->
  step kind st arg = Return (singleQuoteError arg).
Proof.
  intros Hquote.
  assert (strings.HasPrefix arg "-" = false) as Hdash.
  { rewrite (HasPrefix_split _ _ Hquote). reflexivity. }
  unfold step.
  rewrite !(no_dash_eqb arg) by done.
  rewrite !(no_dash_prefix arg) by done.
  rewrite Hquote. cbn [andb negb]. reflexivity.
Qed.

Lemma selectsBuild_no_dash arg :
  strings.HasPrefix arg "-" = false -> selectsBuild arg = true.
Proof. unfold selectsBuild. by intros ->. Qed.

Lemma modeOf_no_dash osArgs arg :
  In arg osArgs -> strings.HasPrefix arg "-" = false -> modeOf osArgs = Build.
Proof.
  intros Hin Hdash. unfold modeOf.
  assert (existsb selectsBuild osArgs = true) as ->; [|done].
  apply existsb_exists. exists arg. split; [done|]. by apply selectsBuild_no_dash.
Qed.

(** A run with an argument that has an error in the mode of the run
    returns an error. *)
Lemma run_some_error osArgs arg e :
  In arg osArgs -> flagError (modeOf osArgs) arg = Some e ->
  exists e', parseOptionsForRun ParseLoader osArgs
             = Some (mkRunResult None None None (Some e')).
Proof.
  intros Hin He.
  destruct (loop_mode ParseLoader (modeOf osArgs) (initState (modeOf osArgs)) osArgs
              (inMode_init _))
    as [(st' & Hl & Hm & Hall)|(st' & e' & pre & bad & post & Hl & Hm & Hargs & Hall & Hbad)].
  - rewrite List.Forall_forall in Hall. rewrite (Hall arg Hin) in He. done.
  - exists e'. rewrite Hargs.
    apply run_first_error; by rewrite <- Hargs.
Qed.

(** X5 (a single quote before a flag): an argument that starts with a
    single quote and two dashes is an error of its own in either mode;
    since it has no leading dash it selects the build, and a run with such
    an argument returns an error, never options. *)
Theorem single_quote_flag_rejected (osArgs : list string) (arg : string) :
  In arg osArgs ->
  strings.HasPrefix arg "'--" = true ->
  (forall mode, flagError mode arg = Some (singleQuoteError arg))
  /\ modeOf osArgs = Build
  /\ exists e, parseOptionsForRun ParseLoader osArgs
               = Some (mkRunResult None None None (Some e)).
Proof.
  intros Hin Hquote.
  assert (forall mode, flagError mode arg = Some (singleQuoteError arg)) as Herr.
  { intros mode. unfold flagError. by rewrite step_quoted. }
  split; [done|]. split.
  - apply modeOf_no_dash with (arg := arg); [done|].
    rewrite (HasPrefix_split _ _ Hquote). reflexivity.
  - by apply run_some_error with (arg := arg) (e := singleQuoteError arg).
Qed.

End SingleQuote.

Lemma single_quote_flag_rejected_witness :
  (forall mode, flagError cli_helpers.ParseLoader mode "'--minify'"
                = Some (singleQuoteError "'--minify'"))
  /\ modeOf ["--bundle"; "'--minify'"] = Build
  /\ exists e, parseOptionsForRun cli_helpers.ParseLoader ["--bundle"; "'--minify'"]
               = Some (mkRunResult None None None (Some e)).
Proof.
  apply (single_quote_flag_rejected cli_helpers.ParseLoader
           ["--bundle"; "'--minify'"] "'--minify'").
  - cbn. tauto.
  - reflexivity.
Defined.

(** ** The fields no collection flag writes *)

Ltac split_conds :=
  repeat match goal with
  | H : _ && _ = true |- _ => apply andb_true_iff in H; destruct H
  end.

Section StepFields.

Variable ParseLoader : string -> api.Loader + ErrorWithNote.
Variable kind : parseOptionsKind.

Lemma step_build_fields arg :
  (exists e, forall b h m,
      step ParseLoader kind (mkState (Some b) None h m) arg = Return e)
  \/ (exists f hf mf,
        (forall b h m,
            step ParseLoader kind (mkState (Some b) None h m) arg
            = Continue (mkState (Some (f b)) None (hf h) (mf m)))
        /\ buildFields arg f mf).
Proof.
  unfold_step. break_step.
  all: try (left; eexists; intros; reflexivity).
  all: try absurd_cond.
  all: right; eexists (fun b => _), (fun h => _), (fun m => _);
    (split; [intros; cbn; reflexivity|]).
  all: split_conds; unfold buildFields; repeat split; intros; cbn;
    first [congruence | reflexivity].
Qed.

Lemma step_transform_fields arg :
  (exists e, forall t h m,
      step ParseLoader kind (mkState None (Some t) h m) arg = Return e)
  \/ (exists g hf mf,
        (forall t h m,
            step ParseLoader kind (mkState None (Some t) h m) arg
            = Continue (mkState None (Some (g t)) (hf h) (mf m)))
        /\ transformFields arg g).
Proof.
  unfold_step. break_step.
  all: try (left; eexists; intros; reflexivity).
  all: try absurd_cond.
  all: right; eexists (fun t => _), (fun h => _), (fun m => _);
    (split; [intros; cbn; reflexivity|]).
  all: split_conds; unfold transformFields; repeat split; intros; cbn;
    first [congruence | reflexivity].
Qed.

End StepFields.

(** ** More fields as folds over the arguments *)

Lemma foldl_set_true {B : Type} (p : B -> bool) (v0 : bool) (l : list B) :
  foldl (fun acc x => if p x then true else acc) v0 l = v0 || existsb p l.
Proof.
  revert v0. induction l as [|x l IH]; intros v0; cbn.
  - by rewrite orb_false_r.
  - rewrite IH. destruct (p x); [|reflexivity]. cbn. by rewrite orb_true_r.
Qed.

Lemma foldl_set_some {A B : Type} (p : B -> bool) (a : A) (v0 : option A) (l : list B) :
  foldl (fun acc x => if p x then Some a else acc) v0 l
  = if existsb p l then Some a else v0.
Proof.
  revert v0. induction l as [|x l IH]; intros v0; cbn; [reflexivity|].
  rewrite IH. destruct (p x); [|reflexivity]. cbn. by destruct (existsb p l).
Qed.

Section MoreFields.

Variable ParseLoader : string -> api.Loader + ErrorWithNote.

Local Abbreviation step := (step ParseLoader kindInternal).
Local Abbreviation loop := (loop ParseLoader kindInternal).

Lemma loop_build_fields_fold {A : Type} (proj : BuildOptions.t -> A)
    (isFlag : string -> bool) (upd : string -> A -> A) :
  (forall arg f mf, isFlag arg = false -> buildFields arg f mf ->
     forall b, proj (f b) = proj b) ->
  (forall arg b h m st', isFlag arg = true ->
     step (mkState (Some b) None h m) arg = Continue st' ->
     exists b', buildOpts st' = Some b' /\ proj b' = upd arg (proj b)) ->
  forall args b h m st',
    loop (mkState (Some b) None h m) args = Done st' ->
    exists b', buildOpts st' = Some b'
      /\ proj b' = foldl (fun a arg => if isFlag arg then upd arg a else a) (proj b) args.
Proof.
  intros Hframe Hupd. induction args as [|arg args IH]; intros b h m st' Hl.
  - injection Hl as <-. by exists b.
  - rewrite loop_cons in Hl.
    destruct (step_build_fields ParseLoader kindInternal arg)
      as [[e He] | (f & hf & mf & Hf & Hfr)].
    + by rewrite He in Hl.
    + rewrite Hf in Hl. apply IH in Hl as (b' & Hb' & Hp).
      exists b'. split; [done|]. rewrite Hp. cbn. f_equal.
      destruct (isFlag arg) eqn:Hflag.
      * destruct (Hupd arg b h m _ Hflag (Hf b h m)) as (b1 & [= <-] & ->). done.
      * by apply Hframe with (arg := arg) (mf := mf).
Qed.

Lemma loop_transform_fields_fold {A : Type} (proj : TransformOptions.t -> A)
    (isFlag : string -> bool) (upd : string -> A -> A) :
  (forall arg g, isFlag arg = false -> transformFields arg g ->
     forall t, proj (g t) = proj t) ->
  (forall arg t h m st', isFlag arg = true ->
     step (mkState None (Some t) h m) arg = Continue st' ->
     exists t', transformOpts st' = Some t' /\ proj t' = upd arg (proj t)) ->
  forall args t h m st',
    loop (mkState None (Some t) h m) args = Done st' ->
    exists t', transformOpts st' = Some t'
      /\ proj t' = foldl (fun a arg => if isFlag arg then upd arg a else a) (proj t) args.
Proof.
  intros Hframe Hupd. induction args as [|arg args IH]; intros t h m st' Hl.
  - injection Hl as <-. by exists t.
  - rewrite loop_cons in Hl.
    destruct (step_transform_fields ParseLoader kindInternal arg)
      as [[e He] | (g & hf & mf & Hg & Hfr)].
    + by rewrite He in Hl.
    + rewrite Hg in Hl. apply IH in Hl as (t' & Ht' & Hp).
      exists t'. split; [done|]. rewrite Hp. cbn. f_equal.
      destruct (isFlag arg) eqn:Hflag.
      * destruct (Hupd arg t h m _ Hflag (Hg t h m)) as (t1 & [= <-] & ->). done.
      * by apply Hframe with (arg := arg).
Qed.

(** A field that no argument writes *)
Lemma loop_build_kept {A : Type} (proj : BuildOptions.t -> A) :
  (forall arg f mf, buildFields arg f mf -> forall b, proj (f b) = proj b) ->
  forall args b h m st',
    loop (mkState (Some b) None h m) args = Done st' ->
    exists b', buildOpts st' = Some b' /\ proj b' = proj b.
Proof.
  intros Hframe args b h m st' Hl.
  destruct (loop_build_fields_fold proj (fun _ => false) (fun _ a => a))
    with (args := args) (b := b) (h := h) (m := m) (st' := st')
    as (b' & Hb' & Hp); [|done|done|].
  - intros arg f mf _. apply Hframe.
  - exists b'. split; [done|]. rewrite Hp. clear.
    generalize (proj b). induction args as [|a args IH]; intros x; [done|apply IH].
Qed.

(** What a run that returns build options has bound: the options are
    the ones the loop leaves, but for the source map mode. *)
Lemma run_build_fields_inv osArgs o mf :
  parseOptionsForRun ParseLoader osArgs = Some (mkRunResult (Some o) mf None None) ->
  exists st b', loop (initState Build) osArgs = Done st
    /\ buildOpts st = Some b' /\ metafile st = mf
    /\ (o = b' \/ o = BuildOptions.set_Sourcemap api.SourceMapInline b').
Proof.
  rewrite parseOptionsForRun_mode. destruct (modeOf osArgs).
  - rewrite runAsBuild_loop.
    destruct (loop (initState Build) osArgs) as [st| |] eqn:Hl; [|done..].
    intros [= Ho Hmf].
    destruct (loop_mode ParseLoader Build (initState Build) osArgs (inMode_init _))
      as [(st' & Hl' & Hm & _)|(st' & e & pre & bad & post & Hl' & _)];
      [|congruence].
    rewrite Hl in Hl'. injection Hl' as <-.
    apply inMode_build in Hm as (b' & h & m & ->).
    exists (mkState (Some b') None h m), b'. split; [done|]. split; [done|].
    unfold reconcile in *. cbn in *.
    destruct (h && _ && _); cbn in *; split; try done; injection Ho as <-; tauto.
  - rewrite runAsTransform_loop.
    destruct (loop (initState Transform) osArgs) as [st| |]; [|done..].
    destruct (transformOpts st); [|done]. cbn. by destruct (negb _ && negb _).
Qed.

End MoreFields.

(** ** The bare flags, the lists and the defaults of a run *)

Section Rounds.

Variable ParseLoader : string -> api.Loader + ErrorWithNote.

Local Abbreviation step := (step ParseLoader kindInternal).
Local Abbreviation loop := (loop ParseLoader kindInternal).

Lemma step_build_bundle b h m :
  step (mkState (Some b) None h m) "--bundle"
  = Continue (mkState (Some (BuildOptions.set_Bundle true b)) None h m).
Proof. run_switch. reflexivity. Qed.

Lemma step_build_preserve_symlinks b h m :
  step (mkState (Some b) None h m) "--preserve-symlinks"
  = Continue (mkState (Some (BuildOptions.set_PreserveSymlinks true b)) None h m).
Proof. run_switch. reflexivity. Qed.

Lemma step_build_splitting b h m :
  step (mkState (Some b) None h m) "--splitting"
  = Continue (mkState (Some (BuildOptions.set_Splitting true b)) None h m).
Proof. run_switch. reflexivity. Qed.

Lemma step_build_allow_overwrite b h m :
  step (mkState (Some b) None h m) "--allow-overwrite"
  = Continue (mkState (Some (BuildOptions.set_AllowOverwrite true b)) None h m).
Proof. run_switch. reflexivity. Qed.

Lemma step_build_watch b h m :
  step (mkState (Some b) None h m) "--watch"
  = Continue (mkState (Some (BuildOptions.set_Watch (Some api.mkWatchMode) b)) None h m).
Proof. run_switch. reflexivity. Qed.

Lemma step_ignore_annotations st :
  step st "--ignore-annotations"
  = onEither (BuildOptions.set_IgnoreAnnotations true)
             (TransformOptions.set_IgnoreAnnotations true) st.
Proof. run_switch. reflexivity. Qed.

Lemma step_keep_names st :
  step st "--keep-names"
  = onEither (BuildOptions.set_KeepNames true) (TransformOptions.set_KeepNames true) st.
Proof. run_switch. reflexivity. Qed.

Lemma step_build_resolve_extensions b h m v :
  step (mkState (Some b) None h m) ("--resolve-extensions=" +:+ v)
  = Continue (mkState (Some (BuildOptions.set_ResolveExtensions
                               (splitWithEmptyCheck v ",") b)) None h m).
Proof. run_switch. by rewrite after_append. Qed.

Lemma step_build_main_fields b h m v :
  step (mkState (Some b) None h m) ("--main-fields=" +:+ v)
  = Continue (mkState (Some (BuildOptions.set_MainFields
                               (splitWithEmptyCheck v ",") b)) None h m).
Proof. run_switch. by rewrite after_append. Qed.

Lemma step_build_conditions b h m v :
  step (mkState (Some b) None h m) ("--conditions=" +:+ v)
  = Continue (mkState (Some (BuildOptions.set_Conditions
                               (splitWithEmptyCheck v ",") b)) None h m).
Proof. run_switch. by rewrite after_append. Qed.

Lemma step_build_metafile b h m v :
  step (mkState (Some b) None h m) ("--metafile=" +:+ v)
  = Continue (mkState (Some (BuildOptions.set_Metafile true b)) None h (Some v)).
Proof. run_switch. by rewrite after_append. Qed.

Lemma step_bare_metafile st :
  step st "--metafile" = invalidFlag st "--metafile".
Proof. destruct st as [[b|] [t|] h m]; run_switch; reflexivity. Qed.

Lemma step_sourcefile st v :
  step st ("--sourcefile=" +:+ v)
  = onEither (onStdin (StdinOptions.set_Sourcefile v))
             (TransformOptions.set_Sourcefile v) st.
Proof. run_switch. by rewrite !after_append. Qed.

Lemma step_loader st v :
  step st ("--loader=" +:+ v)
  = match ParseLoader v with
    | inr err => Return err
    | inl loader =>
        if bool_decide (loader = api.LoaderFile) then
          Return (MakeErrorWithNote
            (q ("--loader=" +:+ v) +:+ " is not supported when transforming stdin")
            (lit ("Using esbuild to transform stdin only generates one output file, so you cannot use the `file` loader "
                  +:+ "since that needs to generate two output files.")))
        else
          onEither (onStdin (StdinOptions.set_Loader loader))
                   (TransformOptions.set_Loader loader) st
    end.
Proof.
  destruct st as [[b|] [t|] h m]; run_switch; cbv zeta; by rewrite !after_append.
Qed.

Lemma step_log_level st v :
  step st ("--log-level=" +:+ v)
  = match logLevelOf v with
    | Some logLevel =>
        onEither (BuildOptions.set_LogLevel logLevel)
                 (TransformOptions.set_LogLevel logLevel) st
    | None =>
        Return (invalidValueError v ("--log-level=" +:+ v)
                  (lit "Valid values are `verbose`, `debug`, `info`, `warning`, `error`, or `silent`."))
    end.
Proof.
  step_to Hs. cbv zeta. rewrite !after_append. unfold logLevelOf.
  split_values v; reflexivity.
Qed.

End Rounds.

Lemma existsb_orb {A : Type} (p r : A -> bool) (l : list A) :
  existsb (fun x => p x || r x) l = existsb p l || existsb r l.
Proof.
  induction l as [|x l IH]; [reflexivity|]. cbn. rewrite IH.
  destruct (p x), (r x), (existsb p l), (existsb r l); reflexivity.
Qed.

Lemma foldl_no_flag {A B : Type} (p : B -> bool) (upd : B -> A -> A) (a0 : A) (l : list B) :
  existsb p l = false ->
  foldl (fun a x => if p x then upd x a else a) a0 l = a0.
Proof.
  revert a0. induction l as [|x l IH]; intros a0; [reflexivity|].
  cbn. destruct (p x); [done|]. cbn. apply IH.
Qed.

Lemma filter_nil_existsb {A : Type} (p : A -> bool) (l : list A) :
  existsb p l = false -> List.filter p l = [].
Proof.
  induction l as [|x l IH]; [reflexivity|]. cbn. destruct (p x); [done|]. apply IH.
Qed.

Section RunFields.

Variable ParseLoader : string -> api.Loader + ErrorWithNote.

Local Abbreviation step := (step ParseLoader kindInternal).
Local Abbreviation loop := (loop ParseLoader kindInternal).
Local Abbreviation run := (parseOptionsForRun ParseLoader).

(** A field of the options a build returns, as a fold over the arguments
    from the default of the command line *)
Lemma run_build_field {A : Type} (proj : BuildOptions.t -> A)
    (isFlag : string -> bool) (upd : string -> A -> A) :
  (forall b, proj (BuildOptions.set_Sourcemap api.SourceMapInline b) = proj b) ->
  (forall arg f mf, isFlag arg = false -> buildFields arg f mf ->
     forall b, proj (f b) = proj b) ->
  (forall arg b h m st', isFlag arg = true ->
     step (mkState (Some b) None h m) arg = Continue st' ->
     exists b', buildOpts st' = Some b' /\ proj b' = upd arg (proj b)) ->
  forall osArgs o mf,
    run osArgs = Some (mkRunResult (Some o) mf None None) ->
    proj o = foldl (fun a arg => if isFlag arg then upd arg a else a)
               (proj buildDefaults) osArgs.
Proof.
  intros Hsm Hframe Hupd osArgs o mf Hrun.
  apply run_build_fields_inv in Hrun as (st & b' & Hl & Hb' & _ & Ho).
  destruct (loop_build_fields_fold ParseLoader proj isFlag upd Hframe Hupd _ _ _ _ _ Hl)
    as (b1 & Hb1 & Hp).
  rewrite Hb' in Hb1. injection Hb1 as <-.
  rewrite <- Hp. destruct Ho as [-> | ->]; [done | apply Hsm].
Qed.

Lemma run_transform_field {A : Type} (proj : TransformOptions.t -> A)
    (isFlag : string -> bool) (upd : string -> A -> A) :
  (forall arg g, isFlag arg = false -> transformFields arg g ->
     forall t, proj (g t) = proj t) ->
  (forall arg t h m st', isFlag arg = true ->
     step (mkState None (Some t) h m) arg = Continue st' ->
     exists t', transformOpts st' = Some t' /\ proj t' = upd arg (proj t)) ->
  forall osArgs t,
    run osArgs = Some (mkRunResult None None (Some t) None) ->
    proj t = foldl (fun a arg => if isFlag arg then upd arg a else a)
               (proj transformDefaults) osArgs.
Proof.
  intros Hframe Hupd osArgs t Hrun.
  apply run_transform_inv in Hrun as (st & Hl & Ht).
  destruct (loop_transform_fields_fold ParseLoader proj isFlag upd Hframe Hupd _ _ _ _ _ Hl)
    as (t1 & Ht1 & Hp).
  rewrite Ht in Ht1. injection Ht1 as <-. done.
Qed.

(** A field that a flag switches on *)
Lemma run_build_switch (proj : BuildOptions.t -> bool) (isFlag : string -> bool) :
  proj buildDefaults = false ->
  (forall b, proj (BuildOptions.set_Sourcemap api.SourceMapInline b) = proj b) ->
  (forall arg f mf, isFlag arg = false -> buildFields arg f mf ->
     forall b, proj (f b) = proj b) ->
  (forall arg b h m st', isFlag arg = true ->
     step (mkState (Some b) None h m) arg = Continue st' ->
     exists b', buildOpts st' = Some b' /\ proj b' = true) ->
  forall osArgs o mf,
    run osArgs = Some (mkRunResult (Some o) mf None None) ->
    proj o = existsb isFlag osArgs.
Proof.
  intros H0 Hsm Hframe Hupd osArgs o mf Hrun.
  rewrite (run_build_field proj isFlag (fun _ _ => true) Hsm Hframe Hupd _ _ _ Hrun).
  by rewrite foldl_set_true, H0.
Qed.

Lemma run_transform_switch (proj : TransformOptions.t -> bool) (isFlag : string -> bool) :
  proj transformDefaults = false ->
  (forall arg g, isFlag arg = false -> transformFields arg g ->
     forall t, proj (g t) = proj t) ->
  (forall arg t h m st', isFlag arg = true ->
     step (mkState None (Some t) h m) arg = Continue st' ->
     exists t', transformOpts st' = Some t' /\ proj t' = true) ->
  forall osArgs t,
    run osArgs = Some (mkRunResult None None (Some t) None) ->
    proj t = existsb isFlag osArgs.
Proof.
  intros H0 Hframe Hupd osArgs t Hrun.
  rewrite (run_transform_field proj isFlag (fun _ _ => true) Hframe Hupd _ _ Hrun).
  by rewrite foldl_set_true, H0.
Qed.

(** A round of a bare flag *)
Ltac bare_round eqn :=
  let arg := fresh "arg" in let b := fresh "b" in let h := fresh "h" in
  let m := fresh "m" in let st := fresh "st" in let Hflag := fresh "Hflag" in
  intros arg b h m st Hflag; apply String.eqb_eq in Hflag as ->;
  rewrite eqn; unfold onEither, onBuild, onTransform; cbn;
  intros [= <-]; eexists; split; reflexivity.

(** A round of [--minify] or of the flag [flag] of one of its parts *)
Ltac minify_round eqn :=
  let arg := fresh "arg" in let b := fresh "b" in let h := fresh "h" in
  let m := fresh "m" in let st := fresh "st" in let Hflag := fresh "Hflag" in
  intros arg b h m st Hflag; apply orb_true_iff in Hflag as [Hflag|Hflag];
  apply String.eqb_eq in Hflag as ->;
  rewrite ?step_minify, ?eqn; unfold onEither, onBuild, onTransform; cbn;
  intros [= <-]; eexists; split; reflexivity.

Ltac minify_frame :=
  let arg := fresh "arg" in let Hflag := fresh "Hflag" in let Hfr := fresh "Hfr" in
  intros arg ? ? Hflag Hfr; apply orb_false_iff in Hflag as [? ?]; by apply Hfr.

Ltac bare_frame :=
  let arg := fresh "arg" in let Hflag := fresh "Hflag" in let Hfr := fresh "Hfr" in
  intros arg ? ? Hflag Hfr; by apply Hfr.

Ltac minify_frame_t :=
  let arg := fresh "arg" in let Hflag := fresh "Hflag" in let Hfr := fresh "Hfr" in
  intros arg ? Hflag Hfr; apply orb_false_iff in Hflag as [? ?]; by apply Hfr.

Ltac bare_frame_t :=
  let arg := fresh "arg" in let Hflag := fresh "Hflag" in let Hfr := fresh "Hfr" in
  intros arg ? Hflag Hfr; by apply Hfr.

(** X9 (the bare flags): a bare flag only ever switches its option on. In
    the options a build returns, each of these options is on exactly when
    its flag is among the arguments, and each part of the minifier when its
    flag or [--minify] is; the same holds for the options a transform
    has. *)
Theorem bare_flags_switch_on (osArgs : list string) :
  (forall o mf,
     run osArgs = Some (mkRunResult (Some o) mf None None) ->
     BuildOptions.Bundle o = hasFlag "--bundle" osArgs
     /\ BuildOptions.PreserveSymlinks o = hasFlag "--preserve-symlinks" osArgs
     /\ BuildOptions.Splitting o = hasFlag "--splitting" osArgs
     /\ BuildOptions.AllowOverwrite o = hasFlag "--allow-overwrite" osArgs
     /\ BuildOptions.Watch o
        = (if hasFlag "--watch" osArgs then Some api.mkWatchMode else None)
     /\ BuildOptions.IgnoreAnnotations o = hasFlag "--ignore-annotations" osArgs
     /\ BuildOptions.KeepNames o = hasFlag "--keep-names" osArgs
     /\ BuildOptions.MinifySyntax o
        = hasFlag "--minify" osArgs || hasFlag "--minify-syntax" osArgs
     /\ BuildOptions.MinifyWhitespace o
        = hasFlag "--minify" osArgs || hasFlag "--minify-whitespace" osArgs
     /\ BuildOptions.MinifyIdentifiers o
        = hasFlag "--minify" osArgs || hasFlag "--minify-identifiers" osArgs)
  /\ (forall t,
        run osArgs = Some (mkRunResult None None (Some t) None) ->
        TransformOptions.IgnoreAnnotations t = hasFlag "--ignore-annotations" osArgs
        /\ TransformOptions.KeepNames t = hasFlag "--keep-names" osArgs
        /\ TransformOptions.MinifySyntax t
           = hasFlag "--minify" osArgs || hasFlag "--minify-syntax" osArgs
        /\ TransformOptions.MinifyWhitespace t
           = hasFlag "--minify" osArgs || hasFlag "--minify-whitespace" osArgs
        /\ TransformOptions.MinifyIdentifiers t
           = hasFlag "--minify" osArgs || hasFlag "--minify-identifiers" osArgs).
Proof.
  unfold hasFlag. split.
  - intros o mf Hrun. repeat split.
    + apply (run_build_switch BuildOptions.Bundle (fun a => String.eqb a "--bundle"))
        with (mf := mf); [done|done|bare_frame| |done].
      bare_round step_build_bundle.
    + apply (run_build_switch BuildOptions.PreserveSymlinks
               (fun a => String.eqb a "--preserve-symlinks"))
        with (mf := mf); [done|done|bare_frame| |done].
      bare_round step_build_preserve_symlinks.
    + apply (run_build_switch BuildOptions.Splitting (fun a => String.eqb a "--splitting"))
        with (mf := mf); [done|done|bare_frame| |done].
      bare_round step_build_splitting.
    + apply (run_build_switch BuildOptions.AllowOverwrite
               (fun a => String.eqb a "--allow-overwrite"))
        with (mf := mf); [done|done|bare_frame| |done].
      bare_round step_build_allow_overwrite.
    + rewrite (run_build_field BuildOptions.Watch (fun a => String.eqb a "--watch")
                 (fun _ _ => Some api.mkWatchMode)) with (osArgs := osArgs) (mf := mf);
        [apply foldl_set_some|done|bare_frame| |done].
      bare_round step_build_watch.
    + apply (run_build_switch BuildOptions.IgnoreAnnotations
               (fun a => String.eqb a "--ignore-annotations"))
        with (mf := mf); [done|done|bare_frame| |done].
      bare_round step_ignore_annotations.
    + apply (run_build_switch BuildOptions.KeepNames (fun a => String.eqb a "--keep-names"))
        with (mf := mf); [done|done|bare_frame| |done].
      bare_round step_keep_names.
    + rewrite <- existsb_orb.
      apply (run_build_switch BuildOptions.MinifySyntax
               (fun a => String.eqb a "--minify" || String.eqb a "--minify-syntax"))
        with (mf := mf); [done|done|minify_frame| |done].
      minify_round step_minify_syntax.
    + rewrite <- existsb_orb.
      apply (run_build_switch BuildOptions.MinifyWhitespace
               (fun a => String.eqb a "--minify" || String.eqb a "--minify-whitespace"))
        with (mf := mf); [done|done|minify_frame| |done].
      minify_round step_minify_whitespace.
    + rewrite <- existsb_orb.
      apply (run_build_switch BuildOptions.MinifyIdentifiers
               (fun a => String.eqb a "--minify" || String.eqb a "--minify-identifiers"))
        with (mf := mf); [done|done|minify_frame| |done].
      minify_round step_minify_identifiers.
  - intros t Hrun. repeat split.
    + apply (run_transform_switch TransformOptions.IgnoreAnnotations
               (fun a => String.eqb a "--ignore-annotations"));
        [done|bare_frame_t| |done].
      bare_round step_ignore_annotations.
    + apply (run_transform_switch TransformOptions.KeepNames
               (fun a => String.eqb a "--keep-names"));
        [done|bare_frame_t| |done].
      bare_round step_keep_names.
    + rewrite <- existsb_orb.
      apply (run_transform_switch TransformOptions.MinifySyntax
               (fun a => String.eqb a "--minify" || String.eqb a "--minify-syntax"));
        [done|minify_frame_t| |done].
      minify_round step_minify_syntax.
    + rewrite <- existsb_orb.
      apply (run_transform_switch TransformOptions.MinifyWhitespace
               (fun a => String.eqb a "--minify" || String.eqb a "--minify-whitespace"));
        [done|minify_frame_t| |done].
      minify_round step_minify_whitespace.
    + rewrite <- existsb_orb.
      apply (run_transform_switch TransformOptions.MinifyIdentifiers
               (fun a => String.eqb a "--minify" || String.eqb a "--minify-identifiers"));
        [done|minify_frame_t| |done].
      minify_round step_minify_identifiers.
Qed.

End RunFields.

(** ** The lists, the defaults, the standard input and the metafile of a run *)

Lemma sourcefile_not_loader arg :
  strings.HasPrefix arg "--sourcefile=" = true -> strings.HasPrefix arg "--loader=" = false.
Proof. intros H. rewrite (HasPrefix_split _ _ H). reflexivity. Qed.

Section StdinFold.

Variable ParseLoader : string -> api.Loader + ErrorWithNote.

Lemma foldl_stdin (o0 : option StdinOptions.t) (args : list string) :
  foldl (fun o arg => if isStdinFlag arg then stdinUpd ParseLoader arg o else o) o0 args
  = if existsb isStdinFlag args then
      let stdin := default StdinOptions.zero o0 in
      Some (StdinOptions.mk (StdinOptions.Contents stdin) (StdinOptions.ResolveDir stdin)
              (match last (List.filter (fun a => strings.HasPrefix a "--sourcefile=") args) with
               | Some a => after "--sourcefile=" a
               | None => StdinOptions.Sourcefile stdin
               end)
              (match last (List.filter (fun a => strings.HasPrefix a "--loader=") args) with
               | Some a => loaderOf ParseLoader (after "--loader=" a)
               | None => StdinOptions.Loader stdin
               end))
    else o0.
Proof.
  revert o0. induction args as [|x l IH]; intros o0; [reflexivity|].
  cbn [foldl existsb List.filter]. rewrite IH. clear IH.
  destruct (strings.HasPrefix x "--sourcefile=") eqn:Hsf.
  - assert (isStdinFlag x = true) as Hx by (unfold isStdinFlag; by rewrite Hsf).
    rewrite !Hx, (sourcefile_not_loader _ Hsf). cbn [orb].
    unfold stdinUpd. rewrite Hsf. cbn [default].
    destruct (existsb isStdinFlag l) eqn:Hl.
    + cbv zeta. cbn [StdinOptions.set_Sourcefile StdinOptions.Contents
        StdinOptions.ResolveDir StdinOptions.Sourcefile StdinOptions.Loader].
      rewrite last_cons_default.
      by destruct (last (List.filter _ l)).
    + unfold isStdinFlag in Hl. rewrite existsb_orb in Hl.
      apply orb_false_iff in Hl as [H1 H2].
      rewrite (filter_nil_existsb _ _ H1), (filter_nil_existsb _ _ H2). reflexivity.
  - destruct (strings.HasPrefix x "--loader=") eqn:Hld.
    + assert (isStdinFlag x = true) as Hx by (unfold isStdinFlag; by rewrite Hsf, Hld).
      rewrite !Hx. cbn [orb].
      unfold stdinUpd. rewrite Hsf. cbn [default].
      destruct (existsb isStdinFlag l) eqn:Hl.
      * cbv zeta. cbn [StdinOptions.set_Loader StdinOptions.Contents
          StdinOptions.ResolveDir StdinOptions.Sourcefile StdinOptions.Loader].
        rewrite last_cons_default.
        by destruct (last (List.filter (fun a => strings.HasPrefix a "--loader=") l)).
      * unfold isStdinFlag in Hl. rewrite existsb_orb in Hl.
        apply orb_false_iff in Hl as [H1 H2].
        rewrite (filter_nil_existsb _ _ H1), (filter_nil_existsb _ _ H2). reflexivity.
    + assert (isStdinFlag x = false) as Hx by (unfold isStdinFlag; by rewrite Hsf, Hld).
      rewrite !Hx. reflexivity.
Qed.

End StdinFold.

Section RunMore.

Variable ParseLoader : string -> api.Loader + ErrorWithNote.

Local Abbreviation step := (step ParseLoader kindInternal).
Local Abbreviation loop := (loop ParseLoader kindInternal).
Local Abbreviation run := (parseOptionsForRun ParseLoader).

(** A round of a flag with a value *)
Ltac value_round eqn :=
  let arg := fresh "arg" in let b := fresh "b" in let h := fresh "h" in
  let m := fresh "m" in let st := fresh "st" in let Hflag := fresh "Hflag" in
  intros arg b h m st Hflag; rewrite (HasPrefix_split _ _ Hflag);
  rewrite eqn, ?after_append; unfold onEither, onBuild, onTransform; cbn.

Lemma run_build_comma_list (proj : BuildOptions.t -> list string) (prefix : string) :
  proj buildDefaults = [] ->
  (forall b, proj (BuildOptions.set_Sourcemap api.SourceMapInline b) = proj b) ->
  (forall arg f mf, strings.HasPrefix arg prefix = false -> buildFields arg f mf ->
     forall b, proj (f b) = proj b) ->
  (forall b h m v st',
     step (mkState (Some b) None h m) (prefix +:+ v) = Continue st' ->
     exists b', buildOpts st' = Some b' /\ proj b' = splitWithEmptyCheck v ",") ->
  forall osArgs o mf,
    run osArgs = Some (mkRunResult (Some o) mf None None) ->
    proj o = splitWithEmptyCheck (lastValue prefix osArgs) ",".
Proof.
  intros H0 Hsm Hframe Hupd osArgs o mf Hrun.
  rewrite (run_build_field ParseLoader proj (fun a => strings.HasPrefix a prefix)
             (fun arg _ => splitWithEmptyCheck (after prefix arg) ",")
             Hsm Hframe) with (osArgs := osArgs) (mf := mf); [| |done].
  - rewrite foldl_last_wins. unfold lastValue.
    destruct (last (List.filter _ osArgs)); [reflexivity|]. by rewrite H0.
  - intros arg b h m st' Hflag. rewrite (HasPrefix_split _ _ Hflag).
    rewrite after_append. apply Hupd.
Qed.

(** X10 (the comma lists): in the options a build returns, each of the
    lists of resolve extensions, main fields and conditions is the value of
    the last argument of its flag, split at the commas; an empty value, as
    no flag at all, gives the empty list. *)
Theorem comma_lists_last_value (osArgs : list string) (o : BuildOptions.t)
    (mf : option string) :
  run osArgs = Some (mkRunResult (Some o) mf None None) ->
  BuildOptions.ResolveExtensions o
  = splitWithEmptyCheck (lastValue "--resolve-extensions=" osArgs) ","
  /\ BuildOptions.MainFields o
     = splitWithEmptyCheck (lastValue "--main-fields=" osArgs) ","
  /\ BuildOptions.Conditions o
     = splitWithEmptyCheck (lastValue "--conditions=" osArgs) ",".
Proof.
  intros Hrun. repeat split.
  - apply (run_build_comma_list BuildOptions.ResolveExtensions "--resolve-extensions=")
      with (mf := mf); [done|done| | |done].
    + intros arg f mf' Hflag Hfr. by apply Hfr.
    + intros b h m v st'. rewrite step_build_resolve_extensions.
      intros [= <-]. eexists. split; reflexivity.
  - apply (run_build_comma_list BuildOptions.MainFields "--main-fields=")
      with (mf := mf); [done|done| | |done].
    + intros arg f mf' Hflag Hfr. by apply Hfr.
    + intros b h m v st'. rewrite step_build_main_fields.
      intros [= <-]. eexists. split; reflexivity.
  - apply (run_build_comma_list BuildOptions.Conditions "--conditions=")
      with (mf := mf); [done|done| | |done].
    + intros arg f mf' Hflag Hfr. by apply Hfr.
    + intros b h m v st'. rewrite step_build_conditions.
      intros [= <-]. eexists. split; reflexivity.
Qed.

Lemma run_build_kept {A : Type} (proj : BuildOptions.t -> A) :
  (forall b, proj (BuildOptions.set_Sourcemap api.SourceMapInline b) = proj b) ->
  (forall arg f mf, buildFields arg f mf -> forall b, proj (f b) = proj b) ->
  forall osArgs o mf,
    run osArgs = Some (mkRunResult (Some o) mf None None) ->
    proj o = proj buildDefaults.
Proof.
  intros Hsm Hframe osArgs o mf Hrun.
  rewrite (run_build_field ParseLoader proj (fun _ => false) (fun _ a => a) Hsm)
    with (osArgs := osArgs) (mf := mf); [|by intros; eapply Hframe|done|done].
  clear. generalize (proj buildDefaults).
  induction osArgs as [|a l IH]; intros x; [done | apply IH].
Qed.

Lemma foldl_log_limit (l : list string) (a0 : Z) :
  foldl (fun a arg => if strings.HasPrefix arg "--log-limit="
                      then default a (logLimitOf (after "--log-limit=" arg)) else a) a0 l
  = default a0 (last (omap logLimitFlag l)).
Proof.
  transitivity (match last (omap logLimitFlag l) with Some a => a | None => a0 end);
    [|by destruct (last (omap logLimitFlag l))].
  rewrite <- (foldl_last_omap logLimitFlag a0 l).
  apply foldl_ext_fun. intros a x. unfold logLimitFlag.
  destruct (strings.HasPrefix x "--log-limit="); [|done].
  by destruct (logLimitOf _).
Qed.

Lemma foldl_log_level (l : list string) (a0 : api.LogLevel) :
  foldl (fun a arg => if strings.HasPrefix arg "--log-level="
                      then default a (logLevelOf (after "--log-level=" arg)) else a) a0 l
  = default a0 (last (omap logLevelFlag l)).
Proof.
  transitivity (match last (omap logLevelFlag l) with Some a => a | None => a0 end);
    [|by destruct (last (omap logLevelFlag l))].
  rewrite <- (foldl_last_omap logLevelFlag a0 l).
  apply foldl_ext_fun. intros a x. unfold logLevelFlag.
  destruct (strings.HasPrefix x "--log-level="); [|done].
  by destruct (logLevelOf _).
Qed.

(** X11 (the defaults of the command line): the options a build returns
    are to be written to the file system, and hold no node paths and no
    contents or directory of the standard input, whatever the arguments;
    the log limit is the one of the last [--log-limit=] argument and 6
    without one, and the log level the one of the last [--log-level=]
    argument and [info] without one, in a build as in a transform. *)
Theorem cli_defaults (osArgs : list string) :
  (forall o mf,
     run osArgs = Some (mkRunResult (Some o) mf None None) ->
     BuildOptions.Write o = true
     /\ BuildOptions.NodePaths o = []
     /\ stdinRead (BuildOptions.Stdin o) = (EmptyString, EmptyString)
     /\ BuildOptions.LogLimit o = default 6%Z (last (omap logLimitFlag osArgs))
     /\ BuildOptions.LogLevel o
        = default api.LogLevelInfo (last (omap logLevelFlag osArgs)))
  /\ (forall t,
        run osArgs = Some (mkRunResult None None (Some t) None) ->
        TransformOptions.LogLimit t = default 6%Z (last (omap logLimitFlag osArgs))
        /\ TransformOptions.LogLevel t
           = default api.LogLevelInfo (last (omap logLevelFlag osArgs))).
Proof.
  split.
  - intros o mf Hrun. repeat split.
    + apply (run_build_kept BuildOptions.Write) with (osArgs := osArgs) (mf := mf);
        [done| |done].
      intros arg f mf' Hfr. by apply Hfr.
    + apply (run_build_kept BuildOptions.NodePaths) with (osArgs := osArgs) (mf := mf);
        [done| |done].
      intros arg f mf' Hfr. by apply Hfr.
    + apply (run_build_kept (fun b => stdinRead (BuildOptions.Stdin b)))
        with (osArgs := osArgs) (mf := mf); [done| |done].
      intros arg f mf' Hfr. by apply Hfr.
    + rewrite <- foldl_log_limit.
      apply (run_build_field ParseLoader BuildOptions.LogLimit
               (fun a => strings.HasPrefix a "--log-limit=")
               (fun arg a => default a (logLimitOf (after "--log-limit=" arg))))
        with (mf := mf); [done| | |done].
      * intros arg f mf' Hflag Hfr. by apply Hfr.
      * value_round (step_log_limit ParseLoader kindInternal).
        destruct (logLimitOf _); [|done]. intros [= <-]. eexists. split; reflexivity.
    + rewrite <- foldl_log_level.
      apply (run_build_field ParseLoader BuildOptions.LogLevel
               (fun a => strings.HasPrefix a "--log-level=")
               (fun arg a => default a (logLevelOf (after "--log-level=" arg))))
        with (mf := mf); [done| | |done].
      * intros arg f mf' Hflag Hfr. by apply Hfr.
      * value_round step_log_level.
        destruct (logLevelOf _); [|done]. intros [= <-]. eexists. split; reflexivity.
  - intros t Hrun. split.
    + rewrite <- foldl_log_limit.
      apply (run_transform_field ParseLoader TransformOptions.LogLimit
               (fun a => strings.HasPrefix a "--log-limit=")
               (fun arg a => default a (logLimitOf (after "--log-limit=" arg))));
        [| |done].
      * intros arg g Hflag Hfr. by apply Hfr.
      * value_round (step_log_limit ParseLoader kindInternal).
        destruct (logLimitOf _); [|done]. intros [= <-]. eexists. split; reflexivity.
    + rewrite <- foldl_log_level.
      apply (run_transform_field ParseLoader TransformOptions.LogLevel
               (fun a => strings.HasPrefix a "--log-level=")
               (fun arg a => default a (logLevelOf (after "--log-level=" arg))));
        [| |done].
      * intros arg g Hflag Hfr. by apply Hfr.
      * value_round step_log_level.
        destruct (logLevelOf _); [|done]. intros [= <-]. eexists. split; reflexivity.
Qed.

(** The options of the standard input of a build, from its flags *)
Lemma run_build_Stdin osArgs o mf :
  run osArgs = Some (mkRunResult (Some o) mf None None) ->
  BuildOptions.Stdin o
  = if existsb isStdinFlag osArgs then
      Some (StdinOptions.mk EmptyString EmptyString
              (lastValue "--sourcefile=" osArgs) (stdinLoader ParseLoader osArgs))
    else None.
Proof.
  intros Hrun.
  rewrite (run_build_field ParseLoader BuildOptions.Stdin isStdinFlag (stdinUpd ParseLoader))
    with (osArgs := osArgs) (mf := mf); [apply foldl_stdin|done| | |done].
  - intros arg f mf' Hflag Hfr. apply orb_false_iff in Hflag as [? ?]. by apply Hfr.
  - intros arg b h m st' Hflag. unfold stdinUpd.
    destruct (strings.HasPrefix arg "--sourcefile=") eqn:Hsf.
    + rewrite (HasPrefix_split _ _ Hsf) at 1. rewrite step_sourcefile.
      unfold onEither, onBuild; cbn. intros [= <-]. eexists. split; [reflexivity|].
      cbn. by destruct (BuildOptions.Stdin b).
    + unfold isStdinFlag in Hflag. rewrite Hsf in Hflag. cbn in Hflag.
      rewrite (HasPrefix_split _ _ Hflag) at 1. rewrite step_loader.
      unfold loaderOf.
      destruct (ParseLoader _) as [loader|]; [|done].
      destruct (bool_decide _); [done|].
      unfold onEither, onBuild; cbn. intros [= <-]. eexists. split; [reflexivity|].
      cbn. by destruct (BuildOptions.Stdin b).
Qed.

(** X12 (the options of the standard input): a build has options of the
    standard input exactly when an argument is a [--sourcefile=] or a
    [--loader=] flag; they hold the value of the last [--sourcefile=]
    argument and the loader of the last [--loader=] argument, as the
    options of a transform do. *)
Theorem stdin_options (osArgs : list string) :
  (forall o mf,
     run osArgs = Some (mkRunResult (Some o) mf None None) ->
     BuildOptions.Stdin o
     = if existsb isStdinFlag osArgs then
         Some (StdinOptions.mk EmptyString EmptyString
                 (lastValue "--sourcefile=" osArgs) (stdinLoader ParseLoader osArgs))
       else None)
  /\ (forall t,
        run osArgs = Some (mkRunResult None None (Some t) None) ->
        TransformOptions.Sourcefile t = lastValue "--sourcefile=" osArgs
        /\ TransformOptions.Loader t = stdinLoader ParseLoader osArgs).
Proof.
  split; [apply run_build_Stdin|].
  intros t Hrun. split.
  - rewrite (run_transform_field ParseLoader TransformOptions.Sourcefile
               (fun a => strings.HasPrefix a "--sourcefile=")
               (fun arg _ => after "--sourcefile=" arg)) with (osArgs := osArgs);
      [apply foldl_last_wins| | |done].
    + intros arg g Hflag Hfr. by apply Hfr.
    + value_round step_sourcefile. intros [= <-]. eexists. split; reflexivity.
  - rewrite (run_transform_field ParseLoader TransformOptions.Loader
               (fun a => strings.HasPrefix a "--loader=")
               (fun arg _ => loaderOf ParseLoader (after "--loader=" arg)))
      with (osArgs := osArgs); [apply foldl_last_wins| | |done].
    + intros arg g Hflag Hfr. by apply Hfr.
    + value_round step_loader. unfold loaderOf.
      destruct (ParseLoader _) as [loader|]; [|done].
      destruct (bool_decide _); [done|].
      cbn. intros [= <-]. eexists. split; reflexivity.
Qed.

(** The metafile path of the binder after a build *)
Lemma loop_build_metafile args b h m st' :
  loop (mkState (Some b) None h m) args = Done st' ->
  metafile st'
  = foldl (fun m arg => if strings.HasPrefix arg "--metafile="
                        then Some (after "--metafile=" arg) else m) m args
  /\ ~ In "--metafile" args.
Proof.
  revert b h m. induction args as [|arg args IH]; intros b h m Hl.
  - injection Hl as <-. split; [done|]. by intros [].
  - rewrite loop_cons in Hl.
    destruct (step_build_fields ParseLoader kindInternal arg)
      as [[e He] | (f & hf & mf & Hf & Hfr)]; [by rewrite He in Hl|].
    rewrite Hf in Hl. apply IH in Hl as [Hm Hnot].
    assert (arg <> "--metafile") as Hne.
    { intros ->. specialize (Hf b h m). by rewrite step_bare_metafile in Hf. }
    split; [|by intros [?|?]].
    rewrite Hm. cbn [foldl]. f_equal.
    destruct (strings.HasPrefix arg "--metafile=") eqn:Hflag.
    + specialize (Hf b h m). rewrite (HasPrefix_split _ _ Hflag) in Hf at 1.
      rewrite step_build_metafile in Hf. by injection Hf as _ _ <-.
    + apply Hfr; [|done]. by apply String.eqb_neq.
Qed.

Lemma run_build_metafile (osArgs : list string) (o : BuildOptions.t) (mf : option string) :
  run osArgs = Some (mkRunResult (Some o) mf None None) ->
  mf = metafileOf osArgs
  /\ BuildOptions.Metafile o
     = existsb (fun a => strings.HasPrefix a "--metafile=") osArgs
  /\ ~ In "--metafile" osArgs.
Proof.
  intros Hrun.
  pose proof Hrun as (st & b' & Hl & Hb' & Hmf & Ho)%run_build_fields_inv.
  apply loop_build_metafile in Hl as [Hm Hnot].
  split; [|split; [|done]].
  - rewrite <- Hmf, Hm. unfold metafileOf.
    rewrite (foldl_last_wins (fun a => strings.HasPrefix a "--metafile=")
               (fun a => Some (after "--metafile=" a))).
    by destruct (last (List.filter _ osArgs)).
  - rewrite (run_build_field ParseLoader BuildOptions.Metafile
               (fun a => String.eqb a "--metafile" || strings.HasPrefix a "--metafile=")
               (fun _ _ => true)) with (osArgs := osArgs) (mf := mf); [|done| | |done].
    + rewrite foldl_set_true, existsb_orb. cbn [orb].
      replace (existsb (fun a => String.eqb a "--metafile") osArgs) with false; [done|].
      symmetry. apply not_true_iff_false. intros (a & Hin & ->%String.eqb_eq)%existsb_exists.
      done.
    + intros arg f mf' Hflag Hfr. apply orb_false_iff in Hflag as [? ?]. by apply Hfr.
    + intros arg b h m st0 Hflag. apply orb_true_iff in Hflag as [->%String.eqb_eq|Hflag].
      * by rewrite step_bare_metafile.
      * rewrite (HasPrefix_split _ _ Hflag). rewrite step_build_metafile.
        intros [= <-]. eexists. split; reflexivity.
Qed.

Lemma run_build_shape args r b :
  run args = Some r -> runBuild r = Some b ->
  r = mkRunResult (Some b) (runMetafile r) None None.
Proof.
  rewrite parseOptionsForRun_mode. destruct (modeOf args).
  - rewrite runAsBuild_loop. destruct (loop _ args); [|by intros [= <-]|done].
    intros [= <-]. cbn. by intros ->.
  - rewrite runAsTransform_loop. destruct (loop _ args); [|by intros [= <-]|done].
    destruct (transformOpts st); [|done]. cbn.
    destruct (negb _ && negb _); by intros [= <-].
Qed.

(** X13 (the metafile of a run): the path a build returns beside its
    options is the value of the last [--metafile=] argument, the build is
    asked for a metafile exactly when there is such an argument, and the
    bare [--metafile] is no flag of the command line; a run that returns no
    build options returns no path. *)
Theorem run_metafile (osArgs : list string) (r : RunResult) :
  run osArgs = Some r ->
  match runBuild r with
  | Some o =>
      runMetafile r = metafileOf osArgs
      /\ BuildOptions.Metafile o
         = existsb (fun a => strings.HasPrefix a "--metafile=") osArgs
      /\ ~ In "--metafile" osArgs
  | None => runMetafile r = None
  end.
Proof.
  intros Hrun. destruct (runBuild r) as [o|] eqn:Hb.
  - rewrite (run_build_shape _ _ _ Hrun Hb) in Hrun.
    by apply run_build_metafile in Hrun.
  - revert Hrun Hb. rewrite parseOptionsForRun_mode. destruct (modeOf osArgs).
    + rewrite runAsBuild_loop.
      destruct (loop_mode ParseLoader Build (initState Build) osArgs (inMode_init _))
        as [(st & -> & Hm & _)|(st & e & pre & bad & post & -> & _)].
      * apply reconcile_inMode in Hm as [[b Hb] _]. intros [= <-]. cbn. by rewrite Hb.
      * by intros [= <-].
    + rewrite runAsTransform_loop. destruct (loop _ osArgs); [|by intros [= <-]|done].
      destruct (transformOpts st); [|done]. cbn.
      destruct (negb _ && negb _); by intros [= <-].
Qed.

End RunMore.

(** ** The entry points read back *)

Lemma IndexByte_sliceTo s c i :
  strings.IndexByte s c = Some i -> strings.IndexByte (strings.sliceTo i s) c = None.
Proof.
  revert i. induction s as [|x s IH]; intros i; [done|].
  cbn [strings.IndexByte]. destruct (Ascii.eqb x c) eqn:Hx.
  - by intros [= <-].
  - destruct (strings.IndexByte s c) as [j|]; [|done]. intros [= <-].
    cbn. by rewrite Hx, IH.
Qed.

Lemma advancedOf_render args :
  map renderEntryPoint (advancedOf args)
  = List.filter (fun a => negb (strings.HasPrefix a "-") && hasEquals a) args
  /\ Forall (fun e => strings.IndexByte (api.OutputPath e) "=" = None) (advancedOf args).
Proof.
  induction args as [|a args [IH1 IH2]]; [by split|].
  unfold advancedOf in *. cbn [omap list_omap List.filter]. unfold hasEquals at 1.
  destruct (negb (strings.HasPrefix a "-")); cbn [andb]; [|by split].
  destruct (strings.IndexByte a "=") as [i|] eqn:Hi; [|by split].
  cbn [map]. split.
  - rewrite IH1. f_equal. unfold renderEntryPoint. cbn.
    symmetry. by apply IndexByte_split.
  - constructor; [|done]. cbn. by apply IndexByte_sliceTo.
Qed.

Section EntryRead.

Variable ParseLoader : string -> api.Loader + ErrorWithNote.

Local Abbreviation run := (parseOptionsForRun ParseLoader).

(** X6 (the entry points read back): every argument of a build without a
    leading dash is one entry point, and no other argument is. An argument
    with [=] is split at its first [=] into the output path, which holds no
    [=], and the input path, so that the two paths joined by [=] are the
    argument again; an argument without [=] is the entry point as it is. *)
Theorem entry_points_read_back (osArgs : list string) (o : BuildOptions.t)
    (mf : option string) :
  run osArgs = Some (mkRunResult (Some o) mf None None) ->
  BuildOptions.EntryPoints o
  = List.filter (fun a => negb (strings.HasPrefix a "-") && negb (hasEquals a)) osArgs
  /\ map renderEntryPoint (BuildOptions.EntryPointsAdvanced o)
     = List.filter (fun a => negb (strings.HasPrefix a "-") && hasEquals a) osArgs
  /\ Forall (fun e => strings.IndexByte (api.OutputPath e) "=" = None)
       (BuildOptions.EntryPointsAdvanced o).
Proof.
  intros (st & b' & Hl & Hb' & _ & Ho)%run_build_fields_inv.
  destruct (loop_build_EntryPoints ParseLoader _ _ _ _ _ Hl) as (b1 & Hb1 & HE & HA).
  rewrite Hb' in Hb1. injection Hb1 as <-.
  assert (BuildOptions.EntryPoints o = entryPointsOf osArgs
          /\ BuildOptions.EntryPointsAdvanced o = advancedOf osArgs) as [-> ->].
  { destruct Ho as [-> | ->]; cbn; by rewrite HE, HA. }
  destruct (advancedOf_render osArgs) as [H1 H2]. done.
Qed.

End EntryRead.

(** ** The advice for the other separator *)

Lemma two_dash_cut key sep value :
  strings.IndexByte key sep = None ->
  Ascii.eqb "-" sep = false ->
  let arg := "--" +:+ key +:+ String sep value in
  strings.IndexByte arg sep = Some (S (S (String.length key)))
  /\ slice 2 (S (S (String.length key))) arg = key
  /\ strings.sliceTo (S (S (String.length key))) arg = "--" +:+ key
  /\ strings.sliceFrom (S (S (String.length key)) + 1) arg = value.
Proof.
  intros Hk Hsep arg. unfold arg.
  change ("--" +:+ key +:+ String sep value)
    with (String "-" (String "-" (key +:+ String sep value))).
  rewrite !IndexByte_dash by done. rewrite (IndexByte_key key sep value Hk).
  split; [done|]. split; [|split].
  - unfold slice. cbn [strings.sliceFrom].
    replace (S (S (String.length key)) - 2)%nat with (String.length key) by lia.
    apply sliceTo_append.
  - cbn [strings.sliceTo]. by rewrite sliceTo_append.
  - cbn [Nat.add strings.sliceFrom].
    replace (String.length key + 1)%nat with (String.length (key +:+ String sep EmptyString)).
    + change (key +:+ String sep value)
        with (key +:+ (String sep EmptyString +:+ value)).
      rewrite <- append_assoc. apply sliceFrom_append.
    + rewrite length_append. cbn. lia.
Qed.

(** A text with the separator of the other kind in it is no flag name. *)
Lemma lookupBool_plain table s c :
  (table = bare \/ table = equals \/ table = colon) ->
  (c = "="%char \/ c = ":"%char) ->
  strings.IndexByte s c <> None -> lookupBool table s = false.
Proof.
  intros Ht Hc Hs. apply not_true_iff_false. intros Hin%lookupBool_In.
  destruct (key_plain table s Ht Hin) as [H1 H2].
  destruct Hc as [-> | ->]; congruence.
Qed.

Lemma sliceTo_past a b n :
  (String.length a <= n)%nat ->
  strings.sliceTo n (a +:+ b) = a +:+ strings.sliceTo (n - String.length a) b.
Proof.
  revert n. induction a as [|x a IH]; intros n Hn.
  - rewrite !append_nil. cbn. by rewrite Nat.sub_0_r.
  - destruct n as [|n]; [cbn in Hn; lia|].
    rewrite !append_cons. cbn [strings.sliceTo String.length Nat.sub].
    rewrite IH by (cbn in Hn; lia). done.
Qed.

Lemma twoDashNote_colon key value :
  In key equals ->
  twoDashNote ("--" +:+ key +:+ ":" +:+ value)
  = useEqualsAdvice ("--" +:+ key +:+ "=" +:+ value) ("--" +:+ key +:+ ":" +:+ value).
Proof.
  intros Hin. destruct (key_plain equals key) as [_ Hk]; [auto|done|].
  destruct (two_dash_cut key ":" value Hk eq_refl) as (Hi & Hs & Hto & Hfrom).
  unfold twoDashNote. cbv zeta.
  change (":" +:+ value) with (String ":" value).
  rewrite Hi, Hs, Hto, Hfrom. apply lookupBool_In in Hin. rewrite Hin.
  unfold useEqualsAdvice. by rewrite !append_assoc.
Qed.

Lemma twoDashNote_equals key value :
  In key colon ->
  twoDashNote ("--" +:+ key +:+ "=" +:+ value)
  = useColonAdvice ("--" +:+ key +:+ ":" +:+ value) ("--" +:+ key +:+ "=" +:+ value).
Proof.
  intros Hin. destruct (key_plain colon key) as [Hk Hk']; [auto|done|].
  destruct (two_dash_cut key "=" value Hk eq_refl) as (Hi & Hs & Hto & Hfrom).
  unfold twoDashNote. cbv zeta.
  change ("=" +:+ value) with (String "=" value).
  rewrite Hi, Hs, Hto, Hfrom.
  pose proof Hin as Hin'. apply lookupBool_In in Hin'. rewrite Hin'.
  set (arg := "--" +:+ key +:+ String "=" value).
  assert (forall i, strings.IndexByte arg ":" = Some i ->
            lookupBool equals (slice 2 i arg) = false) as Hnot.
  { intros i Hc. apply (lookupBool_plain equals _ "="); [auto|auto|].
    unfold arg in *.
    change ("--" +:+ key +:+ String "=" value)
      with (String "-" (String "-" (key +:+ String "=" value))) in *.
    rewrite !IndexByte_dash in Hc by done.
    rewrite IndexByte_append, Hk' in Hc.
    cbn [strings.IndexByte Ascii.eqb Bool.eqb andb] in Hc.
    destruct (strings.IndexByte value ":") as [j|]; [|done].
    cbn in Hc. injection Hc as <-.
    unfold slice. cbn [strings.sliceFrom Nat.sub].
    rewrite Nat.sub_0_r, sliceTo_past by lia.
    rewrite IndexByte_append, Hk.
    replace (String.length key + S j - String.length key)%nat with (S j) by lia.
    cbn. done. }
  destruct (strings.IndexByte arg ":") as [i|] eqn:Hc.
  - rewrite (Hnot i eq_refl). unfold useColonAdvice. by rewrite !append_assoc.
  - unfold useColonAdvice. by rewrite !append_assoc.
Qed.

Section TwoDash.

Variable ParseLoader : string -> api.Loader + ErrorWithNote.
Variable kind : parseOptionsKind.

Local Abbreviation step := (step ParseLoader kind).

(** The flags that are specified once, given with a colon: they reach the
    default case, in a build unless they are flags with a colon as well *)
Lemma step_colon_form st key value :
  In key equals -> (hasBuild st = true -> ~ In key colon) ->
  step st ("--" +:+ key +:+ ":" +:+ value)
  = invalidFlag st ("--" +:+ key +:+ ":" +:+ value).
Proof.
  intros Hin Hcolon. unfold equals in Hin.
  assert (In key colon -> hasBuild st = false) as Hb.
  { intros Hc. destruct (hasBuild st); [by destruct Hcolon|done]. }
  repeat (destruct Hin as [<-|Hin]); [..|done].
  all: try (assert (hasBuild st = false) as Hst by (apply Hb; vm_compute; tauto);
            destruct st as [[b|] to h m]; [discriminate Hst|]).
  all: run_switch; reflexivity.
Qed.

(** The flags that are specified again, given with an equals sign *)
Lemma step_equals_form st key value :
  In key colon -> key <> "loader" -> (hasTransform st = true -> ~ In key equals) ->
  (hasBuild st = true \/ hasTransform st = true) ->
  step st ("--" +:+ key +:+ "=" +:+ value)
  = invalidFlag st ("--" +:+ key +:+ "=" +:+ value).
Proof.
  intros Hin Hloader Hequals Hmode. unfold colon in Hin.
  assert (In key equals -> hasTransform st = false) as Ht.
  { intros Hc. destruct (hasTransform st); [by destruct Hequals|done]. }
  repeat (destruct Hin as [<-|Hin]); [..|done]; try done.
  all: try (assert (hasTransform st = false) as Hst by (apply Ht; vm_compute; tauto);
            destruct st as [[b|] [t|] h m]; try discriminate Hst;
            [|by destruct Hmode]).
  all: run_switch; reflexivity.
Qed.

(** X7 (the advice for the other separator): a flag that is specified
    once and is given with a colon is an invalid flag whose note advises
    the form with [=], and a flag that can be specified again and is given
    with [=] is an invalid flag whose note advises the form with a colon,
    whatever the value; the flags that have both forms in the mode are left
    aside. *)
Theorem two_dash_separator_advice (mode : Mode) (st : State) (key value : string) :
  inMode mode st ->
  (In key equals -> (mode = Build -> ~ In key colon) ->
   step st ("--" +:+ key +:+ ":" +:+ value)
   = Return (invalidFlagError mode ("--" +:+ key +:+ ":" +:+ value)
               (useEqualsAdvice ("--" +:+ key +:+ "=" +:+ value)
                  ("--" +:+ key +:+ ":" +:+ value))))
  /\ (In key colon -> key <> "loader" -> (mode = Transform -> ~ In key equals) ->
      step st ("--" +:+ key +:+ "=" +:+ value)
      = Return (invalidFlagError mode ("--" +:+ key +:+ "=" +:+ value)
                  (useColonAdvice ("--" +:+ key +:+ ":" +:+ value)
                     ("--" +:+ key +:+ "=" +:+ value)))).
Proof.
  intros Hst.
  assert (hasBuild st = true -> mode = Build) as HB.
  { intros H. destruct mode; [done|]. destruct Hst as [Hb _].
    unfold hasBuild in H. by rewrite Hb in H. }
  assert (hasTransform st = true -> mode = Transform) as HT.
  { intros H. destruct mode; [|done]. destruct Hst as [_ Ht].
    unfold hasTransform in H. by rewrite Ht in H. }
  assert (hasBuild st = true \/ hasTransform st = true) as Hmode.
  { unfold hasBuild, hasTransform.
    destruct mode; destruct Hst as [H1 H2].
    - left. by destruct H1 as [? ->].
    - right. by destruct H2 as [? ->]. }
  split.
  - intros Hin Hcolon.
    rewrite step_colon_form; [|assumption|intros H; apply Hcolon, HB, H].
    rewrite (invalidFlag_mode mode) by done. do 2 f_equal.
    change (defaultNote ("--" +:+ key +:+ ":" +:+ value))
      with (twoDashNote ("--" +:+ key +:+ ":" +:+ value)).
    by apply twoDashNote_colon.
  - intros Hin Hloader Hequals.
    rewrite step_equals_form;
      [|assumption|assumption|intros H; apply Hequals, HT, H|assumption].
    rewrite (invalidFlag_mode mode) by done. do 2 f_equal.
    change (defaultNote ("--" +:+ key +:+ "=" +:+ value))
      with (twoDashNote ("--" +:+ key +:+ "=" +:+ value)).
    by apply twoDashNote_equals.
Qed.

End TwoDash.

(** ** The flags of the other mode *)

Section OtherMode.

Variable ParseLoader : string -> api.Loader + ErrorWithNote.

Local Abbreviation step := (step ParseLoader).








End OtherMode.

(** ** The first loop of runImpl *)

Lemma beforeServe_None l :
  existsb isServeFlag l = false -> beforeServe l = None.
Proof.
  induction l as [|a l IH]; [done|]. cbn.
  destruct (isServeFlag a); [done|]. cbn. by intros ->%IH.
Qed.

Lemma beforeServe_app before rest :
  existsb isServeFlag before = false ->
  beforeServe (before ++ rest) = app before <$> beforeServe rest.
Proof.
  induction before as [|a l IH]; cbn.
  - intros _. by destruct (beforeServe rest).
  - destruct (isServeFlag a); [done|]. cbn. intros ->%IH.
    by destruct (beforeServe rest).
Qed.

Lemma beforeServe_Some l before :
  beforeServe l = Some before ->
  existsb isServeFlag before = false
  /\ exists arg rest, l = before ++ arg :: rest /\ isServeFlag arg = true.
Proof.
  revert before. induction l as [|a l IH]; intros before; [done|]. cbn.
  destruct (isServeFlag a) eqn:Ha.
  - intros [= <-]. split; [done|]. by exists a, l.
  - destruct (beforeServe l) as [b|]; [|done]. cbn. intros [= <-].
    destruct (IH b eq_refl) as (Hb & arg & rest & -> & Harg).
    split; [cbn; by rewrite Ha|]. by exists arg, rest.
Qed.

Lemma keptArgs_app l1 l2 : keptArgs (l1 ++ l2) = keptArgs l1 ++ keptArgs l2.
Proof. apply List.filter_app. Qed.

Lemma keptArgs_length l : (length (keptArgs l) <= length l)%nat.
Proof. apply List.filter_length_le. Qed.

Lemma analyzeOf_snoc before arg :
  analyzeOf (before ++ [arg])
  = if isAnalyzeFlag arg then (true, String.eqb arg "--analyze=verbose")
    else analyzeOf before.
Proof.
  unfold analyzeOf. rewrite List.filter_app. cbn.
  destruct (isAnalyzeFlag arg); [|by rewrite app_nil_r].
  by rewrite last_snoc.
Qed.

Lemma keptArgs_snoc before arg :
  keptArgs (before ++ [arg])
  = if isAnalyzeFlag arg then keptArgs before else keptArgs before ++ [arg].
Proof.
  rewrite keptArgs_app. unfold keptArgs at 2. cbn.
  destruct (isAnalyzeFlag arg); cbn; [apply app_nil_r|done].
Qed.

(** The invariant of the loop: ahead of round [i], the array holds the
    arguments kept among the first [i] at its front, and is untouched from
    there on. *)
Lemma scanLoop_spec (before rest : list string) :
  existsb isServeFlag before = false ->
  scanLoop (length rest) (length before)
    (keptArgs before ++ drop (length (keptArgs before)) (before ++ rest))
    (fst (analyzeOf before)) (snd (analyzeOf before)) (length (keptArgs before))
  = scanOf (before ++ rest).
Proof.
  revert before. induction rest as [|arg rest IH]; intros before Hbefore.
  - cbn [length scanLoop]. rewrite app_nil_r.
    unfold scanOf. rewrite (beforeServe_None _ Hbefore).
    by rewrite take_app_length.
  - cbn [length scanLoop].
    pose proof (keptArgs_length before) as Hle.
    assert ((keptArgs before ++ drop (length (keptArgs before)) (before ++ arg :: rest))
              !! length before = Some arg) as ->.
    { rewrite lookup_app_r by done. rewrite lookup_drop.
      replace (length (keptArgs before) + (length before - length (keptArgs before)))%nat
        with (length before) by lia.
      by rewrite list_lookup_middle. }
    fold (isServeFlag arg).
    destruct (isServeFlag arg) eqn:Hserve.
    { unfold scanOf. rewrite (beforeServe_app _ _ Hbefore). cbn. rewrite Hserve. cbn.
      by rewrite app_nil_r. }
    assert (existsb isServeFlag (before ++ [arg]) = false) as Hbefore'.
    { rewrite existsb_app, Hbefore. cbn. by rewrite Hserve. }
    specialize (IH (before ++ [arg]) Hbefore').
    rewrite <- app_assoc in IH. cbn [app] in IH.
    rewrite length_app in IH. cbn [length] in IH.
    rewrite Nat.add_1_r in IH. rewrite analyzeOf_snoc, keptArgs_snoc in IH.
    unfold isAnalyzeFlag in IH.
    destruct (String.eqb arg "--analyze") eqn:Ha.
    { cbn [orb fst snd] in IH.
      apply String.eqb_eq in Ha as ->. exact IH. }
    destruct (String.eqb arg "--analyze=verbose") eqn:Hv.
    { cbn [orb fst snd] in IH. exact IH. }
    cbn [orb] in IH. rewrite <- IH. f_equal.
    + rewrite insert_app_r_alt by done. rewrite Nat.sub_diag.
      rewrite <- app_assoc. f_equal.
      assert (exists y, (before ++ arg :: rest) !! length (keptArgs before) = Some y)
        as [y Hy].
      { apply lookup_lt_is_Some. rewrite length_app. cbn. lia. }
      rewrite (drop_S _ _ _ Hy). cbn. f_equal. f_equal.
      rewrite length_app. cbn. lia.
    + rewrite length_app. cbn. lia.
Qed.

Lemma scan_scanOf (osArgs : list string) : scan osArgs = scanOf osArgs.
Proof. apply (scanLoop_spec [] osArgs). reflexivity. Qed.

(** X14 (the first loop of [runImpl]): the loop drops the flags of the
    analysis by moving the other arguments to the front of the array it
    ranges over. Without a flag of the server it leaves the arguments that
    are no flags of the analysis, and the analysis is the one the last of
    these flags asks for. At the first flag of the server it hands the
    whole array to the server as it is then: the arguments kept so far,
    followed by what stands behind them in the array from the start. The
    array has the length of the arguments; it is the arguments themselves
    when no flag of the analysis stands ahead of the flag of the server,
    and with [--analyze] ahead of one other argument and [--serve], this
    argument is handed to the server twice. *)
Theorem scan_spec (osArgs : list string) :
  scan osArgs = scanOf osArgs
  /\ (forall array, scan osArgs = ScanServe array -> length array = length osArgs)
  /\ (forall before, beforeServe osArgs = Some before ->
        existsb isAnalyzeFlag before = false -> scan osArgs = ScanServe osArgs)
  /\ (forall arg rest, isServeFlag arg = false -> isAnalyzeFlag arg = false ->
        scan ("--analyze" :: arg :: "--serve" :: rest)
        = ScanServe (arg :: arg :: "--serve" :: rest)).
Proof.
  split; [apply scan_scanOf|]. split; [|split].
  - intros array. rewrite scan_scanOf. unfold scanOf.
    destruct (beforeServe osArgs) as [before|] eqn:Hb; [|done].
    intros [= <-]. apply beforeServe_Some in Hb as (_ & arg & rest & -> & _).
    pose proof (keptArgs_length before).
    rewrite length_app, length_drop, !length_app. cbn. lia.
  - intros before Hb Ha. rewrite scan_scanOf. unfold scanOf. rewrite Hb. cbv zeta.
    assert (keptArgs before = before) as ->.
    { unfold keptArgs. clear Hb. induction before as [|a l IH]; [done|].
      cbn in *. apply orb_false_iff in Ha as [-> Hl]. cbn. by rewrite IH. }
    apply beforeServe_Some in Hb as (_ & arg & rest & -> & _).
    by rewrite drop_app_length.
  - intros arg rest Hs Ha. rewrite scan_scanOf. unfold scanOf.
    cbn [beforeServe]. change (isServeFlag "--analyze") with false.
    rewrite Hs. change (isServeFlag "--serve") with true.
    cbn [fmap option_fmap option_map]. unfold keptArgs. cbn [List.filter].
    change (isAnalyzeFlag "--analyze") with true. rewrite Ha. reflexivity.
Qed.

(** ** serveImpl *)

Lemma parseServeOptionsImpl_filtered osArgs serveOptions filteredArgs :
  parseServeOptionsImpl osArgs = inl (serveOptions, filteredArgs) ->
  filteredArgs = servedArgs osArgs.
Proof.
  unfold parseServeOptionsImpl. rewrite serveLoop_spec. cbn [app].
  set (portText := match last _ with Some a => _ | None => "0" end).
  set (servedir := match last _ with Some a => _ | None => EmptyString end).
  assert (forall host text,
            match strconv.ParseInt text 32 with
            | inl port =>
                if (port <? 0)%Z || (65535 <? port)%Z
                then inr (Errorf ("Invalid port number: " +:+ text))
                else inl ({| ServeOptions.Port := uint16 port; ServeOptions.Host := host;
                             ServeOptions.Servedir := servedir |},
                          List.filter (fun a => negb (isServeFlag a)) osArgs)
            | inr k => inr (NumError text k)
            end = inl (serveOptions, filteredArgs) ->
            filteredArgs = servedArgs osArgs) as Hport.
  { intros host text. destruct (strconv.ParseInt text 32) as [port|]; [|done].
    destruct (_ || _); [done|]. by intros [= _ <-]. }
  destruct (strings.ContainsRune portText ":"); [|apply Hport].
  destruct (net.SplitHostPort portText) as [[host text]|]; [apply Hport|done].
Qed.

Section ServeFacts.

Variable ParseLoader : string -> api.Loader + ErrorWithNote.

Local Abbreviation step := (step ParseLoader kindInternal).
Local Abbreviation loop := (loop ParseLoader kindInternal).
Local Abbreviation flagError := (flagError ParseLoader).

Lemma serveImpl_loop osArgs :
  serveImpl ParseLoader osArgs
  = match parseServeOptionsImpl osArgs with
    | inr err => ServeReturn [] (OfServe err)
    | inl (serveOptions, filteredArgs) =>
        match loop (mkState (Some serveDefaults) None false None) filteredArgs with
        | Failed _ err =>
            ServeReturn [PrintErrorToStderr filteredArgs (Text err)] (ErrorsNew (Text err))
        | Panicked => ServePanic
        | Done st =>
            match buildOpts (reconcile st) with
            | Some options => ServeCall serveOptions options filteredArgs
            | None => ServePanic
            end
        end
    end.
Proof.
  unfold serveImpl, parseOptionsImpl. fold serveDefaults.
  destruct (parseServeOptionsImpl osArgs) as [[so fa]|]; [|done].
  by destruct (loop _ fa).
Qed.

(** What a call of the server has bound *)
Lemma serveImpl_call_inv osArgs serveOptions o filteredArgs :
  serveImpl ParseLoader osArgs = ServeCall serveOptions o filteredArgs ->
  parseServeOptionsImpl osArgs = inl (serveOptions, filteredArgs)
  /\ Forall (fun a => flagError Build a = None) filteredArgs
  /\ exists st b' h m,
       loop (mkState (Some serveDefaults) None false None) filteredArgs = Done st
       /\ st = mkState (Some b') None h m
       /\ (o = b' \/ o = BuildOptions.set_Sourcemap api.SourceMapInline b').
Proof.
  rewrite serveImpl_loop.
  destruct (parseServeOptionsImpl osArgs) as [[so fa]|]; [|done].
  assert (inMode Build (mkState (Some serveDefaults) None false None)) as Hinit
    by (cbn; eauto).
  destruct (loop_mode ParseLoader Build _ fa Hinit)
    as [(st & Hl & Hm & Hall)|(st & e & pre & bad & post & Hl & _)]; rewrite Hl; [|done].
  apply inMode_build in Hm as (b' & h & m & ->).
  unfold reconcile. cbn.
  destruct (h && _ && _); cbn; intros [= <- <- <-]; (split; [done|]); (split; [done|]);
    exists (mkState (Some b') None h m), b', h, m; tauto.
Qed.

Lemma loop_build_Write args b h m st' :
  loop (mkState (Some b) None h m) args = Done st' ->
  exists b', buildOpts st' = Some b' /\ BuildOptions.Write b' = BuildOptions.Write b.
Proof.
  apply (loop_build_kept ParseLoader BuildOptions.Write).
  intros arg f mf Hfr. by apply Hfr.
Qed.

Lemma loop_build_NodePaths args b h m st' :
  loop (mkState (Some b) None h m) args = Done st' ->
  exists b', buildOpts st' = Some b' /\ BuildOptions.NodePaths b' = BuildOptions.NodePaths b.
Proof.
  apply (loop_build_kept ParseLoader BuildOptions.NodePaths).
  intros arg f mf Hfr. by apply Hfr.
Qed.

Lemma loop_build_LogLimit args b h m st' :
  loop (mkState (Some b) None h m) args = Done st' ->
  exists b', buildOpts st' = Some b'
    /\ BuildOptions.LogLimit b'
       = default (BuildOptions.LogLimit b) (last (omap logLimitFlag args)).
Proof.
  intros Hl.
  destruct (loop_build_fields_fold ParseLoader BuildOptions.LogLimit
              (fun a => strings.HasPrefix a "--log-limit=")
              (fun arg a => default a (logLimitOf (after "--log-limit=" arg))))
    with (args := args) (b := b) (h := h) (m := m) (st' := st')
    as (b' & Hb' & Hp); [| |done|].
  - intros arg f mf Hflag Hfr. by apply Hfr.
  - intros arg b0 h0 m0 st Hflag. rewrite (HasPrefix_split _ _ Hflag).
    rewrite (step_log_limit ParseLoader kindInternal), ?after_append.
    destruct (logLimitOf _); [|done].
    unfold onEither, onBuild; cbn. intros [= <-]. eexists. split; reflexivity.
  - exists b'. split; [done|]. rewrite Hp. apply foldl_log_limit.
Qed.

Lemma loop_build_LogLevel args b h m st' :
  loop (mkState (Some b) None h m) args = Done st' ->
  exists b', buildOpts st' = Some b'
    /\ BuildOptions.LogLevel b'
       = default (BuildOptions.LogLevel b) (last (omap logLevelFlag args)).
Proof.
  intros Hl.
  destruct (loop_build_fields_fold ParseLoader BuildOptions.LogLevel
              (fun a => strings.HasPrefix a "--log-level=")
              (fun arg a => default a (logLevelOf (after "--log-level=" arg))))
    with (args := args) (b := b) (h := h) (m := m) (st' := st')
    as (b' & Hb' & Hp); [| |done|].
  - intros arg f mf Hflag Hfr. by apply Hfr.
  - intros arg b0 h0 m0 st Hflag. rewrite (HasPrefix_split _ _ Hflag).
    rewrite (step_log_level ParseLoader), ?after_append.
    destruct (logLevelOf _); [|done].
    unfold onEither, onBuild; cbn. intros [= <-]. eexists. split; reflexivity.
  - exists b'. split; [done|]. rewrite Hp. apply foldl_log_level.
Qed.

(** X15 (the options of the server): the server binds its arguments to
    the options of a build, whatever they are. A call of the server has the
    arguments that are no flags of the server as its arguments, each of
    them valid in a build, and options that are not to be written to the
    file system, with the log limit of the last [--log-limit=] argument and
    5 without one, and the log level of the last [--log-level=] argument
    and [info] without one. *)
Theorem serve_options (osArgs : list string) (serveOptions : ServeOptions.t)
    (o : BuildOptions.t) (filteredArgs : list string) :
  serveImpl ParseLoader osArgs = ServeCall serveOptions o filteredArgs ->
  parseServeOptionsImpl osArgs = inl (serveOptions, filteredArgs)
  /\ filteredArgs = servedArgs osArgs
  /\ Forall (fun a => flagError Build a = None) filteredArgs
  /\ BuildOptions.Write o = false
  /\ BuildOptions.LogLimit o = default 5%Z (last (omap logLimitFlag filteredArgs))
  /\ BuildOptions.LogLevel o
     = default api.LogLevelInfo (last (omap logLevelFlag filteredArgs)).
Proof.
  intros (Hparse & Hall & st & b' & h & m & Hl & -> & Ho)%serveImpl_call_inv.
  split; [done|]. split; [by apply parseServeOptionsImpl_filtered in Hparse|].
  split; [done|].
  assert (BuildOptions.Write o = BuildOptions.Write b'
          /\ BuildOptions.LogLimit o = BuildOptions.LogLimit b'
          /\ BuildOptions.LogLevel o = BuildOptions.LogLevel b') as (-> & -> & ->).
  { by destruct Ho as [-> | ->]. }
  destruct (loop_build_Write _ _ _ _ _ Hl) as (b1 & E & HW); cbn in E; injection E as <-.
  destruct (loop_build_LogLimit _ _ _ _ _ Hl) as (b1 & E & HL); cbn in E; injection E as <-.
  destruct (loop_build_LogLevel _ _ _ _ _ Hl) as (b1 & E & HV); cbn in E; injection E as <-.
  by rewrite HW, HL, HV.
Qed.

End ServeFacts.

(** ** runImpl *)

Lemma entry_points_empty args :
  (length (entryPointsOf args) + length (advancedOf args) =? 0)%nat
  = negb (existsb isEntryPoint args).
Proof.
  induction args as [|a args IH]; [reflexivity|].
  unfold entryPointsOf, advancedOf, isEntryPoint in *.
  cbn [List.filter omap list_omap existsb]. unfold hasEquals.
  destruct (negb (strings.HasPrefix a "-")); cbn [andb orb]; [|exact IH].
  destruct (strings.IndexByte a "="); cbn [negb length];
    rewrite ?Nat.add_succ_r; reflexivity.
Qed.

Lemma nodePathsLoop_spec env environ b :
  nodePathsLoop env environ b
  = match List.find (fun key => strings.HasPrefix key "NODE_PATH=") environ with
    | Some key =>
        BuildOptions.set_NodePaths
          (splitWithEmptyCheck (after "NODE_PATH=" key)
             (if CheckIfWindows env then ";"%char else ":"%char)) b
    | None => b
    end.
Proof.
  induction environ as [|key rest IH]; [reflexivity|].
  cbn. by destruct (strings.HasPrefix key "NODE_PATH=").
Qed.

Section RunImplFacts.

Variable ParseLoader : string -> api.Loader + ErrorWithNote.
Variable env : Env.

Local Abbreviation loop := (loop ParseLoader kindInternal).
Local Abbreviation flagError := (flagError ParseLoader).
Local Abbreviation run := (parseOptionsForRun ParseLoader).
Local Abbreviation runImpl := (runImpl ParseLoader env).

(** The run without a flag of the server *)
Lemma runImpl_parse osArgs :
  existsb isServeFlag osArgs = false ->
  runImpl osArgs
  = match run (keptArgs osArgs) with
    | None => Crash
    | Some r =>
        match runBuild r, runTransform r, runErr r with
        | Some buildOptions, _, _ =>
            buildCase env (keptArgs osArgs) (fst (analyzeOf osArgs)) (snd (analyzeOf osArgs))
              buildOptions (runMetafile r)
        | None, Some transformOptions, _ => transformCase env (keptArgs osArgs) transformOptions
        | None, None, Some err => errorCase (keptArgs osArgs) err
        | None, None, None => Exit 0 []
        end
    end.
Proof.
  intros Hserve. unfold runImpl. rewrite scan_scanOf. unfold scanOf.
  by rewrite (beforeServe_None _ Hserve).
Qed.

Lemma beforeServe_is_Some osArgs :
  existsb isServeFlag osArgs = true -> exists before, beforeServe osArgs = Some before.
Proof.
  induction osArgs as [|a l IH]; [done|]. cbn.
  destruct (isServeFlag a); [eauto|]. cbn. intros [b ->]%IH. cbn. eauto.
Qed.

(** A run with a flag of the server calls no build and no transform. *)
Lemma runImpl_serve osArgs :
  existsb isServeFlag osArgs = true ->
  exists array,
    scan osArgs = ScanServe array
    /\ runImpl osArgs
       = match serveImpl ParseLoader array with
         | ServeReturn stderr err =>
             Exit 1 (stderr ++ [PrintErrorToStderr array (Error err)])
         | ServeCall serveOptions options filteredArgs =>
             Serving serveOptions options filteredArgs
         | ServePanic => Crash
         end.
Proof.
  intros [before Hb]%beforeServe_is_Some.
  exists (keptArgs before ++ drop (length (keptArgs before)) osArgs).
  unfold runImpl. rewrite scan_scanOf. unfold scanOf. rewrite Hb. done.
Qed.

Lemma stdinStage_inr args b out :
  stdinStage env args b = inr out -> exists stderr, out = Exit 1 stderr.
Proof.
  unfold stdinStage. destruct (_ =? _)%nat.
  - destruct (ReadAllStdin env); [done|]. intros [= <-]. eauto.
  - destruct (BuildOptions.Stdin b); [|done].
    destruct (negb _); intros [= <-]; eauto.
Qed.

Lemma metafileStage_Some args b mf out :
  metafileStage env args b mf = Some out -> exists stderr, out = Exit 1 stderr.
Proof.
  unfold metafileStage. destruct mf as [path|]; [|done].
  destruct (_ && _); [intros [= <-]; eauto|].
  destruct (RealFS env) as [Abs|]; [|done].
  destruct (Abs path); [done|]. intros [= <-]. eauto.
Qed.

(** What a call of the build went through *)
Lemma runImpl_Building_inv osArgs o a v mf :
  runImpl osArgs = Building o a v mf ->
  existsb isServeFlag osArgs = false
  /\ a = fst (analyzeOf osArgs) /\ v = snd (analyzeOf osArgs)
  /\ exists b b2,
       run (keptArgs osArgs) = Some (mkRunResult (Some b) mf None None)
       /\ stdinStage env (keptArgs osArgs) (nodePathsLoop env (Environ env) b) = inl b2
       /\ metafileStage env (keptArgs osArgs) b2 mf = None
       /\ o = if a then BuildOptions.set_Metafile true b2 else b2.
Proof.
  destruct (existsb isServeFlag osArgs) eqn:Hserve.
  { destruct (runImpl_serve osArgs Hserve) as (array & _ & ->).
    by destruct (serveImpl ParseLoader array). }
  rewrite runImpl_parse by done.
  destruct (run (keptArgs osArgs)) as [r|] eqn:Hrun; [|done].
  destruct (runBuild r) as [b|] eqn:Hb.
  - pose proof (run_build_shape ParseLoader _ _ _ Hrun Hb) as Hshape.
    unfold buildCase.
    destruct (stdinStage _ _ _) as [b2|out] eqn:Hs;
      [|by apply stdinStage_inr in Hs as [? ->]].
    destruct (metafileStage _ _ _ _) as [out|] eqn:Hm;
      [by apply metafileStage_Some in Hm as [? ->]|].
    intros [= <- <- <- <-]. split; [done|]. split; [done|]. split; [done|].
    exists b, b2. repeat apply conj; first [assumption | reflexivity | by rewrite <- Hshape].
  - destruct (runTransform r) as [t|].
    + unfold transformCase. by destruct (ReadAllStdin env).
    + by destruct (runErr r).
Qed.

(** X16 (an error of a flag ends the run): when an argument has an error
    in the mode of the run, the run prints the error once, with its note
    when it has one, and returns 1: it reads no input and calls no build
    and no transform. The flags of the analysis are neither bound nor
    printed. *)
Theorem flag_error_exits (osArgs pre : list string) (bad : string) (post : list string)
    (e : ErrorWithNote) :
  existsb isServeFlag osArgs = false ->
  keptArgs osArgs = pre ++ bad :: post ->
  Forall (fun a => flagError (modeOf (keptArgs osArgs)) a = None) pre ->
  flagError (modeOf (keptArgs osArgs)) bad = Some e ->
  runImpl osArgs
  = Exit 1 [PrintMessageToStderr (keptArgs osArgs) (Text e)
              (if negb (String.eqb (Note e) EmptyString) then [Note e] else [])].
Proof.
  intros Hserve Hkept Hpre Hbad. rewrite runImpl_parse by done.
  rewrite Hkept in *. by rewrite (run_first_error ParseLoader pre bad post e Hpre Hbad).
Qed.

Lemma run_build_Outfile args b mf :
  run args = Some (mkRunResult (Some b) mf None None) ->
  BuildOptions.Outfile b = lastValue "--outfile=" args
  /\ BuildOptions.Outdir b = lastValue "--outdir=" args.
Proof.
  intros (st & b' & Hl & Hb' & _ & Ho)%run_build_fields_inv.
  destruct (loop_outfile ParseLoader _ _ _ _ _ Hl) as (b1 & E & Hof).
  rewrite Hb' in E. injection E as <-.
  destruct (loop_outdir ParseLoader _ _ _ _ _ Hl) as (b1 & E & Hod).
  rewrite Hb' in E. injection E as <-.
  rewrite foldl_last_wins in Hof, Hod.
  assert (BuildOptions.Outfile b = BuildOptions.Outfile b'
          /\ BuildOptions.Outdir b = BuildOptions.Outdir b') as [-> ->]
    by (by destruct Ho as [-> | ->]).
  by rewrite Hof, Hod.
Qed.

Lemma run_build_entry_points args b mf :
  run args = Some (mkRunResult (Some b) mf None None) ->
  (length (BuildOptions.EntryPoints b) + length (BuildOptions.EntryPointsAdvanced b) =? 0)%nat
  = negb (existsb isEntryPoint args).
Proof.
  intros (st & b' & Hl & Hb' & _ & Ho)%run_build_fields_inv.
  destruct (loop_build_EntryPoints ParseLoader _ _ _ _ _ Hl) as (b1 & E & HE & HA).
  rewrite Hb' in E. injection E as <-.
  assert (BuildOptions.EntryPoints b = entryPointsOf args
          /\ BuildOptions.EntryPointsAdvanced b = advancedOf args) as [-> ->].
  { destruct Ho as [-> | ->]; cbn; by rewrite HE, HA. }
  apply entry_points_empty.
Qed.

(** What the loop over the environment leaves alone *)
Lemma nodePathsLoop_fields b :
  BuildOptions.NodePaths (nodePathsLoop env (Environ env) b)
  = match List.find (fun key => strings.HasPrefix key "NODE_PATH=") (Environ env) with
    | Some key =>
        splitWithEmptyCheck (after "NODE_PATH=" key)
          (if CheckIfWindows env then ";"%char else ":"%char)
    | None => BuildOptions.NodePaths b
    end
  /\ BuildOptions.EntryPoints (nodePathsLoop env (Environ env) b)
     = BuildOptions.EntryPoints b
  /\ BuildOptions.EntryPointsAdvanced (nodePathsLoop env (Environ env) b)
     = BuildOptions.EntryPointsAdvanced b
  /\ BuildOptions.Stdin (nodePathsLoop env (Environ env) b) = BuildOptions.Stdin b
  /\ BuildOptions.Outfile (nodePathsLoop env (Environ env) b) = BuildOptions.Outfile b
  /\ BuildOptions.Outdir (nodePathsLoop env (Environ env) b) = BuildOptions.Outdir b
  /\ BuildOptions.Metafile (nodePathsLoop env (Environ env) b) = BuildOptions.Metafile b
  /\ BuildOptions.Write (nodePathsLoop env (Environ env) b) = BuildOptions.Write b.
Proof.
  rewrite nodePathsLoop_spec.
  by destruct (List.find _ (Environ env)).
Qed.

(** What the rule of the standard input leaves alone *)
Lemma stdinStage_fields args b b2 :
  stdinStage env args b = inl b2 ->
  BuildOptions.NodePaths b2 = BuildOptions.NodePaths b
  /\ BuildOptions.Outfile b2 = BuildOptions.Outfile b
  /\ BuildOptions.Outdir b2 = BuildOptions.Outdir b
  /\ BuildOptions.Metafile b2 = BuildOptions.Metafile b
  /\ BuildOptions.Write b2 = BuildOptions.Write b.
Proof.
  unfold stdinStage. destruct (_ =? _)%nat.
  - destruct (ReadAllStdin env); [|done]. by intros [= <-].
  - destruct (BuildOptions.Stdin b); [by destruct (negb _)|]. by intros [= <-].
Qed.

(** X17 (the options of a build call): the options [runImpl] calls the
    build with are to be written to the file system; their node paths are
    the value of the first [NODE_PATH] entry of the environment, split at
    semicolons on Windows and at colons elsewhere, and no paths without
    such an entry or for an empty value; they ask for a metafile exactly
    when a flag of the analysis or a [--metafile=] argument is given; the
    analysis is the one of the last flag of the analysis; and a metafile
    path comes with an output file or an output directory. *)
Theorem build_call_options (osArgs : list string) (o : BuildOptions.t) (a v : bool)
    (mf : option string) :
  runImpl osArgs = Building o a v mf ->
  existsb isServeFlag osArgs = false
  /\ (a, v) = analyzeOf osArgs
  /\ mf = metafileOf (keptArgs osArgs)
  /\ BuildOptions.Write o = true
  /\ BuildOptions.NodePaths o = nodePathsOf env
  /\ BuildOptions.Metafile o
     = a || existsb (fun arg => strings.HasPrefix arg "--metafile=") (keptArgs osArgs)
  /\ (mf <> None ->
      lastValue "--outfile=" (keptArgs osArgs) <> EmptyString
      \/ lastValue "--outdir=" (keptArgs osArgs) <> EmptyString).
Proof.
  intros (Hserve & -> & -> & b & b2 & Hrun & Hs & Hm & ->)%runImpl_Building_inv.
  split; [done|]. split; [by destruct (analyzeOf osArgs)|].
  destruct (run_build_metafile ParseLoader _ _ _ Hrun) as (Hmf & HM & _).
  split; [done|].
  destruct (nodePathsLoop_fields b) as (HN1 & _ & _ & _ & HOf1 & HOd1 & HM1 & HW1).
  destruct (stdinStage_fields _ _ _ Hs) as (HN2 & HOf2 & HOd2 & HM2 & HW2).
  destruct (run_build_Outfile _ _ _ Hrun) as [HOf HOd].
  assert (BuildOptions.Write b = true) as HW.
  { change true with (BuildOptions.Write buildDefaults).
    apply (run_build_kept ParseLoader BuildOptions.Write)
      with (osArgs := keptArgs osArgs) (mf := mf); [done| |done].
    intros arg f mf' Hfr. by apply Hfr. }
  assert (BuildOptions.NodePaths b = []) as HN.
  { change (@nil string) with (BuildOptions.NodePaths buildDefaults).
    apply (run_build_kept ParseLoader BuildOptions.NodePaths)
      with (osArgs := keptArgs osArgs) (mf := mf); [done| |done].
    intros arg f mf' Hfr. by apply Hfr. }
  assert (forall a0 : bool,
            let o := if a0 then BuildOptions.set_Metafile true b2 else b2 in
            BuildOptions.Write o = BuildOptions.Write b2
            /\ BuildOptions.NodePaths o = BuildOptions.NodePaths b2
            /\ BuildOptions.Metafile o = a0 || BuildOptions.Metafile b2) as Hif
    by (by intros []).
  destruct (Hif (fst (analyzeOf osArgs))) as (-> & -> & ->). clear Hif.
  split; [|split; [|split]].
  - by rewrite HW2, HW1.
  - unfold nodePathsOf. rewrite HN2, HN1, HN. done.
  - by rewrite HM2, HM1, HM.
  - intros Hsome. unfold metafileStage in Hm.
    destruct mf as [path|]; [|done].
    rewrite HOf2, HOd2, HOf1, HOd1, HOf, HOd in Hm.
    destruct (String.eqb_spec (lastValue "--outfile=" (keptArgs osArgs)) EmptyString)
      as [E1|E1]; [|by left].
    destruct (String.eqb_spec (lastValue "--outdir=" (keptArgs osArgs)) EmptyString)
      as [E2|E2]; [done|by right].
Qed.

(** X18 (the rule of the standard input): a build with an entry point
    has no options of the standard input: with a [--sourcefile=] or a
    [--loader=] flag beside an entry point the run prints an error and
    returns 1, and the error is the one of the source file only when the
    last [--sourcefile=] argument has a value. A build without entry
    points reads the standard input: when this fails the run prints the
    failure and returns 1, and else the options of the build call hold
    what was read, the working directory, the source file and the
    loader. *)
Theorem stdin_rule (osArgs : list string) (b : BuildOptions.t) (mf : option string) :
  existsb isServeFlag osArgs = false ->
  run (keptArgs osArgs) = Some (mkRunResult (Some b) mf None None) ->
  (existsb isEntryPoint (keptArgs osArgs) = true ->
   existsb isStdinFlag (keptArgs osArgs) = true ->
   runImpl osArgs
   = Exit 1 [PrintErrorToStderr (keptArgs osArgs)
               (if negb (String.eqb (lastValue "--sourcefile=" (keptArgs osArgs)) EmptyString)
                then lit "`sourcefile` only applies when reading from stdin"
                else lit "`loader` without extension only applies when reading from stdin")])
  /\ (existsb isEntryPoint (keptArgs osArgs) = false ->
      forall err, ReadAllStdin env = inr err ->
        runImpl osArgs
        = Exit 1 [PrintErrorToStderr (keptArgs osArgs)
                    ("Could not read from stdin: " +:+ err)])
  /\ (forall o a v mf',
        runImpl osArgs = Building o a v mf' ->
        if existsb isEntryPoint (keptArgs osArgs) then BuildOptions.Stdin o = None
        else exists bytes,
               ReadAllStdin env = inl bytes
               /\ BuildOptions.Stdin o
                  = Some (StdinOptions.mk bytes (Getwd env)
                            (lastValue "--sourcefile=" (keptArgs osArgs))
                            (stdinLoader ParseLoader (keptArgs osArgs)))).
Proof.
  intros Hserve Hrun.
  pose proof (run_build_entry_points _ _ _ Hrun) as Hentry.
  pose proof (run_build_Stdin ParseLoader _ _ _ Hrun) as Hstdin.
  destruct (nodePathsLoop_fields b) as (_ & HE1 & HA1 & HS1 & _).
  assert (runImpl osArgs
          = buildCase env (keptArgs osArgs) (fst (analyzeOf osArgs)) (snd (analyzeOf osArgs))
              b mf) as Himpl.
  { rewrite runImpl_parse by done. by rewrite Hrun. }
  assert (forall b2 (a0 : bool), BuildOptions.Stdin
            (if a0 then BuildOptions.set_Metafile true b2 else b2)
          = BuildOptions.Stdin b2) as Han by (by intros ? []).
  split; [|split].
  - intros He Hs. rewrite Himpl. unfold buildCase, stdinStage.
    rewrite HE1, HA1, HS1, Hentry, He, Hstdin, Hs. cbn [negb].
    cbn [StdinOptions.Sourcefile].
    destruct (negb (String.eqb (lastValue "--sourcefile=" (keptArgs osArgs)) EmptyString));
      reflexivity.
  - intros He err Herr. rewrite Himpl. unfold buildCase, stdinStage.
    rewrite HE1, HA1, Hentry, He. cbn [negb]. by rewrite Herr.
  - intros o a v mf'. rewrite Himpl. unfold buildCase, stdinStage.
    rewrite HE1, HA1, HS1, Hentry, Hstdin.
    destruct (existsb isEntryPoint (keptArgs osArgs)); cbn [negb].
    + destruct (existsb isStdinFlag (keptArgs osArgs)) eqn:Hsf.
      { cbn [StdinOptions.Sourcefile].
        by destruct (negb (String.eqb (lastValue "--sourcefile=" (keptArgs osArgs))
                             EmptyString)). }
      destruct (metafileStage _ _ _ _) eqn:Hm;
        [by apply metafileStage_Some in Hm as [? ->]|].
      intros [= <- _ _ _]. by rewrite Han, HS1, Hstdin.
    + destruct (ReadAllStdin env) as [bytes|]; [|done].
      destruct (metafileStage _ _ _ _) eqn:Hm;
        [by apply metafileStage_Some in Hm as [? ->]|].
      intros [= <- _ _ _]. exists bytes. split; [done|]. rewrite Han. cbn.
      destruct (existsb isStdinFlag (keptArgs osArgs)) eqn:Hsf; [done|].
      unfold isStdinFlag in Hsf. rewrite existsb_orb in Hsf.
      apply orb_false_iff in Hsf as [H1 H2].
      unfold lastValue, stdinLoader.
      by rewrite (filter_nil_existsb _ _ H1), (filter_nil_existsb _ _ H2).
Qed.

(** X19 (the metafile path ahead of the build): with a [--metafile=]
    argument and neither an output file nor an output directory, a build
    that has passed the rule of the standard input prints an error and
    returns 1 without a call of the build; with an output path, it does so
    when the file system cannot make the path absolute. *)
Theorem metafile_needs_output_path (osArgs : list string) (b : BuildOptions.t)
    (path : string) :
  existsb isServeFlag osArgs = false ->
  run (keptArgs osArgs) = Some (mkRunResult (Some b) (Some path) None None) ->
  (existsb isEntryPoint (keptArgs osArgs) = true
   /\ existsb isStdinFlag (keptArgs osArgs) = false)
  \/ (existsb isEntryPoint (keptArgs osArgs) = false
      /\ exists bytes, ReadAllStdin env = inl bytes) ->
  path = lastValue "--metafile=" (keptArgs osArgs)
  /\ (lastValue "--outfile=" (keptArgs osArgs) = EmptyString ->
      lastValue "--outdir=" (keptArgs osArgs) = EmptyString ->
      runImpl osArgs
      = Exit 1 [PrintErrorToStderr (keptArgs osArgs)
                  (lit "Cannot use `metafile` without an output path")])
  /\ (forall Abs,
        (lastValue "--outfile=" (keptArgs osArgs) <> EmptyString
         \/ lastValue "--outdir=" (keptArgs osArgs) <> EmptyString) ->
        RealFS env = Some Abs -> Abs path = None ->
        runImpl osArgs
        = Exit 1 [PrintErrorToStderr (keptArgs osArgs)
                    ("Invalid metafile path: " +:+ path)]).
Proof.
  intros Hserve Hrun Hpass.
  pose proof (run_build_entry_points _ _ _ Hrun) as Hentry.
  pose proof (run_build_Stdin ParseLoader _ _ _ Hrun) as Hstdin.
  destruct (run_build_Outfile _ _ _ Hrun) as [HOf HOd].
  destruct (run_build_metafile ParseLoader _ _ _ Hrun) as (Hmf & _ & _).
  destruct (nodePathsLoop_fields b) as (_ & HE1 & HA1 & HS1 & HOf1 & HOd1 & _).
  assert (exists b2,
            stdinStage env (keptArgs osArgs) (nodePathsLoop env (Environ env) b) = inl b2)
    as [b2 Hs].
  { unfold stdinStage. rewrite HE1, HA1, HS1, Hentry, Hstdin.
    destruct Hpass as [[-> ->]|[-> [bytes ->]]]; cbn [negb]; eauto. }
  destruct (stdinStage_fields _ _ _ Hs) as (_ & HOf2 & HOd2 & _).
  assert (runImpl osArgs
          = match metafileStage env (keptArgs osArgs) b2 (Some path) with
            | Some out => out
            | None =>
                Building
                  (if fst (analyzeOf osArgs) then BuildOptions.set_Metafile true b2 else b2)
                  (fst (analyzeOf osArgs)) (snd (analyzeOf osArgs)) (Some path)
            end) as ->.
  { rewrite runImpl_parse by done. rewrite Hrun. cbn. unfold buildCase. by rewrite Hs. }
  unfold metafileStage. rewrite HOf2, HOd2, HOf1, HOd1, HOf, HOd.
  split; [|split].
  - unfold metafileOf in Hmf. unfold lastValue.
    destruct (last (List.filter _ (keptArgs osArgs))); [|done]. by injection Hmf.
  - by intros -> ->.
  - intros Abs Hout HFS Habs.
    assert (String.eqb (lastValue "--outfile=" (keptArgs osArgs)) EmptyString
            && String.eqb (lastValue "--outdir=" (keptArgs osArgs)) EmptyString = false)
      as ->.
    { apply andb_false_iff. destruct Hout as [H|H]; [left|right]; by apply String.eqb_neq. }
    by rewrite HFS, Habs.
Qed.


End RunImplFacts.

(** ** More theorems at concrete arguments *)

Lemma entry_points_read_back_witness :
  exists o,
    parseOptionsForRun cli_helpers.ParseLoader ["a.js"; "out=in.js"; "--bundle"; "x=y=z"]
    = Some (mkRunResult (Some o) None None None)
    /\ BuildOptions.EntryPoints o = ["a.js"]
    /\ map renderEntryPoint (BuildOptions.EntryPointsAdvanced o) = ["out=in.js"; "x=y=z"]
    /\ Forall (fun e => strings.IndexByte (api.OutputPath e) "=" = None)
         (BuildOptions.EntryPointsAdvanced o).
Proof.
  eexists. split; [vm_compute; reflexivity|].
  apply (entry_points_read_back cli_helpers.ParseLoader
           ["a.js"; "out=in.js"; "--bundle"; "x=y=z"] _ None).
  vm_compute. reflexivity.
Defined.

Lemma two_dash_separator_advice_witness :
  step cli_helpers.ParseLoader kindInternal (initState Build) "--outfile:out.js"
  = Return (invalidFlagError Build "--outfile:out.js"
      (lit "Use `--outfile=out.js` instead of `--outfile:out.js`. Flags that can only be specified once use `=` instead of `:`.")).
Proof.
  apply (proj1 (two_dash_separator_advice cli_helpers.ParseLoader kindInternal
                  Build (initState Build) "outfile" "out.js"
                  (conj (ex_intro _ _ eq_refl) eq_refl))).
  - vm_compute. tauto.
  - intros _. vm_compute. intuition discriminate.
Defined.

Lemma comma_lists_last_value_witness :
  exists o,
    parseOptionsForRun cli_helpers.ParseLoader
      ["a.js"; "--main-fields=module,main"; "--conditions="; "--main-fields=browser,,main"]
    = Some (mkRunResult (Some o) None None None)
    /\ BuildOptions.ResolveExtensions o = []
    /\ BuildOptions.MainFields o = ["browser"; EmptyString; "main"]
    /\ BuildOptions.Conditions o = [].
Proof.
  eexists. split; [vm_compute; reflexivity|].
  apply (comma_lists_last_value cli_helpers.ParseLoader
           ["a.js"; "--main-fields=module,main"; "--conditions=";
            "--main-fields=browser,,main"] _ None).
  vm_compute. reflexivity.
Defined.

Lemma run_metafile_witness :
  exists o,
    parseOptionsForRun cli_helpers.ParseLoader
      ["a.js"; "--metafile=m1.json"; "--outfile=o.js"; "--metafile=m2.json"]
    = Some (mkRunResult (Some o) (Some "m2.json") None None)
    /\ Some "m2.json"
       = metafileOf ["a.js"; "--metafile=m1.json"; "--outfile=o.js"; "--metafile=m2.json"]
    /\ BuildOptions.Metafile o = true
    /\ ~ In "--metafile"
           ["a.js"; "--metafile=m1.json"; "--outfile=o.js"; "--metafile=m2.json"].
Proof.
  eexists. split; [vm_compute; reflexivity|].
  apply (run_metafile cli_helpers.ParseLoader
           ["a.js"; "--metafile=m1.json"; "--outfile=o.js"; "--metafile=m2.json"]
           (mkRunResult (Some _) (Some "m2.json") None None)).
  vm_compute. reflexivity.
Defined.

Lemma bare_flags_switch_on_witness :
  exists o,
    parseOptionsForRun cli_helpers.ParseLoader ["a.js"; "--minify"; "--watch"; "--minify"]
    = Some (mkRunResult (Some o) None None None)
    /\ BuildOptions.Bundle o = false
    /\ BuildOptions.Watch o = Some api.mkWatchMode
    /\ BuildOptions.MinifySyntax o = true.
Proof.
  eexists. split; [vm_compute; reflexivity|].
  destruct (proj1 (bare_flags_switch_on cli_helpers.ParseLoader
                     ["a.js"; "--minify"; "--watch"; "--minify"]) _ None
              ltac:(vm_compute; reflexivity))
    as (H1 & _ & _ & _ & H5 & _ & _ & H8 & _).
  exact (conj H1 (conj H5 H8)).
Defined.

Lemma cli_defaults_witness :
  exists t,
    parseOptionsForRun cli_helpers.ParseLoader ["--log-limit=+12"; "--log-level=error"]
    = Some (mkRunResult None None (Some t) None)
    /\ TransformOptions.LogLimit t = 12%Z
    /\ TransformOptions.LogLevel t = api.LogLevelError.
Proof.
  eexists. split; [vm_compute; reflexivity|].
  apply (proj2 (cli_defaults cli_helpers.ParseLoader
                  ["--log-limit=+12"; "--log-level=error"])).
  vm_compute. reflexivity.
Defined.

Lemma stdin_options_witness :
  exists o,
    parseOptionsForRun cli_helpers.ParseLoader
      ["--bundle"; "--sourcefile=a.ts"; "--loader=ts"; "--sourcefile=b.ts"]
    = Some (mkRunResult (Some o) None None None)
    /\ BuildOptions.Stdin o
       = Some (StdinOptions.mk EmptyString EmptyString "b.ts" api.LoaderTS).
Proof.
  eexists. split; [vm_compute; reflexivity|].
  apply (proj1 (stdin_options cli_helpers.ParseLoader
                  ["--bundle"; "--sourcefile=a.ts"; "--loader=ts"; "--sourcefile=b.ts"])
           _ None).
  vm_compute. reflexivity.
Defined.

Lemma serve_options_witness :
  exists serveOptions o,
    serveImpl cli_helpers.ParseLoader ["--serve=8000"; "a.js"; "--log-limit=0"; "--servedir=www"]
    = ServeCall serveOptions o ["a.js"; "--log-limit=0"]
    /\ BuildOptions.Write o = false
    /\ BuildOptions.LogLimit o = 0%Z
    /\ BuildOptions.LogLevel o = api.LogLevelInfo.
Proof.
  eexists _, _. split; [vm_compute; reflexivity|].
  destruct (serve_options cli_helpers.ParseLoader
              ["--serve=8000"; "a.js"; "--log-limit=0"; "--servedir=www"] _ _ _
              ltac:(vm_compute; reflexivity))
    as (_ & _ & _ & H4 & H5 & H6).
  exact (conj H4 (conj H5 H6)).
Defined.

Lemma flag_error_exits_witness :
  runImpl cli_helpers.ParseLoader brokenEnv ["--analyze"; "a.js"; "-bundle"; "--bogus"]
  = Exit 1 [PrintMessageToStderr ["a.js"; "-bundle"; "--bogus"]
              (lit "Invalid build flag: `-bundle`")
              [lit "Use `--bundle` instead of `-bundle`. Flags are always specified with two dashes instead of one dash."]].
Proof.
  apply (flag_error_exits cli_helpers.ParseLoader brokenEnv
           ["--analyze"; "a.js"; "-bundle"; "--bogus"] ["a.js"] "-bundle" ["--bogus"]
           (cli_helpers.MakeErrorWithNote
              (lit "Invalid build flag: `-bundle`")
              (lit "Use `--bundle` instead of `-bundle`. Flags are always specified with two dashes instead of one dash."))).
  - reflexivity.
  - reflexivity.
  - repeat constructor.
  - vm_compute. reflexivity.
Defined.

Lemma build_call_options_witness :
  exists o,
    runImpl cli_helpers.ParseLoader sampleEnv
      ["--analyze=verbose"; "a.js"; "--outfile=o.js"; "--analyze"]
    = Building o true false None
    /\ BuildOptions.Write o = true
    /\ BuildOptions.NodePaths o = ["/lib"; "/opt/lib"]
    /\ BuildOptions.Metafile o = true.
Proof.
  eexists. split; [vm_compute; reflexivity|].
  destruct (build_call_options cli_helpers.ParseLoader sampleEnv
              ["--analyze=verbose"; "a.js"; "--outfile=o.js"; "--analyze"] _ _ _ _
              ltac:(vm_compute; reflexivity))
    as (_ & _ & _ & H4 & H5 & H6 & _).
  exact (conj H4 (conj H5 H6)).
Defined.

Lemma stdin_rule_witness :
  runImpl cli_helpers.ParseLoader sampleEnv ["a.js"; "--sourcefile="]
  = Exit 1 [PrintErrorToStderr ["a.js"; "--sourcefile="]
              (lit "`loader` without extension only applies when reading from stdin")].
Proof.
  eapply (proj1 (stdin_rule cli_helpers.ParseLoader sampleEnv ["a.js"; "--sourcefile="]
                   _ None eq_refl ltac:(vm_compute; reflexivity))).
  - reflexivity.
  - reflexivity.
Defined.

Lemma metafile_needs_output_path_witness :
  runImpl cli_helpers.ParseLoader sampleEnv ["--bundle"; "--metafile=meta.json"]
  = Exit 1 [PrintErrorToStderr ["--bundle"; "--metafile=meta.json"]
              (lit "Cannot use `metafile` without an output path")].
Proof.
  eapply (proj1 (proj2 (metafile_needs_output_path cli_helpers.ParseLoader sampleEnv
                          ["--bundle"; "--metafile=meta.json"] _ "meta.json" eq_refl
                          ltac:(vm_compute; reflexivity)
                          (or_intror (conj eq_refl (ex_intro _ _ eq_refl)))))).
  - reflexivity.
  - reflexivity.
Defined.

